(** * Payment tracker: incremental block-range reconciliation

    A shallow embedding of the iteration of [payment-tracker.js] that
    introduces [validateAndFixBlockNumber], [CONSERVATIVE_BLOCK_ADVANCE]
    and the block processing log, and the properties of its watermark
    handling.

    Conventions of the embedding.
    - Numbers that the source obtains with [parseInt] from well-formed
      decimal text (block numbers, time stamps, gas) are integers of [Z];
      on those, [parseInt(x) || 0] is the identity.
    - Token amounts are kept in the token's base unit (millionths of a
      USDC); the source divides by [1e6] into a double, whose rounding is
      not represented.
    - [NOW()] columns and the informational [console.log] lines are left
      out, except for the names that the [console.log] lines of the loop
      of [runPaymentTracker] evaluate; [console.warn] lines are kept, as
      structured values.
    - An MD5 digest is kept as the tuple of values that was hashed.
    - Asynchronous calls are sequential ([await] at every call), so a
      function of the source is a state transformer that either returns
      or throws.
    - A statement that the database refuses (a constraint, a lost
      connection) is a rejected statement; the host says which statements
      are rejected, by their place in the source. *)

From Stdlib Require Import ZArith List String Ascii Bool Lia Sorted.
From stdpp Require Import base option list gmap strings.

Local Open Scope string_scope.
Local Open Scope list_scope.
Local Open Scope Z_scope.

(** ** Values of the program *)

(** A row of the explorer's [tokentx] answer. *)
Module Raw.
Record t : Type := mk {
  hash : string;
  blockNumber : Z;
  timeStamp : Z;
  from : string;
  to : string;
  value : Z;
  gasUsed : Z
}.
End Raw.

(** An element of [validTransactions]. *)
Module Valid.
Record t : Type := mk {
  txHash : string;
  blockNumber : Z;
  timestamp : Z;
  fromAddress : string;
  fromHypermapName : string;
  toAddress : string;
  toProviderId : string;
  valueUsdc : Z;
  gasUsed : Z
}.
End Valid.

(** A row of [fetchProviderEntries]. *)
Record Provider : Type := {
  namehash : string;
  full_name : string;
  provider_id : string;
  wallet_address : string
}.

(** A value of the [tbaLookup] map. *)
Record TbaInfo : Type := {
  fullName : string;
  tba_namehash : string
}.

(** What went into an MD5 digest. *)
Inductive StateHash : Type :=
| HashOfBlock (block : Z) (provider_namehash : string)
| HashOfStats (block : Z) (newTotalUsdc : Z) (transactions : Z).

(** The object built by [getProviderCurrentStats]; also the statistics
    columns of a [provider_leaderboard] row. *)
Record Stats : Type := {
  last_processed_block : Z;
  total_usdc_received : Z;
  transaction_count : Z;
  unique_sender_count : Z;
  first_transaction_at : option Z;
  last_transaction_at : option Z;
  last_transaction_block : Z;
  processing_checkpoint : Z;
  state_validation_hash : option StateHash
}.

Definition zeroStats : Stats := {|
  last_processed_block := 0;
  total_usdc_received := 0;
  transaction_count := 0;
  unique_sender_count := 0;
  first_transaction_at := None;
  last_transaction_at := None;
  last_transaction_block := 0;
  processing_checkpoint := 0;
  state_validation_hash := None
|}.

(** A row of [provider_leaderboard], keyed by [provider_entry_namehash]. *)
Record LeaderboardRow : Type := {
  row_entry_name : string;
  row_provider_id : string;
  row_wallet_address : string;
  row_stats : Stats
}.

(** A row of [hypermap_transactions], keyed by [tx_hash]. *)
Record TransactionRow : Type := {
  tx_hash : string;
  block_number : Z;
  tx_timestamp : Z;
  from_address : string;
  from_hypermap_name : string;
  to_address : string;
  to_provider_id : string;
  provider_entry_name : string;
  value_usdc : Z;
  gas_used : Z
}.

Inductive ChangeType : Type :=
| corruption_fix
| conservative_advance
| normal_advance.

(** A row of [block_processing_log]. *)
Record BlockLogRow : Type := {
  log_namehash : string;
  log_entry_name : string;
  old_block_number : Z;
  new_block_number : Z;
  change_type : ChangeType
}.

(** The statements sent to the payments database, by place in the source. *)
Inductive Statement : Type :=
| SelectCurrentStats
| InsertBlockLog
| UpsertLastProcessedBlock
| Begin_updatePaymentRecords
| InsertTransaction (position : nat)
| Commit_updatePaymentRecords
| Begin_updateLeaderboardStats
| SelectExistingSenders
| UpsertLeaderboardStats
| Commit_updateLeaderboardStats
| UpdateLastError.

(** What a function of the source can throw. *)
Inductive JsError : Type :=
| ReferenceError (identifier : string)
| TypeError (what : string)
| UnreasonableBlock (safeBlockNumber : Z)
| QueryRejected (statement : Statement)
| ApiRequestFailed (message : string).

(** The lines written with [console.warn]. *)
Inductive Warning : Type :=
| CorruptionDetected (providerName : string) (block currentHeight : Z)
| BeforeFromBlock (hash : string) (blockNumber fromBlock : Z).

(** ** The surroundings of a run *)

(** An answer of the explorer: the decoded JSON body, or a failed
    request. *)
Inductive ApiReply : Type :=
| ApiData (status message : string) (result : list Raw.t + string)
| ApiUnreachable (reason : string).

Record Config : Type := {
  MAX_RETRIES : nat;
  BLOCK_SAFETY_BUFFER : Z;
  CONSERVATIVE_BLOCK_ADVANCE : Z
}.

(** The values taken when the environment sets nothing. *)
Definition defaultConfig : Config := {|
  MAX_RETRIES := 3;
  BLOCK_SAFETY_BUFFER := 10;
  CONSERVATIVE_BLOCK_ADVANCE := 100
|}.

(** Everything a run reads but does not own: the configuration, the
    explorer (its answer for a wallet, a block range and an attempt
    number), the statements the database rejects, and whether the module
    loader binds [require] (the file is an ES module: Node does not,
    loaders that mix both module systems do). *)
Record Host : Type := {
  config : Config;
  etherscan : string -> Z -> Z -> nat -> ApiReply;
  rejects : Statement -> bool;
  binds_require : bool
}.

(** The payments database and the warning stream. *)
Record World : Type := {
  provider_leaderboard : gmap string LeaderboardRow;
  hypermap_transactions : list TransactionRow;
  block_processing_log : list BlockLogRow;
  tracker_last_error : option (string * JsError);
  console_warn : list Warning
}.

(** ** Computations that return or throw *)

Inductive Completion (A : Type) : Type :=
| Returned (a : A)
| Thrown (e : JsError).
Arguments Returned {A} a.
Arguments Thrown {A} e.

Definition Js (A : Type) : Type := World -> Completion A * World.

Definition ret {A} (a : A) : Js A := fun w => (Returned a, w).
Definition throw {A} (e : JsError) : Js A := fun w => (Thrown e, w).
Definition bind {A B} (m : Js A) (k : A -> Js B) : Js B :=
  fun w => match m w with
           | (Returned a, w') => k a w'
           | (Thrown e, w') => (Thrown e, w')
           end.
(** [try { m } catch (error) { handler(error) }] *)
Definition tryCatch {A} (m : Js A) (handler : JsError -> Js A) : Js A :=
  fun w => match m w with
           | (Returned a, w') => (Returned a, w')
           | (Thrown e, w') => handler e w'
           end.

Notation "'let*' x ':=' m 'in' k" := (bind m (fun x => k))
  (at level 10, x name, m at level 100, k at level 200).
Notation "m ';;' k" := (bind m (fun _ => k))
  (at level 100, k at level 200, right associativity).

Definition modify (f : World -> World) : Js unit := fun w => (Returned tt, f w).
Definition get : Js World := fun w => (Returned w, w).

(** [await paymentsDb.query(...)]: the statement is rejected or it acts. *)
Definition query (h : Host) (s : Statement) (effect : World -> World) : Js unit :=
  if rejects h s then throw (QueryRejected s) else modify effect.

(** The world after [lines] went to [console.warn]. *)
Definition warned (lines : list Warning) (w : World) : World := {|
  provider_leaderboard := provider_leaderboard w;
  hypermap_transactions := hypermap_transactions w;
  block_processing_log := block_processing_log w;
  tracker_last_error := tracker_last_error w;
  console_warn := console_warn w ++ lines
|}.

Definition console_warn_line (line : Warning) : Js unit := modify (warned [line]).

(** The tables of [db] under the warning stream of [w]: what [ROLLBACK]
    leaves when [db] is the state at [BEGIN]. *)
Definition restoreTables (db w : World) : World := {|
  provider_leaderboard := provider_leaderboard db;
  hypermap_transactions := hypermap_transactions db;
  block_processing_log := block_processing_log db;
  tracker_last_error := tracker_last_error db;
  console_warn := console_warn w
|}.

(** [BEGIN; body; COMMIT] with [ROLLBACK] and rethrow in the [catch]. *)
Definition transaction {A} (h : Host) (begin commit : Statement)
    (body : Js A) : Js A :=
  fun w =>
    match (query h begin id ;; let* a := body in query h commit id ;; ret a) w with
    | (Returned a, w') => (Returned a, w')
    | (Thrown e, w') => (Thrown e, restoreTables w w')
    end.

(** ** Text *)

Definition lowerAscii (c : ascii) : ascii :=
  let n := nat_of_ascii c in
  if (65 <=? n)%nat && (n <=? 90)%nat then ascii_of_nat (n + 32) else c.

(** [String.prototype.toLowerCase] on the ASCII range, which holds the
    hexadecimal account addresses. *)
Fixpoint toLowerCase (s : string) : string :=
  match s with
  | EmptyString => EmptyString
  | String c rest => String (lowerAscii c) (toLowerCase rest)
  end.

(** ** Names in scope

    An identifier that no enclosing scope binds throws a
    [ReferenceError] when it is evaluated. *)

Definition moduleBindings : list string :=
  [ "pg"; "fetch"; "config"; "crypto"; "Pool";
    "INDEXER_DATABASE_URL"; "PAYMENTS_DATABASE_URL"; "ETHERSCAN_API_KEY";
    "POLL_INTERVAL_MS"; "USDC_CONTRACT_ADDRESS"; "ETHERSCAN_API_URL";
    "BASE_CHAIN_ID"; "MAX_RETRIES"; "RETRY_DELAY_MS"; "BLOCK_SAFETY_BUFFER";
    "CONSERVATIVE_BLOCK_ADVANCE";
    "findGridBetaHyprNamehash"; "fetchProviderEntries"; "buildTbaLookup";
    "getCurrentBlockHeight"; "fetchUsdcTransactions";
    "getProviderCurrentStats"; "validateAndFixBlockNumber"; "logBlockChange";
    "processProviderTransactions"; "updatePaymentRecords";
    "updateLastProcessedBlock"; "updateLeaderboardStatsIncremental";
    "runPaymentTracker" ].

Definition hostGlobals (h : Host) : list string :=
  ([ "console"; "process"; "parseInt"; "parseFloat"; "Math"; "Date"; "URL";
     "Promise"; "Error"; "Map"; "Set"; "setTimeout"; "setInterval" ]
  ++ (if binds_require h then ["require"] else []))%list.

Definition inScope (h : Host) (locals : list string) (x : string) : bool :=
  existsb (String.eqb x) (locals ++ moduleBindings ++ hostGlobals h)%list.

Definition resolve (h : Host) (locals : list string) (x : string) : Js unit :=
  if inScope h locals x then ret tt else throw (ReferenceError x).

Fixpoint resolveAll (h : Host) (locals : list string) (xs : list string) : Js unit :=
  match xs with
  | [] => ret tt
  | x :: rest => resolve h locals x ;; resolveAll h locals rest
  end.

(** [for (const x of l) body] with the variables the body assigns. *)
Fixpoint forOf {A S : Type} (l : list A) (body : S -> A -> Js S) (s : S) : Js S :=
  match l with
  | [] => ret s
  | x :: rest => let* s' := body s x in forOf rest body s'
  end.

(** ** The functions of the tracker *)

Definition with_leaderboard (f : gmap string LeaderboardRow -> gmap string LeaderboardRow)
    (w : World) : World := {|
  provider_leaderboard := f (provider_leaderboard w);
  hypermap_transactions := hypermap_transactions w;
  block_processing_log := block_processing_log w;
  tracker_last_error := tracker_last_error w;
  console_warn := console_warn w
|}.

Definition with_transactions (f : list TransactionRow -> list TransactionRow)
    (w : World) : World := {|
  provider_leaderboard := provider_leaderboard w;
  hypermap_transactions := f (hypermap_transactions w);
  block_processing_log := block_processing_log w;
  tracker_last_error := tracker_last_error w;
  console_warn := console_warn w
|}.

Definition with_block_log (f : list BlockLogRow -> list BlockLogRow)
    (w : World) : World := {|
  provider_leaderboard := provider_leaderboard w;
  hypermap_transactions := hypermap_transactions w;
  block_processing_log := f (block_processing_log w);
  tracker_last_error := tracker_last_error w;
  console_warn := console_warn w
|}.

Definition with_last_error (e : option (string * JsError)) (w : World) : World := {|
  provider_leaderboard := provider_leaderboard w;
  hypermap_transactions := hypermap_transactions w;
  block_processing_log := block_processing_log w;
  tracker_last_error := e;
  console_warn := console_warn w
|}.

(** The row of the provider, or the zero object. *)
Definition currentStatsOf (w : World) (provider : Provider) : Stats :=
  match provider_leaderboard w !! namehash provider with
  | Some row => row_stats row
  | None => zeroStats
  end.

(** The [SELECT] on [provider_leaderboard] and the object built from its
    row. *)
Definition getProviderCurrentStats (h : Host) (provider : Provider) : Js Stats :=
  query h SelectCurrentStats id ;;
  let* w := get in
  ret (currentStatsOf w provider).

(** [Math.floor(block / 10)] is the quotient of [Z], which rounds down. *)
Definition validateAndFixBlockNumber (blockNumber currentHeight : Z)
    (providerName : string) : Js Z :=
  let block := blockNumber in
  if block >? currentHeight + 1000 then
    console_warn_line (CorruptionDetected providerName block currentHeight) ;;
    if block >? 100000000 then
      let fixed := block / 10 in
      ret fixed
    else ret currentHeight
  else ret block.

(** The [catch] of [logBlockChange] reports the failure and goes on. *)
Definition logBlockChange (h : Host) (provider : Provider) (oldBlock newBlock : Z)
    (changeType : ChangeType) : Js unit :=
  tryCatch
    (query h InsertBlockLog (with_block_log (fun log =>
       (log ++ [ {| log_namehash := namehash provider;
                    log_entry_name := full_name provider;
                    old_block_number := oldBlock;
                    new_block_number := newBlock;
                    change_type := changeType |} ])%list)))
    (fun _ => ret tt).

(** [INSERT ... ON CONFLICT (provider_entry_namehash) DO UPDATE] of
    [updateLastProcessedBlock]. *)
Definition upsertLastProcessedBlock (provider : Provider) (safeBlockNumber : Z)
    (stateHash : StateHash) (table : gmap string LeaderboardRow)
    : gmap string LeaderboardRow :=
  match table !! namehash provider with
  | None =>
      <[ namehash provider :=
         {| row_entry_name := full_name provider;
            row_provider_id := provider_id provider;
            row_wallet_address := wallet_address provider;
            row_stats := {|
              last_processed_block := safeBlockNumber;
              total_usdc_received := 0;
              transaction_count := 0;
              unique_sender_count := 0;
              first_transaction_at := None;
              last_transaction_at := None;
              last_transaction_block := 0;
              processing_checkpoint := safeBlockNumber;
              state_validation_hash := Some stateHash |} |} ]> table
  | Some row =>
      let old := row_stats row in
      <[ namehash provider :=
         {| row_entry_name := row_entry_name row;
            row_provider_id := row_provider_id row;
            row_wallet_address := row_wallet_address row;
            row_stats := {|
              last_processed_block := safeBlockNumber;
              total_usdc_received := total_usdc_received old;
              transaction_count := transaction_count old;
              unique_sender_count := unique_sender_count old;
              first_transaction_at := first_transaction_at old;
              last_transaction_at := last_transaction_at old;
              last_transaction_block := last_transaction_block old;
              processing_checkpoint :=
                Z.max (processing_checkpoint old) (safeBlockNumber - 1000);
              state_validation_hash := Some stateHash |} |} ]> table
  end.

(** The sanity check, then [require('crypto')], which evaluates the
    identifier [require], then the upsert. *)
Definition updateLastProcessedBlock (h : Host) (provider : Provider)
    (lastProcessedBlock : Z) : Js unit :=
  let safeBlockNumber := lastProcessedBlock in
  if safeBlockNumber >? 100000000 then throw (UnreasonableBlock safeBlockNumber)
  else
    resolve h ["paymentsDb"; "provider"; "lastProcessedBlock"; "safeBlockNumber"]
      "require" ;;
    let stateHash := HashOfBlock safeBlockNumber (namehash provider) in
    query h UpsertLastProcessedBlock
      (with_leaderboard (upsertLastProcessedBlock provider safeBlockNumber stateHash)).

(** [data.message || data.result || 'API request failed'] as the text of
    an [Error]: an absent message or result is the empty text, and an
    array, which is truthy, reads as its elements joined by commas. *)
Definition failureText (message : string) (result : list Raw.t + string) : string :=
  if negb (String.eqb message EmptyString) then message
  else match result with
       | inr text =>
           if String.eqb text EmptyString then "API request failed" else text
       | inl rows => String.concat "," (map (fun _ => "[object Object]") rows)
       end.

(** One pass of the body of the retry loop of [fetchUsdcTransactions]. *)
Definition fetchAttempt (reply : ApiReply) (walletAddress : string)
    : Completion (list Raw.t) :=
  match reply with
  | ApiUnreachable reason => Thrown (ApiRequestFailed reason)
  | ApiData status message result =>
      if String.eqb status "1" then
        match result with
        | inl rows =>
            Returned (List.filter
              (fun tx => String.eqb (toLowerCase (Raw.to tx)) (toLowerCase walletAddress))
              rows)
        | inr _ => Thrown (TypeError "data.result.filter is not a function")
        end
      else if String.eqb status "0" &&
              (String.eqb message "No transactions found" ||
               match result with
               | inr text => String.eqb text "No transactions found"
               | inl _ => false
               end)
      then Returned []
      else Thrown (ApiRequestFailed (failureText message result))
  end.

(** The retry loop, [attempt] counting up to [MAX_RETRIES]; it falls off
    its end, returning [undefined], only when [MAX_RETRIES] is zero. *)
Fixpoint fetchRetry (replies : nat -> ApiReply) (walletAddress : string)
    (maxRetries attempt remaining : nat) : Completion (option (list Raw.t)) :=
  match remaining with
  | O => Returned None
  | S remaining' =>
      match fetchAttempt (replies attempt) walletAddress with
      | Returned rows => Returned (Some rows)
      | Thrown e =>
          if (attempt =? maxRetries)%nat then Thrown e
          else fetchRetry replies walletAddress maxRetries (S attempt) remaining'
      end
  end.

Definition fetchUsdcTransactions (h : Host) (walletAddress : string)
    (fromBlock endBlock : Z) : Js (option (list Raw.t)) :=
  let n := MAX_RETRIES (config h) in
  match fetchRetry (etherscan h walletAddress fromBlock endBlock) walletAddress n 1 n with
  | Returned rows => ret rows
  | Thrown e => throw e
  end.

(** [transactions.sort((a, b) => a.blockNumber - b.blockNumber)]: ascending
    and stable. *)
Fixpoint insertByBlock (tx : Raw.t) (sorted : list Raw.t) : list Raw.t :=
  match sorted with
  | [] => [tx]
  | y :: rest =>
      if Raw.blockNumber tx <=? Raw.blockNumber y then tx :: sorted
      else y :: insertByBlock tx rest
  end.

Definition sortByBlockNumber (transactions : list Raw.t) : list Raw.t :=
  fold_right insertByBlock [] transactions.

Record Reconciled : Type := {
  validTransactions : list Valid.t;
  lastProcessedBlock : Z;
  reachedSafeHeight : bool
}.

(** The object pushed on [validTransactions]. *)
Definition validTransaction (provider : Provider) (tx : Raw.t) (tbaInfo : TbaInfo)
    : Valid.t := {|
  Valid.txHash := Raw.hash tx;
  Valid.blockNumber := Raw.blockNumber tx;
  Valid.timestamp := Raw.timeStamp tx * 1000;
  Valid.fromAddress := Raw.from tx;
  Valid.fromHypermapName := fullName tbaInfo;
  Valid.toAddress := Raw.to tx;
  Valid.toProviderId := provider_id provider;
  Valid.valueUsdc := Raw.value tx;
  Valid.gasUsed := Raw.gasUsed tx
|}.

(** The body of the loop over [sortedTransactions]; the pair holds
    [validTransactions] and [maxBlockSeen]. *)
Definition scanTransaction (provider : Provider) (tbaLookup : gmap string TbaInfo)
    (safeBlockHeight fromBlock : Z) (vars : list Valid.t * Z) (tx : Raw.t)
    : Js (list Valid.t * Z) :=
  let blockNumber := Raw.blockNumber tx in
  if blockNumber >? safeBlockHeight then ret vars
  else if blockNumber <? fromBlock then
    console_warn_line (BeforeFromBlock (Raw.hash tx) blockNumber fromBlock) ;;
    ret vars
  else
    let maxBlockSeen := Z.max (snd vars) blockNumber in
    let fromAddress := toLowerCase (Raw.from tx) in
    match tbaLookup !! fromAddress with
    | Some tbaInfo =>
        ret (fst vars ++ [validTransaction provider tx tbaInfo], maxBlockSeen)
    | None => ret (fst vars, maxBlockSeen)
    end.

(** The opening of [processProviderTransactions]: the stored block is
    read, validated, and written back when validation changed it. The
    result is [currentStats.last_processed_block] as the rest of the
    function sees it. *)
Definition validatedLastProcessedBlock (h : Host) (provider : Provider)
    (safeBlockHeight : Z) : Js Z :=
  let* currentStats := getProviderCurrentStats h provider in
  let* validatedLastBlock :=
    validateAndFixBlockNumber (last_processed_block currentStats)
      safeBlockHeight (full_name provider) in
  if negb (validatedLastBlock =? last_processed_block currentStats) then
    updateLastProcessedBlock h provider validatedLastBlock ;;
    logBlockChange h provider (last_processed_block currentStats)
      validatedLastBlock corruption_fix ;;
    ret validatedLastBlock
  else ret validatedLastBlock.

(** The rest of [processProviderTransactions], from the computation of
    [fromBlock] on. *)
Definition reconcileFrom (h : Host) (provider : Provider)
    (tbaLookup : gmap string TbaInfo) (safeBlockHeight : Z)
    (last_processed : Z) : Js Reconciled :=
  let fromBlock := last_processed + 1 in
  if fromBlock >? safeBlockHeight then
    ret {| validTransactions := [];
           lastProcessedBlock := last_processed;
           reachedSafeHeight := false |}
  else
    let* fetched :=
      fetchUsdcTransactions h (wallet_address provider) fromBlock safeBlockHeight in
    match fetched with
    | None => throw (TypeError "Cannot read properties of undefined (reading 'sort')")
    | Some transactions =>
        let sortedTransactions := sortByBlockNumber transactions in
        let* vars :=
          forOf sortedTransactions
            (scanTransaction provider tbaLookup safeBlockHeight fromBlock)
            ([], fromBlock - 1) in
        let maxBlockSeen := snd vars in
        let* lastProcessedBlock :=
          if (length transactions =? 0)%nat then
            let conservativeAdvance :=
              Z.min (fromBlock + CONSERVATIVE_BLOCK_ADVANCE (config h))
                    safeBlockHeight in
            logBlockChange h provider last_processed conservativeAdvance
              conservative_advance ;;
            ret conservativeAdvance
          else
            let advance := Z.min maxBlockSeen safeBlockHeight in
            logBlockChange h provider last_processed advance normal_advance ;;
            ret advance in
        ret {| validTransactions := fst vars;
               lastProcessedBlock := lastProcessedBlock;
               reachedSafeHeight := lastProcessedBlock >=? safeBlockHeight |}
    end.

Definition processProviderTransactions (h : Host) (provider : Provider)
    (tbaLookup : gmap string TbaInfo) (safeBlockHeight : Z) : Js Reconciled :=
  let* last_processed := validatedLastProcessedBlock h provider safeBlockHeight in
  reconcileFrom h provider tbaLookup safeBlockHeight last_processed.

(** [INSERT INTO hypermap_transactions ... ON CONFLICT (tx_hash) DO NOTHING] *)
Definition insertTransactionRow (row : TransactionRow)
    (table : list TransactionRow) : list TransactionRow :=
  if existsb (fun r => String.eqb (tx_hash r) (tx_hash row)) table then table
  else (table ++ [row])%list.

Definition transactionRow (provider : Provider) (tx : Valid.t) : TransactionRow := {|
  tx_hash := Valid.txHash tx;
  block_number := Valid.blockNumber tx;
  tx_timestamp := Valid.timestamp tx;
  from_address := Valid.fromAddress tx;
  from_hypermap_name := Valid.fromHypermapName tx;
  to_address := Valid.toAddress tx;
  to_provider_id := Valid.toProviderId tx;
  provider_entry_name := full_name provider;
  value_usdc := Valid.valueUsdc tx;
  gas_used := Valid.gasUsed tx
|}.

Fixpoint insertEach (h : Host) (provider : Provider) (position : nat)
    (txs : list Valid.t) : Js unit :=
  match txs with
  | [] => ret tt
  | tx :: rest =>
      query h (InsertTransaction position)
        (with_transactions (insertTransactionRow (transactionRow provider tx))) ;;
      insertEach h provider (S position) rest
  end.

Definition updatePaymentRecords (h : Host) (provider : Provider)
    (validTransactions : list Valid.t) : Js unit :=
  transaction h Begin_updatePaymentRecords Commit_updatePaymentRecords
    (insertEach h provider 0 validTransactions).

(** [[...new Set(l)]] *)
Definition uniqueStrings (l : list string) : list string :=
  fold_left (fun seen x => if existsb (String.eqb x) seen then seen
                           else (seen ++ [x])%list) l [].

(** [SELECT COUNT(DISTINCT from_address) ... WHERE to_address = $1 AND
    from_address = ANY($2) AND block_number < $3] *)
Definition countExistingSenders (w : World) (wallet : string)
    (senders : list string) (before : Z) : Z :=
  Z.of_nat (length (uniqueStrings (map from_address (List.filter
    (fun r => String.eqb (to_address r) wallet
              && existsb (String.eqb (from_address r)) senders
              && (block_number r <? before))
    (hypermap_transactions w))))).

(** A [SELECT]: rejected, or a value read from the tables. *)
Definition select {A} (h : Host) (s : Statement) (read : World -> A) : Js A :=
  query h s id ;; let* w := get in ret (read w).

(** SQL [COALESCE] and [GREATEST] on nullable columns. *)
Definition coalesce (a b : option Z) : option Z :=
  match a with Some _ => a | None => b end.

Definition greatest (a b : option Z) : option Z :=
  match a, b with
  | Some x, Some y => Some (Z.max x y)
  | Some x, None => Some x
  | None, _ => b
  end.

(** The upsert of [updateLeaderboardStatsIncremental]. *)
Definition upsertLeaderboardStats (provider : Provider)
    (newTotalUsdc newTxCount newUniqueSenderCount : Z) (firstTx lastTx : option Z)
    (block : Z) (hash : StateHash) (table : gmap string LeaderboardRow)
    : gmap string LeaderboardRow :=
  match table !! namehash provider with
  | None =>
      <[ namehash provider :=
         {| row_entry_name := full_name provider;
            row_provider_id := provider_id provider;
            row_wallet_address := wallet_address provider;
            row_stats := {|
              last_processed_block := block;
              total_usdc_received := newTotalUsdc;
              transaction_count := newTxCount;
              unique_sender_count := newUniqueSenderCount;
              first_transaction_at := firstTx;
              last_transaction_at := lastTx;
              last_transaction_block := block;
              processing_checkpoint := 0;
              state_validation_hash := Some hash |} |} ]> table
  | Some row =>
      let old := row_stats row in
      <[ namehash provider :=
         {| row_entry_name := row_entry_name row;
            row_provider_id := row_provider_id row;
            row_wallet_address := row_wallet_address row;
            row_stats := {|
              last_processed_block := block;
              total_usdc_received := total_usdc_received old + newTotalUsdc;
              transaction_count := transaction_count old + newTxCount;
              unique_sender_count := newUniqueSenderCount;
              first_transaction_at := coalesce (first_transaction_at old) firstTx;
              last_transaction_at := greatest (last_transaction_at old) lastTx;
              last_transaction_block := block;
              processing_checkpoint :=
                Z.max (processing_checkpoint old) (block - 1000);
              state_validation_hash := Some hash |} |} ]> table
  end.

Definition sumValueUsdc (txs : list Valid.t) : Z :=
  fold_left (fun sum tx => sum + Valid.valueUsdc tx) txs 0.

Definition updateLeaderboardStatsIncremental (h : Host) (provider : Provider)
    (newTransactions : list Valid.t) (lastProcessedBlock : Z) : Js unit :=
  transaction h Begin_updateLeaderboardStats Commit_updateLeaderboardStats
    (let* currentStats := getProviderCurrentStats h provider in
     let newTotalUsdc := sumValueUsdc newTransactions in
     let newTxCount := Z.of_nat (length newTransactions) in
     let uniqueNewSenders :=
       uniqueStrings (map (fun tx => toLowerCase (Valid.fromAddress tx)) newTransactions) in
     let* newUniqueSenderCount :=
       match uniqueNewSenders, newTransactions with
       | _ :: _, first :: _ =>
           let* existingCount :=
             select h SelectExistingSenders (fun w =>
               countExistingSenders w (wallet_address provider) uniqueNewSenders
                 (Valid.blockNumber first)) in
           let actuallyNewSenders :=
             Z.of_nat (length uniqueNewSenders) - existingCount in
           ret (unique_sender_count currentStats + actuallyNewSenders)
       | _, _ => ret (unique_sender_count currentStats)
       end in
     let firstTx :=
       coalesce (first_transaction_at currentStats)
                (Valid.timestamp <$> head newTransactions) in
     let lastTx :=
       coalesce (Valid.timestamp <$> last newTransactions)
                (last_transaction_at currentStats) in
     query h UpsertLeaderboardStats
       (with_leaderboard (upsertLeaderboardStats provider newTotalUsdc newTxCount
          newUniqueSenderCount firstTx lastTx lastProcessedBlock
          (HashOfStats lastProcessedBlock newTotalUsdc
             (transaction_count currentStats + newTxCount))))).

(** ** The loop over the providers in [runPaymentTracker] *)

(** [safeBlockHeight], computed once per run from the height of the
    chain. *)
Definition safeBlockHeightOf (h : Host) (currentBlockHeight : Z) : Z :=
  currentBlockHeight - BLOCK_SAFETY_BUFFER (config h).

(** The bindings of [runPaymentTracker] that the loop body can see. *)
Definition runPaymentTracker_locals : list string :=
  [ "indexerDb"; "paymentsDb"; "gridBetaHyprHash"; "providers"; "tbaLookup";
    "currentBlockHeight"; "safeBlockHeight"; "provider" ].

(** The bindings that the [try] block can see once
    [processProviderTransactions] has returned. *)
Definition applyReconciled_locals : list string :=
  ([ "validTransactions"; "lastProcessedBlock"; "reachedSafeHeight" ]
   ++ runPaymentTracker_locals)%list.

(** The two calls that write a batch, one after the other. *)
Definition writeBatch (h : Host) (provider : Provider)
    (transactions : list Valid.t) (block : Z) : Js unit :=
  updatePaymentRecords h provider transactions ;;
  updateLeaderboardStatsIncremental h provider transactions block.

(** What the loop does with the result of [processProviderTransactions]:
    the writes of the branch, then its [console.log] lines, with the
    names they evaluate, in order. *)
Definition applyReconciled (h : Host) (provider : Provider) (r : Reconciled)
    : Js unit :=
  if (0 <? length (validTransactions r))%nat then
    writeBatch h provider (validTransactions r) (lastProcessedBlock r) ;;
    resolveAll h applyReconciled_locals
      [ "console"; "validTransactions"; "provider";
        "console"; "currentStats"; "lastProcessedBlock" ]
  else if reachedSafeHeight r then
    updateLastProcessedBlock h provider (lastProcessedBlock r) ;;
    resolveAll h applyReconciled_locals
      [ "console"; "provider"; "console"; "currentStats"; "lastProcessedBlock" ]
  else
    resolveAll h applyReconciled_locals [ "console"; "provider"; "lastProcessedBlock" ].

(** The call of [processProviderTransactions] and what follows it in the
    [try] block. *)
Definition reconcileAndApply (h : Host) (provider : Provider)
    (tbaLookup : gmap string TbaInfo) (safeBlockHeight : Z) : Js unit :=
  let* r := processProviderTransactions h provider tbaLookup safeBlockHeight in
  applyReconciled h provider r.

(** The identifiers evaluated by the three [console.log] lines that open
    the [try] block, in order. *)
Definition loopPreamble : list string :=
  [ "console"; "provider"; "console"; "provider"; "console"; "currentStats" ].

(** One turn of the loop: the [try] block and its [catch]. *)
Definition providerIteration (h : Host) (provider : Provider)
    (tbaLookup : gmap string TbaInfo) (safeBlockHeight : Z) : Js unit :=
  tryCatch
    (resolveAll h runPaymentTracker_locals loopPreamble ;;
     reconcileAndApply h provider tbaLookup safeBlockHeight)
    (fun error =>
       query h UpdateLastError
         (with_last_error (Some (full_name provider, error)))).

Definition providerLoop (h : Host) (providers : list Provider)
    (tbaLookup : gmap string TbaInfo) (safeBlockHeight : Z) : Js unit :=
  forOf providers
    (fun _ provider => providerIteration h provider tbaLookup safeBlockHeight) tt.

(** ** Vocabulary of the properties *)

(** The watermark of a provider, as the tracker reads it. *)
Definition watermark (w : World) (provider : Provider) : Z :=
  last_processed_block (currentStatsOf w provider).

(** The block that [validateAndFixBlockNumber] returns for a stored block
    under a safe height. *)
Definition validatedBlock (stored safeHeight : Z) : Z :=
  if stored >? safeHeight + 1000 then
    if stored >? 100000000 then stored / 10 else safeHeight
  else stored.

(** The conditions under which the opening of
    [processProviderTransactions] gets through: the statistics can be
    read and, when the stored block has to be repaired, the repaired
    block passes the check of [updateLastProcessedBlock], [require] is
    bound and the write is accepted. *)
Definition validationCompletes (h : Host) (w : World) (provider : Provider)
    (safeHeight : Z) : Prop :=
  rejects h SelectCurrentStats = false
  /\ (watermark w provider <= safeHeight + 1000
      \/ (validatedBlock (watermark w provider) safeHeight <= 100000000
          /\ binds_require h = true
          /\ rejects h UpsertLastProcessedBlock = false)).

(** The aggregate statistics of a provider. *)
Definition aggregates (w : World) (provider : Provider)
    : Z * Z * Z * option Z * option Z :=
  let s := currentStatsOf w provider in
  (total_usdc_received s, transaction_count s, unique_sender_count s,
   first_transaction_at s, last_transaction_at s).

(** Two worlds with the same leaderboard and the same ledger. *)
Definition sameBooks (w w' : World) : Prop :=
  provider_leaderboard w' = provider_leaderboard w
  /\ hypermap_transactions w' = hypermap_transactions w.

(** A block number inside the fetched range. *)
Definition inRange (fromBlock safeHeight : Z) (tx : Raw.t) : bool :=
  (fromBlock <=? Raw.blockNumber tx) && (Raw.blockNumber tx <=? safeHeight).

(** The highest block among transactions, starting from [base]. *)
Definition maxBlockOver (base : Z) (txs : list Raw.t) : Z :=
  fold_left (fun m tx => Z.max m (Raw.blockNumber tx)) txs base.

(** [maxBlockSeen] in the words of the specification: the highest block
    among all fetched transactions of the range, allow-listed or not,
    counted from the old watermark. *)
Definition maxBlockSeenOf (fromBlock safeHeight : Z) (fetched : list Raw.t) : Z :=
  maxBlockOver (fromBlock - 1) (List.filter (inRange fromBlock safeHeight) fetched).

(** The transactions whose sender resolves in the allow-list. *)
Definition matched (provider : Provider) (allowList : gmap string TbaInfo)
    (txs : list Raw.t) : list Valid.t :=
  omap (fun tx => validTransaction provider tx
                    <$> allowList !! toLowerCase (Raw.from tx)) txs.

(** The new transactions in the words of the specification: sorted by
    block, restricted to the range, then matched against the allow-list. *)
Definition newTransactionsOf (provider : Provider) (allowList : gmap string TbaInfo)
    (fromBlock safeHeight : Z) (fetched : list Raw.t) : list Valid.t :=
  matched provider allowList
    (List.filter (inRange fromBlock safeHeight) (sortByBlockNumber fetched)).

(** The warnings of one scan: one per transaction below [fromBlock] that
    is not also above the safe height. *)
Definition scanWarnings (fromBlock safeHeight : Z) (txs : list Raw.t) : list Warning :=
  omap (fun tx =>
          if Raw.blockNumber tx >? safeHeight then None
          else if Raw.blockNumber tx <? fromBlock then
            Some (BeforeFromBlock (Raw.hash tx) (Raw.blockNumber tx) fromBlock)
          else None) txs.

(** The warnings for the transactions below [fromBlock], and for no
    other. *)
Definition beforeFromBlockWarnings (fromBlock : Z) (txs : list Raw.t) : list Warning :=
  map (fun tx => BeforeFromBlock (Raw.hash tx) (Raw.blockNumber tx) fromBlock)
      (List.filter (fun tx => Raw.blockNumber tx <? fromBlock) txs).

(** Ascending block numbers. *)
Definition blockLe (x y : Raw.t) : Prop := Raw.blockNumber x <= Raw.blockNumber y.

(** The repair in the words of the specification: division when the
    magnitude check fires, else the last block bearing a transaction of
    the provider, else zero. *)
Definition validateAndRepair_spec (stored observedHeight toleranceMargin : Z)
    (lastTransactionBlockOnRecord : option Z) : Z :=
  if stored >? observedHeight + toleranceMargin then
    if stored >? 100000000 then stored / 10
    else match lastTransactionBlockOnRecord with
         | Some b => b
         | None => 0
         end
  else stored.

(** [SELECT MAX(block_number) FROM hypermap_transactions WHERE to_address =
    wallet], as the migration script computes the fallback. *)
Definition lastTransactionBlockOnRecord (w : World) (provider : Provider) : option Z :=
  fold_left (fun best r =>
               if String.eqb (to_address r) (wallet_address provider)
               then greatest best (Some (block_number r)) else best)
    (hypermap_transactions w) None.

(** All rows of a batch inserted. *)
Definition insertAll (provider : Provider) (txs : list Valid.t)
    (table : list TransactionRow) : list TransactionRow :=
  fold_left (fun t tx => insertTransactionRow (transactionRow provider tx) t) txs table.

(** [n] runs of the reconcile-and-apply pair against one safe height;
    the world after them. *)
Fixpoint runs (n : nat) (h : Host) (provider : Provider)
    (tbaLookup : gmap string TbaInfo) (safeBlockHeight : Z) (w : World) : World :=
  match n with
  | O => w
  | S n' =>
      runs n' h provider tbaLookup safeBlockHeight
        (snd (reconcileAndApply h provider tbaLookup safeBlockHeight w))
  end.

(** ** An explorer over a fixed chain, and sample data *)

(** The explorer answering from a fixed list of transfers: those of the
    block range that involve the wallet, or "No transactions found". *)
Definition explorerOver (chain : list Raw.t) (wallet : string)
    (fromBlock endBlock : Z) (attempt : nat) : ApiReply :=
  match List.filter
          (fun tx => inRange fromBlock endBlock tx &&
             (String.eqb (toLowerCase (Raw.to tx)) (toLowerCase wallet)
              || String.eqb (toLowerCase (Raw.from tx)) (toLowerCase wallet)))
          chain with
  | [] => ApiData "0" "No transactions found" (inl [])
  | rows => ApiData "1" "OK" (inl rows)
  end.


(** The explorer answering the same rows whatever the range. *)
Definition explorerAnswering (rows : list Raw.t) (wallet : string)
    (fromBlock endBlock : Z) (attempt : nat) : ApiReply :=
  ApiData "1" "OK" (inl rows).

Definition hostOver (chain : list Raw.t) : Host := {|
  config := defaultConfig;
  etherscan := explorerOver chain;
  rejects := fun _ => false;
  binds_require := true
|}.

Definition hostAnswering (rows : list Raw.t) : Host := {|
  config := defaultConfig;
  etherscan := explorerAnswering rows;
  rejects := fun _ => false;
  binds_require := true
|}.

(** The host as the container runs the file: an ES module under Node,
    where [require] is not bound. *)
Definition nodeHostOver (chain : list Raw.t) : Host := {|
  config := defaultConfig;
  etherscan := explorerOver chain;
  rejects := fun _ => false;
  binds_require := false
|}.

(** A host whose database rejects the statistics upsert. *)
Definition hostRejectingStats (chain : list Raw.t) : Host := {|
  config := defaultConfig;
  etherscan := explorerOver chain;
  rejects := fun s => match s with UpsertLeaderboardStats => true | _ => false end;
  binds_require := true
|}.

Definition emptyWorld : World := {|
  provider_leaderboard := ∅;
  hypermap_transactions := [];
  block_processing_log := [];
  tracker_last_error := None;
  console_warn := []
|}.

Definition abc : Provider := {|
  namehash := "0xnode";
  full_name := "weather.grid-beta.hypr";
  provider_id := "weather";
  wallet_address := "0xABC"
|}.

(** The world in which [abc] has the given watermark and nothing else. *)
Definition worldAt (block : Z) : World :=
  with_leaderboard
    (upsertLastProcessedBlock abc block (HashOfBlock block (namehash abc)))
    emptyWorld.

(** The world in which [abc] has the given watermark and one recorded
    transaction, at block 42. *)
Definition worldWithRecord (block : Z) : World :=
  with_transactions
    (fun _ => [ {| tx_hash := "0xold"; block_number := 42;
                   tx_timestamp := 1700000042000; from_address := "0xa11ce";
                   from_hypermap_name := "alice.os"; to_address := "0xABC";
                   to_provider_id := "weather";
                   provider_entry_name := "weather.grid-beta.hypr";
                   value_usdc := 1000000; gas_used := 21000 |} ])
    (worldAt block).

Definition transfer (hash : string) (block : Z) (sender : string) : Raw.t :=
  Raw.mk hash block (1700000000 + block) sender "0xabc" 2500000 21000.

Definition members : gmap string TbaInfo :=
  <[ "0xa11ce" := {| fullName := "alice.os"; tba_namehash := "0x01" |} ]>
  (<[ "0xb0b" := {| fullName := "bob.os"; tba_namehash := "0x02" |} ]> ∅).

(** Transfers at blocks 10, 50 and 90; the sender of the second is not a
    member. *)
Definition chain3 : list Raw.t :=
  [ transfer "0xt1" 10 "0xA11CE"; transfer "0xt2" 50 "0xeve";
    transfer "0xt3" 90 "0xb0b" ].

(** A transfer below a range that starts at block 11, and one above a
    range that ends at block 100. *)
Definition staleTransfer : Raw.t := transfer "0xstale" 5 "0xa11ce".
Definition lateTransfer : Raw.t := transfer "0xlate" 200 "0xa11ce".

(** What reconciling [chain3] from block 0 up to block 100 returns. *)
Definition reconciled3 : Reconciled := {|
  validTransactions := newTransactionsOf abc members 1 100 chain3;
  lastProcessedBlock := 90;
  reachedSafeHeight := false
|}.


(** ** Vocabulary and sample data of the further properties *)

(** Ascending block numbers among returned transactions. *)
Definition validBlockLe (x y : Valid.t) : Prop :=
  Valid.blockNumber x <= Valid.blockNumber y.

(** An explorer whose first attempt fails and whose later attempts answer
    from a fixed chain. *)
Definition flakyExplorerOver (chain : list Raw.t) (wallet : string)
    (fromBlock endBlock : Z) (attempt : nat) : ApiReply :=
  match attempt with
  | 1%nat => ApiUnreachable "socket hang up"
  | _ => explorerOver chain wallet fromBlock endBlock attempt
  end.

Definition flakyHostOver (chain : list Raw.t) : Host := {|
  config := defaultConfig;
  etherscan := flakyExplorerOver chain;
  rejects := fun _ => false;
  binds_require := true
|}.

(** An explorer that answers every attempt with a rate-limit notice. *)
Definition busyExplorer (wallet : string) (fromBlock endBlock : Z)
    (attempt : nat) : ApiReply :=
  ApiData "0" "NOTOK" (inr "Max rate limit reached").

Definition busyHost : Host := {|
  config := defaultConfig;
  etherscan := busyExplorer;
  rejects := fun _ => false;
  binds_require := true
|}.


(** The distinct senders of a batch, in lower case:
    [uniqueNewSenders] of [updateLeaderboardStatsIncremental]. *)
Definition batchSenders (txs : list Valid.t) : list string :=
  uniqueStrings (map (fun tx => toLowerCase (Valid.fromAddress tx)) txs).

(** The rows of the leaderboard other than the provider's are the same in
    both worlds. *)
Definition othersUntouched (provider : Provider) (w w' : World) : Prop :=
  forall key, key <> namehash provider ->
    provider_leaderboard w' !! key = provider_leaderboard w !! key.

(** The ledger without the rows whose sender is not written in lower
    case. *)
Definition lowerCaseSenderRows (table : list TransactionRow) : list TransactionRow :=
  List.filter (fun r => String.eqb (toLowerCase (from_address r)) (from_address r)) table.


(** The row that [processProviderTransactions] sends to the block
    processing log when it has decided how far to advance. *)
Definition advanceLogRow (provider : Provider) (old : Z) (fetched : list Raw.t)
    (new : Z) : BlockLogRow := {|
  log_namehash := namehash provider;
  log_entry_name := full_name provider;
  old_block_number := old;
  new_block_number := new;
  change_type := match fetched with
                 | [] => conservative_advance
                 | _ :: _ => normal_advance
                 end
|}.


(** ** The registry, the chain height and the run as a whole

    The rest of [runPaymentTracker]: the queries on the indexer database,
    the height of the chain, and the [tracker_state] row. At this level
    the [tracker_state] row, which the schema creates, is kept whole, in
    [tracker_state] below; the [tracker_last_error] component of the
    payments world is not used. A [SELECT] without [ORDER BY] answers its
    rows in the order of the table. The two pools close without effect. *)

(** A row of [entries]. *)
Module Entry.
Record t : Type := mk {
  namehash : string;
  label : string;
  parent_hash : string;
  full_name : string;
  tba : option string
}.
End Entry.

(** A row of [notes]. *)
Module Note.
Record t : Type := mk {
  entry_hash : string;
  label : string;
  interpreted_data : option string
}.
End Note.

Record IndexerDb : Type := {
  entries : list Entry.t;
  notes : list Note.t
}.

(** The queries sent to the indexer database, by place in the source. *)
Inductive IndexerQuery : Type :=
| SelectHypr
| SelectGridBeta
| SelectProviderEntries
| SelectTbas.

(** The statements on [tracker_state] outside the loop. *)
Inductive TrackerStatement : Type :=
| UpdateRunStarted
| UpdateRunSucceeded
| UpdateRunFailed.

(** What [data.result] holds in an answer to [eth_blockNumber]: nothing
    (absent or empty), a text that [parseInt(_, 16)] reads as [n], or a
    text that it reads as [NaN]. *)
Inductive HeightResult : Type :=
| NoResult
| HexText (n : Z)
| OtherText.

(** An answer to [eth_blockNumber]: the decoded body, or a failed
    request. An absent message is the empty text. *)
Inductive HeightReply : Type :=
| HeightData (result : HeightResult) (message : string)
| HeightUnreachable (reason : string).

(** What [runPaymentTracker] can throw. *)
Inductive RunError : Type :=
| PlainError (message : string)
| IndexerRejected (q : IndexerQuery)
| TrackerRejected (s : TrackerStatement)
| ThrownInLoop (e : JsError).

(** The text of [last_error]. *)
Inductive LastError : Type :=
| ProviderFailed (provider_full_name : string) (e : JsError)
| RunFailed (e : RunError).

(** The row of [tracker_state]. *)
Record TrackerState : Type := {
  total_runs : Z;
  successful_runs : Z;
  failed_runs : Z;
  last_error : option LastError
}.

(** What a run reads besides the host: the indexer database, the queries
    and statements that are rejected, and the answers to
    [eth_blockNumber], by attempt. *)
Record Surroundings : Type := {
  indexerDb : IndexerDb;
  indexer_rejects : IndexerQuery -> bool;
  tracker_rejects : TrackerStatement -> bool;
  blockNumberReplies : nat -> HeightReply
}.

(** The payments database with its [tracker_state] row. *)
Record Deployment : Type := {
  paymentsDb : World;
  tracker_state : TrackerState
}.

Inductive Outcome (A : Type) : Type :=
| Done (a : A)
| Failed (e : RunError).
Arguments Done {A} a.
Arguments Failed {A} e.

Definition zeroHash : string :=
  "0x0000000000000000000000000000000000000000000000000000000000000000".

Definition findGridBetaHyprNamehash (s : Surroundings) : Outcome string :=
  if indexer_rejects s SelectHypr then Failed (IndexerRejected SelectHypr)
  else
    match List.filter
            (fun e => String.eqb (Entry.label e) "hypr"
                      && String.eqb (Entry.parent_hash e) zeroHash)
            (entries (indexerDb s)) with
    | [] => Failed (PlainError "hypr namespace not found")
    | hypr :: _ =>
        let hyprHash := Entry.namehash hypr in
        if indexer_rejects s SelectGridBeta then Failed (IndexerRejected SelectGridBeta)
        else
          match List.filter
                  (fun e => String.eqb (Entry.label e) "grid-beta"
                            && String.eqb (Entry.parent_hash e) hyprHash)
                  (entries (indexerDb s)) with
          | [] => Failed (PlainError "grid-beta.hypr namespace not found")
          | gridBeta :: _ => Done (Entry.namehash gridBeta)
          end
    end.

(** The data of the notes of an entry under a label, [NULL]s left out:
    what a [LEFT JOIN] on that label keeps once the [WHERE] has asked
    for [interpreted_data IS NOT NULL]. *)
Definition noteData (db : IndexerDb) (entry_hash label : string) : list string :=
  omap (fun n => if String.eqb (Note.entry_hash n) entry_hash
                    && String.eqb (Note.label n) label
                 then Note.interpreted_data n else None)
       (notes db).

(** The rows of [fetchProviderEntries], with the columns that the tracker
    reads. *)
Definition fetchProviderEntries (s : Surroundings) (gridBetaHyprHash : string)
    : Outcome (list Provider) :=
  if indexer_rejects s SelectProviderEntries
  then Failed (IndexerRejected SelectProviderEntries)
  else
    Done (flat_map
      (fun e =>
         if String.eqb (Entry.parent_hash e) gridBetaHyprHash then
           flat_map
             (fun wallet =>
                map (fun pid => {| namehash := Entry.namehash e;
                                   full_name := Entry.full_name e;
                                   provider_id := pid;
                                   wallet_address := wallet |})
                    (noteData (indexerDb s) (Entry.namehash e) "~provider-id"))
             (noteData (indexerDb s) (Entry.namehash e) "~wallet")
         else [])
      (entries (indexerDb s))).

(** The body of the loop of [buildTbaLookup] on a row of [entries]:
    [tbaMap.set] when the row has a [tba], which is what the [WHERE] of
    the query asks for. *)
Definition tbaMapSet (tbaMap : gmap string TbaInfo) (row : Entry.t)
    : gmap string TbaInfo :=
  match Entry.tba row with
  | Some tba =>
      <[ toLowerCase tba := {| fullName := Entry.full_name row;
                               tba_namehash := Entry.namehash row |} ]> tbaMap
  | None => tbaMap
  end.

(** The loop of [buildTbaLookup], a later row replacing an earlier one
    under the same key. *)
Definition tbaMapOf (rows : list Entry.t) : gmap string TbaInfo :=
  fold_left tbaMapSet rows ∅.

Definition buildTbaLookup (s : Surroundings) : Outcome (gmap string TbaInfo) :=
  if indexer_rejects s SelectTbas then Failed (IndexerRejected SelectTbas)
  else Done (tbaMapOf (entries (indexerDb s))).


(** One pass of the body of the retry loop of [getCurrentBlockHeight];
    [None] is [NaN]. *)
Definition heightAttempt (reply : HeightReply) : Outcome (option Z) :=
  match reply with
  | HeightUnreachable reason => Failed (PlainError reason)
  | HeightData (HexText n) _ => Done (Some n)
  | HeightData OtherText _ => Done None
  | HeightData NoResult message =>
      Failed (PlainError (if String.eqb message EmptyString
                          then "Failed to get block height" else message))
  end.

(** The retry loop; it falls off its end, returning [undefined], only
    when [MAX_RETRIES] is zero. [None] is a height that is not a number. *)
Fixpoint heightRetry (replies : nat -> HeightReply) (maxRetries attempt remaining : nat)
    : Outcome (option Z) :=
  match remaining with
  | O => Done None
  | S remaining' =>
      match heightAttempt (replies attempt) with
      | Done height => Done height
      | Failed e =>
          if (attempt =? maxRetries)%nat then Failed e
          else heightRetry replies maxRetries (S attempt) remaining'
      end
  end.

Definition getCurrentBlockHeight (h : Host) (s : Surroundings) : Outcome (option Z) :=
  let n := MAX_RETRIES (config h) in heightRetry (blockNumberReplies s) n 1 n.

(** Computations of [runPaymentTracker]: they return or throw, over the
    payments database and its [tracker_state] row. *)
Definition Run (A : Type) : Type := Deployment -> Outcome A * Deployment.

Definition andThen {A B} (m : Run A) (k : A -> Run B) : Run B :=
  fun d => match m d with
           | (Done a, d') => k a d'
           | (Failed e, d') => (Failed e, d')
           end.

(** [await] of a call that does not write. *)
Definition await {A} (o : Outcome A) : Run A := fun d => (o, d).

Notation "'let+' x ':=' m 'in' k" := (andThen m (fun x => k))
  (at level 10, x name, m at level 100, k at level 200).

Definition with_tracker_state (f : TrackerState -> TrackerState) (d : Deployment)
    : Deployment := {|
  paymentsDb := paymentsDb d;
  tracker_state := f (tracker_state d)
|}.

Definition with_paymentsDb (w : World) (d : Deployment) : Deployment := {|
  paymentsDb := w;
  tracker_state := tracker_state d
|}.

(** [await paymentsDb.query(`UPDATE tracker_state ...`)] outside the loop. *)
Definition trackerQuery (s : Surroundings) (t : TrackerStatement)
    (effect : TrackerState -> TrackerState) : Run unit :=
  fun d => if tracker_rejects s t then (Failed (TrackerRejected t), d)
           else (Done tt, with_tracker_state effect d).

Definition runStarted (t : TrackerState) : TrackerState := {|
  total_runs := total_runs t + 1;
  successful_runs := successful_runs t;
  failed_runs := failed_runs t;
  last_error := last_error t
|}.

Definition runSucceeded (t : TrackerState) : TrackerState := {|
  total_runs := total_runs t;
  successful_runs := successful_runs t + 1;
  failed_runs := failed_runs t;
  last_error := None
|}.

Definition runFailed (error : RunError) (t : TrackerState) : TrackerState := {|
  total_runs := total_runs t;
  successful_runs := successful_runs t;
  failed_runs := failed_runs t + 1;
  last_error := Some (RunFailed error)
|}.

Definition providerFailed (provider : Provider) (error : JsError) (t : TrackerState)
    : TrackerState := {|
  total_runs := total_runs t;
  successful_runs := successful_runs t;
  failed_runs := failed_runs t;
  last_error := Some (ProviderFailed (full_name provider) error)
|}.

Section Run.

(** What the [try] block of the loop does from the call of
    [processProviderTransactions] on when [safeBlockHeight] is [NaN]:
    the explorer is then asked for a range without an end, which the
    oracle of the host does not answer. It is left open. *)
Variable withoutHeight : Provider -> gmap string TbaInfo -> Js unit.

(** One turn of the loop of [runPaymentTracker], with the [tracker_state]
    row: the [try] block on the payments database, and the [catch], whose
    statement is the [UpdateLastError] of the host. *)
Definition providerTurn (h : Host) (provider : Provider)
    (tbaLookup : gmap string TbaInfo) (safeBlockHeight : option Z) : Run unit :=
  fun d =>
    match (resolveAll h runPaymentTracker_locals loopPreamble ;;
           match safeBlockHeight with
           | Some safe => reconcileAndApply h provider tbaLookup safe
           | None => withoutHeight provider tbaLookup
           end) (paymentsDb d) with
    | (Returned _, w') => (Done tt, with_paymentsDb w' d)
    | (Thrown error, w') =>
        if rejects h UpdateLastError
        then (Failed (ThrownInLoop (QueryRejected UpdateLastError)), with_paymentsDb w' d)
        else (Done tt, with_tracker_state (providerFailed provider error)
                         (with_paymentsDb w' d))
    end.

Fixpoint providerTurns (h : Host) (providers : list Provider)
    (tbaLookup : gmap string TbaInfo) (safeBlockHeight : option Z) : Run unit :=
  match providers with
  | [] => await (Done tt)
  | provider :: rest =>
      let+ _ := providerTurn h provider tbaLookup safeBlockHeight in
      providerTurns h rest tbaLookup safeBlockHeight
  end.

(** The outer [try] block of [runPaymentTracker]. *)
Definition runAttempt (h : Host) (s : Surroundings) : Run unit :=
  let+ _ := trackerQuery s UpdateRunStarted runStarted in
  let+ gridBetaHyprHash := await (findGridBetaHyprNamehash s) in
  let+ providers := await (fetchProviderEntries s gridBetaHyprHash) in
  let+ tbaLookup := await (buildTbaLookup s) in
  let+ currentBlockHeight := await (getCurrentBlockHeight h s) in
  let safeBlockHeight := safeBlockHeightOf h <$> currentBlockHeight in
  let+ _ := providerTurns h providers tbaLookup safeBlockHeight in
  trackerQuery s UpdateRunSucceeded runSucceeded.

(** [runPaymentTracker]: the [try] block and its [catch], which counts
    the failure and throws the error again, or throws the rejection of
    its own statement. *)
Definition runPaymentTracker (h : Host) (s : Surroundings) : Run unit :=
  fun d =>
    match runAttempt h s d with
    | (Done a, d') => (Done a, d')
    | (Failed error, d') =>
        match trackerQuery s UpdateRunFailed (runFailed error) d' with
        | (Done _, d'') => (Failed error, d'')
        | (Failed error', d'') => (Failed error', d'')
        end
    end.

End Run.

(** *** A registry *)

Definition registry : IndexerDb := {|
  entries :=
    [ Entry.mk "0xhypr" "hypr" zeroHash "hypr" None;
      Entry.mk "0xgb" "grid-beta" "0xhypr" "grid-beta.hypr" None;
      Entry.mk "0xnode" "weather" "0xgb" "weather.grid-beta.hypr" (Some "0x7BA");
      Entry.mk "0xidle" "idle" "0xgb" "idle.grid-beta.hypr" None;
      Entry.mk "0x01" "alice" "0xos" "alice.os" (Some "0xa11cE");
      Entry.mk "0x02" "bob" "0xos" "bob.os" (Some "0xb0b") ];
  notes :=
    [ Note.mk "0xnode" "~wallet" (Some "0xABC");
      Note.mk "0xnode" "~provider-id" (Some "weather");
      Note.mk "0xidle" "~wallet" (Some "0xDEF");
      Note.mk "0xidle" "~provider-id" None ]
|}.

(** A registry with two [hypr] entries under the zero hash, the
    namespace hanging under the second. *)
Definition shadowedRegistry : IndexerDb := {|
  entries :=
    [ Entry.mk "0xh1" "hypr" zeroHash "hypr" None;
      Entry.mk "0xh2" "hypr" zeroHash "hypr" None;
      Entry.mk "0xgb" "grid-beta" "0xh2" "grid-beta.hypr" None ];
  notes := []
|}.

(** Surroundings that reject nothing, over a registry, with a chain at
    the given height. *)
Definition surroundingsOf (db : IndexerDb) (height : Z) : Surroundings := {|
  indexerDb := db;
  indexer_rejects := fun _ => false;
  tracker_rejects := fun _ => false;
  blockNumberReplies := fun _ => HeightData (HexText height) "OK"
|}.

(** Surroundings whose explorer fails once and then answers with a text
    that is no number. *)
Definition rateLimitedSurroundings : Surroundings := {|
  indexerDb := registry;
  indexer_rejects := fun _ => false;
  tracker_rejects := fun _ => false;
  blockNumberReplies := fun attempt =>
    match attempt with
    | 1%nat => HeightUnreachable "socket hang up"
    | _ => HeightData OtherText "NOTOK"
    end
|}.

Definition freshTrackerState : TrackerState := {|
  total_runs := 0;
  successful_runs := 0;
  failed_runs := 0;
  last_error := None
|}.

Definition deploymentOf (w : World) : Deployment := {|
  paymentsDb := w;
  tracker_state := freshTrackerState
|}.

(** * Properties *)

(** ** How the small steps run *)

Lemma warned_nil w : warned [] w = w.
Proof. destruct w; unfold warned; simpl. by rewrite app_nil_r. Qed.

Lemma warned_app l1 l2 w : warned l2 (warned l1 w) = warned (l1 ++ l2) w.
Proof. unfold warned; simpl. by rewrite app_assoc. Qed.

Lemma query_run h s f w :
  query h s f w =
    if rejects h s then (Thrown (QueryRejected s), w) else (Returned tt, f w).
Proof. unfold query. by destruct (rejects h s). Qed.

Lemma sameBooks_refl w : sameBooks w w.
Proof. by split. Qed.

Lemma sameBooks_trans w1 w2 w3 : sameBooks w1 w2 -> sameBooks w2 w3 -> sameBooks w1 w3.
Proof. intros [A B] [C D]; split; congruence. Qed.

Lemma sameBooks_stats w w' p : sameBooks w w' -> currentStatsOf w' p = currentStatsOf w p.
Proof. intros [A _]. unfold currentStatsOf. by rewrite A. Qed.

Lemma sameBooks_watermark w w' p : sameBooks w w' -> watermark w' p = watermark w p.
Proof. intros S. unfold watermark. by rewrite (sameBooks_stats _ _ _ S). Qed.

Lemma sameBooks_warned l w : sameBooks w (warned l w).
Proof. by split. Qed.

(** [logBlockChange] always returns, and touches the log only. *)
Lemma logBlockChange_run h p o n c w :
  exists w', logBlockChange h p o n c w = (Returned tt, w')
    /\ sameBooks w w'
    /\ tracker_last_error w' = tracker_last_error w
    /\ console_warn w' = console_warn w.
Proof.
  unfold logBlockChange, tryCatch. rewrite query_run.
  destruct (rejects h InsertBlockLog); eexists; (split; [reflexivity|]);
    repeat split.
Qed.

Lemma getProviderCurrentStats_run h p w :
  getProviderCurrentStats h p w =
    if rejects h SelectCurrentStats then (Thrown (QueryRejected SelectCurrentStats), w)
    else (Returned (currentStatsOf w p), w).
Proof.
  unfold getProviderCurrentStats, bind. rewrite query_run.
  by destruct (rejects h SelectCurrentStats).
Qed.

Lemma validateAndFixBlockNumber_within block height name w :
  block <= height + 1000 ->
  validateAndFixBlockNumber block height name w = (Returned block, w).
Proof.
  intros H. unfold validateAndFixBlockNumber.
  destruct (Z.gtb_spec block (height + 1000)); [lia | reflexivity].
Qed.

Lemma validateAndFixBlockNumber_beyond block height name w :
  block > height + 1000 ->
  validateAndFixBlockNumber block height name w =
    (Returned (if block >? 100000000 then block / 10 else height),
     warned [CorruptionDetected name block height] w).
Proof.
  intros H. unfold validateAndFixBlockNumber.
  destruct (Z.gtb_spec block (height + 1000)); [| lia].
  unfold bind, console_warn_line, modify.
  by destruct (block >? 100000000).
Qed.

Lemma watermark_upsertLastProcessedBlock p b hash w :
  watermark (with_leaderboard (upsertLastProcessedBlock p b hash) w) p = b.
Proof.
  unfold watermark, currentStatsOf, with_leaderboard, upsertLastProcessedBlock; simpl.
  destruct (provider_leaderboard w !! namehash p); by rewrite lookup_insert_eq.
Qed.

Lemma repaired_differs stored safe :
  stored > safe + 1000 ->
  (if stored >? 100000000 then stored / 10 else safe) < stored.
Proof.
  intros H. destruct (Z.gtb_spec stored 100000000); [| lia].
  apply Z.div_lt; lia.
Qed.

Lemma resolve_require h locals w :
  resolve h locals "require" w =
    if inScope h locals "require" then (Returned tt, w)
    else (Thrown (ReferenceError "require"), w).
Proof. unfold resolve. by destruct (inScope h locals "require"). Qed.

(** [updateLastProcessedBlock], when it returns, has written the block. *)
Lemma updateLastProcessedBlock_returned h p b w w' :
  updateLastProcessedBlock h p b w = (Returned tt, w') ->
  b <= 100000000
  /\ w' = with_leaderboard
            (upsertLastProcessedBlock p b (HashOfBlock b (namehash p))) w.
Proof.
  unfold updateLastProcessedBlock.
  destruct (Z.gtb_spec b 100000000); [discriminate |].
  unfold bind. rewrite resolve_require.
  destruct (inScope h _ "require"); [| discriminate].
  rewrite query_run. destruct (rejects h UpsertLastProcessedBlock); [discriminate |].
  intros [= <-]. split; [lia | reflexivity].
Qed.

(** [updateLastProcessedBlock], when it throws, has written nothing. *)
Lemma updateLastProcessedBlock_thrown h p b w e w' :
  updateLastProcessedBlock h p b w = (Thrown e, w') -> w' = w.
Proof.
  unfold updateLastProcessedBlock.
  destruct (b >? 100000000); [by intros [= _ <-] |].
  unfold bind. rewrite resolve_require.
  destruct (inScope h _ "require"); [| by intros [= _ <-]].
  rewrite query_run. destruct (rejects h UpsertLastProcessedBlock);
    [by intros [= _ <-] | discriminate].
Qed.

(** The opening of [processProviderTransactions]: either the stored block
    is within the tolerance and nothing happens, or it is lowered and
    written back. *)
Lemma validatedLastProcessedBlock_returned h p safe w b w1 :
  validatedLastProcessedBlock h p safe w = (Returned b, w1) ->
  (watermark w p <= safe + 1000 /\ b = watermark w p /\ w1 = w)
  \/ (watermark w p > safe + 1000
      /\ b = (if watermark w p >? 100000000 then watermark w p / 10 else safe)
      /\ b <= 100000000
      /\ watermark w1 p = b
      /\ hypermap_transactions w1 = hypermap_transactions w).
Proof.
  unfold validatedLastProcessedBlock, bind. rewrite getProviderCurrentStats_run.
  destruct (rejects h SelectCurrentStats); [discriminate |].
  fold (watermark w p).
  destruct (Z.le_gt_cases (watermark w p) (safe + 1000)) as [Hin | Hout].
  - rewrite validateAndFixBlockNumber_within by done.
    rewrite Z.eqb_refl. simpl. intros [= <- <-]. by left.
  - rewrite validateAndFixBlockNumber_beyond by lia.
    pose proof (repaired_differs (watermark w p) safe ltac:(lia)) as Hlt.
    set (b' := if watermark w p >? 100000000 then watermark w p / 10 else safe) in *.
    destruct (Z.eqb_spec b' (watermark w p)); [lia |]. simpl.
    destruct (updateLastProcessedBlock h p b' _) as [[[] | e] w2] eqn:Hup;
      [| discriminate].
    apply updateLastProcessedBlock_returned in Hup as [Hle ->].
    destruct (logBlockChange_run h p (watermark w p) b' corruption_fix
                (with_leaderboard
                   (upsertLastProcessedBlock p b' (HashOfBlock b' (namehash p)))
                   (warned [CorruptionDetected (full_name p) (watermark w p) safe] w)))
      as (w3 & -> & Hbooks & _ & _).
    intros [= <- <-]. right. repeat split; try lia.
    + rewrite (sameBooks_watermark _ _ _ Hbooks).
      apply watermark_upsertLastProcessedBlock.
    + by destruct Hbooks as [_ ->].
Qed.

(** Under [validationCompletes] the opening does return, with the
    validated block. *)
Lemma validatedLastProcessedBlock_returns h p safe w :
  validationCompletes h w p safe ->
  exists w1,
    validatedLastProcessedBlock h p safe w
    = (Returned (validatedBlock (watermark w p) safe), w1).
Proof.
  intros [Hsel Hcases]. unfold validatedLastProcessedBlock, bind, validatedBlock in *.
  rewrite getProviderCurrentStats_run, Hsel. fold (watermark w p).
  destruct (Z.gtb_spec (watermark w p) (safe + 1000)) as [Hout | Hin].
  - destruct Hcases as [Hin | (Hle & Hreq & Hups)]; [lia |].
    rewrite validateAndFixBlockNumber_beyond by lia.
    pose proof (repaired_differs (watermark w p) safe ltac:(lia)) as Hlt.
    set (b := if watermark w p >? 100000000 then watermark w p / 10 else safe) in *.
    destruct (Z.eqb_spec b (watermark w p)); [lia |]. simpl.
    unfold updateLastProcessedBlock.
    destruct (Z.gtb_spec b 100000000); [lia |].
    unfold bind. rewrite resolve_require.
    assert (Hscope : inScope h ["paymentsDb"; "provider"; "lastProcessedBlock";
                                "safeBlockNumber"] "require" = true).
    { unfold inScope, hostGlobals. rewrite Hreq. reflexivity. }
    rewrite Hscope, query_run, Hups.
    match goal with
    | |- context [logBlockChange h p ?o ?n ?c ?v] =>
        destruct (logBlockChange_run h p o n c v) as (w3 & -> & _)
    end.
    by exists w3.
  - rewrite validateAndFixBlockNumber_within by lia.
    rewrite Z.eqb_refl. simpl. by exists w.
Qed.

(** ** A provider that has caught up *)

(** C7. Whenever the validated watermark plus one exceeds the safe
    height, [processProviderTransactions] returns at once with no
    transactions, the watermark as validated, and [reachedSafeHeight =
    false]; nothing is fetched, the ledger is untouched, the loop applies
    nothing and no error is raised; when no repair was due the whole
    world is untouched. *)
Theorem caught_up_provider_is_noop h p lookup safe w :
  validationCompletes h w p safe ->
  validatedBlock (watermark w p) safe + 1 > safe ->
  exists w1,
    processProviderTransactions h p lookup safe w =
      (Returned {| validTransactions := [];
                   lastProcessedBlock := validatedBlock (watermark w p) safe;
                   reachedSafeHeight := false |}, w1)
    /\ watermark w1 p = validatedBlock (watermark w p) safe
    /\ hypermap_transactions w1 = hypermap_transactions w
    /\ reconcileAndApply h p lookup safe w = (Returned tt, w1)
    /\ (watermark w p <= safe + 1000 -> w1 = w).
Proof.
  intros Hcompletes Hgt.
  destruct (validatedLastProcessedBlock_returns h p safe w Hcompletes) as [w1 Hval].
  set (b := validatedBlock (watermark w p) safe) in *.
  assert (Hproc : processProviderTransactions h p lookup safe w =
            (Returned {| validTransactions := [];
                         lastProcessedBlock := b;
                         reachedSafeHeight := false |}, w1)).
  { unfold processProviderTransactions, bind. rewrite Hval.
    unfold reconcileFrom. destruct (Z.gtb_spec (b + 1) safe); [reflexivity | lia]. }
  exists w1. split; [exact Hproc |].
  destruct (validatedLastProcessedBlock_returned _ _ _ _ _ _ Hval)
    as [(Hin & Hb & ->) | (Hout & _ & _ & Hw & Hl)].
  - split; [by rewrite Hb |]. split; [reflexivity |]. split; [| done].
    unfold reconcileAndApply, bind. by rewrite Hproc.
  - split; [exact Hw |]. split; [exact Hl |]. split; [| lia].
    unfold reconcileAndApply, bind. by rewrite Hproc.
Qed.

Lemma caught_up_provider_is_noop_witness :
  validationCompletes (hostOver chain3) (worldAt 100) abc 100
  /\ validatedBlock (watermark (worldAt 100) abc) 100 + 1 > 100
  /\ exists w1,
       processProviderTransactions (hostOver chain3) abc members 100 (worldAt 100) =
         (Returned {| validTransactions := [];
                      lastProcessedBlock := validatedBlock (watermark (worldAt 100) abc) 100;
                      reachedSafeHeight := false |}, w1)
       /\ w1 = worldAt 100.
Proof.
  assert (H1 : validationCompletes (hostOver chain3) (worldAt 100) abc 100).
  { split; [reflexivity |]. left. vm_compute. discriminate. }
  assert (H2 : validatedBlock (watermark (worldAt 100) abc) 100 + 1 > 100)
    by (vm_compute; reflexivity).
  split; [exact H1 |]. split; [exact H2 |].
  destruct (caught_up_provider_is_noop (hostOver chain3) abc members 100
              (worldAt 100) H1 H2) as (w1 & Hrun & _ & _ & _ & Hsame).
  exists w1. split; [exact Hrun |]. apply Hsame. vm_compute. discriminate.
Defined.

(** ** The repair of a stored block *)

(** C5, as the code has it. A stored block above the observed height plus
    1000 is replaced by its tenth (rounded down) when it is above
    100000000, whether or not the tenth is within the tolerance, and by
    the observed height otherwise; the result is below the stored block,
    is the same whatever the ledger holds, and the warning is the only
    trace left. From 315228551 at height 31522845 the result is
    31522855. *)
Theorem validateAndFixBlockNumber_repair stored height name w :
  stored > height + 1000 ->
  let repaired := if stored >? 100000000 then stored / 10 else height in
  validateAndFixBlockNumber stored height name w =
    (Returned repaired, warned [CorruptionDetected name stored height] w)
  /\ repaired < stored
  /\ (forall w2, fst (validateAndFixBlockNumber stored height name w2) = Returned repaired)
  /\ fst (validateAndFixBlockNumber 315228551 31522845 name w) = Returned 31522855.
Proof.
  intros H repaired. split; [| split; [| split]].
  - by apply validateAndFixBlockNumber_beyond.
  - by apply repaired_differs.
  - intros w2. by rewrite validateAndFixBlockNumber_beyond.
  - by rewrite validateAndFixBlockNumber_beyond.
Qed.

Lemma validateAndFixBlockNumber_repair_witness :
  50000 > 100 + 1000
  /\ validateAndFixBlockNumber 50000 100 "weather.grid-beta.hypr" (worldWithRecord 50000) =
       (Returned 100,
        warned [CorruptionDetected "weather.grid-beta.hypr" 50000 100]
          (worldWithRecord 50000)).
Proof.
  assert (H : 50000 > 100 + 1000) by lia.
  split; [exact H |].
  exact (proj1 (validateAndFixBlockNumber_repair 50000 100 "weather.grid-beta.hypr"
                  (worldWithRecord 50000) H)).
Defined.

(** C5, as the specification words it, fails: with a transaction on
    record at block 42 the specified fallback is 42, and 0 with none on
    record, while the code answers the observed height, 100, in both
    cases; and a tenth that is still out of tolerance is returned as it
    is, not replaced by the fallback. *)
Lemma repair_fallback_counterexample :
  lastTransactionBlockOnRecord (worldWithRecord 50000) abc = Some 42
  /\ validateAndRepair_spec 50000 100 1000
       (lastTransactionBlockOnRecord (worldWithRecord 50000) abc) = 42
  /\ fst (validateAndFixBlockNumber 50000 100 (full_name abc) (worldWithRecord 50000))
       = Returned 100
  /\ validateAndRepair_spec 50000 100 1000
       (lastTransactionBlockOnRecord (worldAt 50000) abc) = 0
  /\ fst (validateAndFixBlockNumber 50000 100 (full_name abc) (worldAt 50000))
       = Returned 100
  /\ fst (validateAndFixBlockNumber 2000000000 31522845 (full_name abc)
            (worldWithRecord 2000000000)) = Returned 200000000.
Proof. repeat split; vm_compute; reflexivity. Qed.

(** ** The loop of [runPaymentTracker] *)

Lemma loopPreamble_throws h w :
  resolveAll h runPaymentTracker_locals loopPreamble w =
    (Thrown (ReferenceError "currentStats"), w).
Proof.
  unfold resolveAll, loopPreamble, resolve, inScope, hostGlobals, bind.
  destruct (binds_require h); reflexivity.
Qed.

(** C10 fails on the code. Every turn of the loop stops at the third
    [console.log] line, which evaluates [currentStats], a name that no
    scope around the loop binds: the [ReferenceError] goes to the [catch],
    which records it as the last error (or fails itself when that
    statement is rejected), and [processProviderTransactions] is never
    called. The leaderboard and the ledger are the same after any number
    of providers. *)
Theorem loop_body_stops_at_unbound_currentStats h p lookup safe w :
  providerIteration h p lookup safe w =
    (if rejects h UpdateLastError
     then (Thrown (QueryRejected UpdateLastError), w)
     else (Returned tt,
           with_last_error (Some (full_name p, ReferenceError "currentStats")) w))
  /\ forall providers, sameBooks w (snd (providerLoop h providers lookup safe w)).
Proof.
  assert (Hit : forall q v, providerIteration h q lookup safe v =
    (if rejects h UpdateLastError
     then (Thrown (QueryRejected UpdateLastError), v)
     else (Returned tt,
           with_last_error (Some (full_name q, ReferenceError "currentStats")) v))).
  { intros q v. unfold providerIteration, tryCatch, bind.
    rewrite loopPreamble_throws. apply query_run. }
  split; [apply Hit |].
  intros providers. revert w. unfold providerLoop.
  induction providers as [| q rest IH]; intros w; simpl.
  - apply sameBooks_refl.
  - unfold bind. rewrite Hit. destruct (rejects h UpdateLastError); simpl.
    + apply sameBooks_refl.
    + eapply sameBooks_trans; [| apply IH]. by split.
Qed.

(** ** Sorting and scanning the fetched transactions *)

Section Scan.
Variables (p : Provider) (lookup : gmap string TbaInfo) (safe fromBlock : Z).

Lemma maxBlockOver_cons base x l :
  maxBlockOver base (x :: l) = Z.max (maxBlockOver base l) (Raw.blockNumber x).
Proof.
  unfold maxBlockOver. simpl. revert base.
  induction l as [| y l IH]; intros base; simpl; [reflexivity |].
  rewrite <- IH. f_equal. lia.
Qed.

Lemma maxBlockOver_ge base l : base <= maxBlockOver base l.
Proof.
  induction l as [| x l IH]; [unfold maxBlockOver; simpl; lia |].
  rewrite maxBlockOver_cons. lia.
Qed.

Lemma maxBlockOver_inRange base l :
  maxBlockOver base (List.filter (inRange fromBlock safe) l) <= Z.max base safe.
Proof.
  induction l as [| x l IH]; simpl; [unfold maxBlockOver; simpl; lia |].
  destruct (inRange fromBlock safe x) eqn:E; [| exact IH].
  rewrite maxBlockOver_cons. unfold inRange in E.
  apply andb_true_iff in E as [_ E]. apply Z.leb_le in E. lia.
Qed.

Lemma maxBlockOver_filter_insert (P : Raw.t -> bool) base x l :
  maxBlockOver base (List.filter P (insertByBlock x l))
  = maxBlockOver base (List.filter P (x :: l)).
Proof.
  induction l as [| y l IH]; [reflexivity |].
  simpl insertByBlock. destruct (Raw.blockNumber x <=? Raw.blockNumber y);
    [reflexivity |].
  simpl in *. destruct (P y), (P x);
    rewrite ?maxBlockOver_cons, ?IH, ?maxBlockOver_cons; lia.
Qed.

(** Sorting does not change the highest block of the range. *)
Lemma maxBlockOver_filter_sort (P : Raw.t -> bool) base l :
  maxBlockOver base (List.filter P (sortByBlockNumber l))
  = maxBlockOver base (List.filter P l).
Proof.
  induction l as [| x l IH]; [reflexivity |].
  simpl sortByBlockNumber. rewrite maxBlockOver_filter_insert. simpl.
  destruct (P x); rewrite ?maxBlockOver_cons; by rewrite IH.
Qed.

(** The loop over the sorted transactions, in closed form. *)
Lemma forOf_scanTransaction txs valid maxSeen w :
  forOf txs (scanTransaction p lookup safe fromBlock) (valid, maxSeen) w =
    (Returned (valid ++ matched p lookup (List.filter (inRange fromBlock safe) txs),
               maxBlockOver maxSeen (List.filter (inRange fromBlock safe) txs)),
     warned (scanWarnings fromBlock safe txs) w).
Proof.
  revert valid maxSeen w.
  induction txs as [| tx txs IH]; intros valid maxSeen w.
  - simpl. unfold ret. by rewrite app_nil_r, warned_nil.
  - simpl forOf. unfold bind, scanTransaction, inRange, scanWarnings, matched.
    simpl.
    destruct (Z.gtb_spec (Raw.blockNumber tx) safe) as [Hgt | Hle].
    + unfold ret. rewrite IH.
      destruct (Z.leb_spec (Raw.blockNumber tx) safe); [lia |].
      by rewrite andb_false_r.
    + destruct (Z.ltb_spec (Raw.blockNumber tx) fromBlock) as [Hlt | Hge].
      * unfold bind, console_warn_line, modify, ret. rewrite IH.
        destruct (Z.leb_spec fromBlock (Raw.blockNumber tx)); [lia |].
        simpl. by rewrite warned_app.
      * destruct (Z.leb_spec fromBlock (Raw.blockNumber tx)); [| lia].
        destruct (Z.leb_spec (Raw.blockNumber tx) safe); [| lia].
        simpl.
        destruct (lookup !! toLowerCase (Raw.from tx)) as [info |];
          unfold ret; rewrite IH; simpl.
        -- by rewrite <- app_assoc.
        -- reflexivity.
Qed.
End Scan.

(** ** The reconciliation of one provider *)

(** The explorer adapter reads no table and writes none. *)
Lemma fetchUsdcTransactions_pure h wallet fromBlock endBlock w c v :
  fetchUsdcTransactions h wallet fromBlock endBlock w = (c, v) ->
  v = w /\ forall w', fetchUsdcTransactions h wallet fromBlock endBlock w' = (c, w').
Proof.
  unfold fetchUsdcTransactions.
  destruct (fetchRetry _ _ _ _ _) as [rows | e]; intros [= <- <-]; by split.
Qed.

(** [processProviderTransactions] past the fetch, in closed form. *)
Lemma reconcileFrom_fetched h p lookup safe b w txs :
  b + 1 <= safe ->
  fetchUsdcTransactions h (wallet_address p) (b + 1) safe w = (Returned (Some txs), w) ->
  exists w',
    reconcileFrom h p lookup safe b w =
      (Returned
         {| validTransactions := newTransactionsOf p lookup (b + 1) safe txs;
            lastProcessedBlock :=
              (if (length txs =? 0)%nat
               then Z.min (b + 1 + CONSERVATIVE_BLOCK_ADVANCE (config h)) safe
               else Z.min (maxBlockSeenOf (b + 1) safe txs) safe);
            reachedSafeHeight :=
              ((if (length txs =? 0)%nat
                then Z.min (b + 1 + CONSERVATIVE_BLOCK_ADVANCE (config h)) safe
                else Z.min (maxBlockSeenOf (b + 1) safe txs) safe) >=? safe) |}, w')
    /\ sameBooks w w'
    /\ tracker_last_error w' = tracker_last_error w
    /\ console_warn w' =
         console_warn w ++ scanWarnings (b + 1) safe (sortByBlockNumber txs).
Proof.
  intros Hle Hfetch. unfold reconcileFrom.
  destruct (Z.gtb_spec (b + 1) safe); [lia |].
  unfold bind at 1. rewrite Hfetch.
  unfold bind at 1. rewrite forOf_scanTransaction. simpl fst. simpl snd.
  unfold maxBlockSeenOf. rewrite maxBlockOver_filter_sort.
  set (w0 := warned _ w).
  unfold newTransactionsOf.
  destruct (length txs =? 0)%nat.
  - unfold bind.
    destruct (logBlockChange_run h p b
                (Z.min (b + 1 + CONSERVATIVE_BLOCK_ADVANCE (config h)) safe)
                conservative_advance w0) as (w' & -> & Hb & He & Hc).
    exists w'. split; [reflexivity |]. split; [| split].
    + eapply sameBooks_trans; [apply sameBooks_warned | exact Hb].
    + by rewrite He.
    + by rewrite Hc.
  - unfold bind.
    destruct (logBlockChange_run h p b
                (Z.min (maxBlockOver (b + 1 - 1)
                          (List.filter (inRange (b + 1) safe) txs)) safe)
                normal_advance w0) as (w' & -> & Hb & He & Hc).
    exists w'. split; [reflexivity |]. split; [| split].
    + eapply sameBooks_trans; [apply sameBooks_warned | exact Hb].
    + by rewrite He.
    + by rewrite Hc.
Qed.

(** Whatever [processProviderTransactions] returns lies between the
    validated block and the larger of it and the safe height. *)
Lemma reconcileFrom_bounds h p lookup safe b w r w' :
  0 <= CONSERVATIVE_BLOCK_ADVANCE (config h) ->
  reconcileFrom h p lookup safe b w = (Returned r, w') ->
  b <= lastProcessedBlock r <= Z.max b safe.
Proof.
  intros Hstep Hrun.
  destruct (Z.le_gt_cases (b + 1) safe) as [Hle | Hgt].
  - destruct (fetchUsdcTransactions h (wallet_address p) (b + 1) safe w)
      as [[[txs |] | e] v] eqn:Hfetch.
    + destruct (fetchUsdcTransactions_pure _ _ _ _ _ _ _ Hfetch) as [-> _].
      destruct (reconcileFrom_fetched h p lookup safe b w txs Hle Hfetch)
        as (w2 & Heq & _).
      rewrite Heq in Hrun. injection Hrun as <- _. simpl.
      destruct (length txs =? 0)%nat; [lia |].
      unfold maxBlockSeenOf.
      pose proof (maxBlockOver_ge (b + 1 - 1)
                    (List.filter (inRange (b + 1) safe) txs)).
      pose proof (maxBlockOver_inRange safe (b + 1) (b + 1 - 1) txs).
      lia.
    + unfold reconcileFrom in Hrun.
      destruct (Z.gtb_spec (b + 1) safe); [lia |].
      unfold bind in Hrun. rewrite Hfetch in Hrun. discriminate.
    + unfold reconcileFrom in Hrun.
      destruct (Z.gtb_spec (b + 1) safe); [lia |].
      unfold bind in Hrun. rewrite Hfetch in Hrun. discriminate.
  - unfold reconcileFrom in Hrun.
    destruct (Z.gtb_spec (b + 1) safe); [| lia].
    injection Hrun as <- _. simpl. lia.
Qed.

(** ** The two database transactions of the ledger writer *)

Lemma restoreTables_same w w' :
  console_warn w' = console_warn w -> restoreTables w w' = w.
Proof. destruct w; unfold restoreTables; simpl. by intros ->. Qed.

(** A [BEGIN ... COMMIT] block whose body writes no warning either
    returns what its body returns, or throws and leaves the world as it
    was at [BEGIN]. *)
Lemma transaction_outcome {A} h b c (body : Js A) w :
  (forall v, console_warn (snd (body v)) = console_warn v) ->
  (exists a w', transaction h b c body w = (Returned a, w')
                /\ body w = (Returned a, w'))
  \/ (exists e, transaction h b c body w = (Thrown e, w)).
Proof.
  intros Hquiet. unfold transaction, bind. rewrite query_run.
  destruct (rejects h b); cbn.
  - right. eexists. by rewrite restoreTables_same.
  - pose proof (Hquiet w) as Hw.
    destruct (body w) as [[a | e] w'] eqn:Hbody; cbn in *.
    + rewrite query_run. destruct (rejects h c); cbn.
      * right. eexists. by rewrite restoreTables_same.
      * left. by exists a, w'.
    + right. eexists. by rewrite restoreTables_same.
Qed.

Lemma insertEach_quiet h p k txs w :
  console_warn (snd (insertEach h p k txs w)) = console_warn w.
Proof.
  revert k w. induction txs as [| tx rest IH]; intros k w; [reflexivity |].
  simpl. unfold bind. rewrite query_run.
  destruct (rejects h (InsertTransaction k)); [reflexivity |].
  by rewrite IH.
Qed.

Lemma insertEach_returned h p k txs w w' :
  insertEach h p k txs w = (Returned tt, w') ->
  w' = with_transactions (insertAll p txs) w.
Proof.
  revert k w. induction txs as [| tx rest IH]; intros k w.
  - simpl. intros [= <-]. by destruct w.
  - simpl. unfold bind. rewrite query_run.
    destruct (rejects h (InsertTransaction k)); [discriminate |].
    intros H. apply IH in H. by subst.
Qed.

(** [updatePaymentRecords] inserts the whole batch or nothing. *)
Lemma updatePaymentRecords_outcome h p txs w :
  updatePaymentRecords h p txs w = (Returned tt, with_transactions (insertAll p txs) w)
  \/ (exists e, updatePaymentRecords h p txs w = (Thrown e, w)).
Proof.
  unfold updatePaymentRecords.
  destruct (transaction_outcome h Begin_updatePaymentRecords Commit_updatePaymentRecords
              (insertEach h p 0 txs) w (insertEach_quiet h p 0 txs))
    as [([] & w' & -> & Hbody) | [e ->]].
  - left. by rewrite (insertEach_returned _ _ _ _ _ _ Hbody).
  - right. by exists e.
Qed.

Lemma currentStatsOf_upsertLeaderboardStats p total count unique first last block hash w :
  let s := currentStatsOf
             (with_leaderboard
                (upsertLeaderboardStats p total count unique first last block hash) w) p in
  last_processed_block s = block
  /\ total_usdc_received s = total_usdc_received (currentStatsOf w p) + total
  /\ transaction_count s = transaction_count (currentStatsOf w p) + count
  /\ unique_sender_count s = unique
  /\ last_transaction_block s = block.
Proof.
  unfold currentStatsOf, with_leaderboard, upsertLeaderboardStats; simpl.
  destruct (provider_leaderboard w !! namehash p); rewrite lookup_insert_eq; simpl;
    repeat split; lia.
Qed.

(** [updateLeaderboardStatsIncremental] writes the statistics and the
    block in one upsert, or nothing. *)
Lemma updateLeaderboardStatsIncremental_outcome h p txs block w :
  (exists unique first last hash,
     updateLeaderboardStatsIncremental h p txs block w =
       (Returned tt,
        with_leaderboard
          (upsertLeaderboardStats p (sumValueUsdc txs) (Z.of_nat (length txs))
             unique first last block hash) w))
  \/ (exists e, updateLeaderboardStatsIncremental h p txs block w = (Thrown e, w)).
Proof.
  unfold updateLeaderboardStatsIncremental.
  match goal with
  | |- context [transaction h ?b ?c ?m] => set (body := m)
  end.
  assert (Hbody : forall v,
    (exists unique first last hash,
       body v = (Returned tt,
                 with_leaderboard
                   (upsertLeaderboardStats p (sumValueUsdc txs) (Z.of_nat (length txs))
                      unique first last block hash) v))
    \/ (exists e, body v = (Thrown e, v))).
  { intros v. unfold body, bind. rewrite getProviderCurrentStats_run.
    destruct (rejects h SelectCurrentStats); [right; by eexists |].
    destruct (uniqueStrings _) as [| sender others];
      [| destruct txs as [| first rest]].
    - unfold ret. rewrite query_run.
      destruct (rejects h UpsertLeaderboardStats); [right; by eexists |].
      left. by repeat eexists.
    - unfold ret. rewrite query_run.
      destruct (rejects h UpsertLeaderboardStats); [right; by eexists |].
      left. by repeat eexists.
    - unfold select, bind, get, ret. rewrite query_run.
      destruct (rejects h SelectExistingSenders); [right; by eexists |].
      unfold id. rewrite query_run.
      destruct (rejects h UpsertLeaderboardStats); [right; by eexists |].
      left. by repeat eexists. }
  assert (Hquiet : forall v, console_warn (snd (body v)) = console_warn v).
  { intros v. destruct (Hbody v) as [(u & f & l & hs & ->) | (e & ->)]; reflexivity. }
  destruct (transaction_outcome h Begin_updateLeaderboardStats
              Commit_updateLeaderboardStats body w Hquiet)
    as [([] & w' & -> & Hrun) | [e ->]].
  - left. destruct (Hbody w) as [(u & f & l & hs & Heq) | (e & Heq)];
      rewrite Heq in Hrun; [| discriminate].
    injection Hrun as <-. by exists u, f, l, hs.
  - right. by exists e.
Qed.

(** The [console.log] lines of the three branches of the loop: the
    first two evaluate [currentStats], which nothing binds there. *)
Lemma resolve_after_batch h w :
  resolveAll h applyReconciled_locals
    [ "console"; "validTransactions"; "provider";
      "console"; "currentStats"; "lastProcessedBlock" ] w
  = (Thrown (ReferenceError "currentStats"), w).
Proof.
  unfold resolveAll, resolve, inScope, hostGlobals, bind.
  destruct (binds_require h); reflexivity.
Qed.

Lemma resolve_after_advance h w :
  resolveAll h applyReconciled_locals
    [ "console"; "provider"; "console"; "currentStats"; "lastProcessedBlock" ] w
  = (Thrown (ReferenceError "currentStats"), w).
Proof.
  unfold resolveAll, resolve, inScope, hostGlobals, bind.
  destruct (binds_require h); reflexivity.
Qed.

Lemma resolve_up_to_date h w :
  resolveAll h applyReconciled_locals [ "console"; "provider"; "lastProcessedBlock" ] w
  = (Returned tt, w).
Proof.
  unfold resolveAll, resolve, inScope, hostGlobals, bind.
  destruct (binds_require h); reflexivity.
Qed.

(** Without a batch, the loop leaves the world as
    [updateLastProcessedBlock] left it, or alone. *)
Lemma applyReconciled_no_batch h p r w :
  validTransactions r = [] ->
  snd (applyReconciled h p r w)
  = if reachedSafeHeight r
    then snd (updateLastProcessedBlock h p (lastProcessedBlock r) w)
    else w.
Proof.
  intros Hv. unfold applyReconciled. rewrite Hv.
  change (0 <? length (@nil Valid.t))%nat with false. cbv iota.
  destruct (reachedSafeHeight r); [| by rewrite resolve_up_to_date].
  unfold bind.
  destruct (updateLastProcessedBlock h p (lastProcessedBlock r) w) as [[[] | e] w'];
    [by rewrite resolve_after_advance | reflexivity].
Qed.


(** The two calls that write a batch: two units, the second one holding
    the statistics together with the block. *)
Lemma writeBatch_outcome h p txs block w :
  (exists unique first last hash,
     writeBatch h p txs block w =
       (Returned tt,
        with_leaderboard
          (upsertLeaderboardStats p (sumValueUsdc txs) (Z.of_nat (length txs))
             unique first last block hash)
          (with_transactions (insertAll p txs) w)))
  \/ (exists e, writeBatch h p txs block w = (Thrown e, w))
  \/ (exists e, writeBatch h p txs block w =
                 (Thrown e, with_transactions (insertAll p txs) w)).
Proof.
  unfold writeBatch, bind.
  destruct (updatePaymentRecords_outcome h p txs w) as [-> | [e ->]].
  - destruct (updateLeaderboardStatsIncremental_outcome h p txs block
                (with_transactions (insertAll p txs) w))
      as [(u & f & l & hs & ->) | [e ->]].
    + left. by exists u, f, l, hs.
    + right. right. by exists e.
  - right. left. by exists e.
Qed.

(** With a batch, the loop leaves the world as the two calls left it, and
    does not return: when both calls returned, the line that reports the
    advance throws. *)
Lemma applyReconciled_batch h p r w :
  validTransactions r <> [] ->
  snd (applyReconciled h p r w)
  = snd (writeBatch h p (validTransactions r) (lastProcessedBlock r) w)
  /\ exists e, fst (applyReconciled h p r w) = Thrown e.
Proof.
  intros Hne. unfold applyReconciled.
  destruct (validTransactions r) as [| tx rest] eqn:Hv; [done |].
  change (0 <? length (tx :: rest))%nat with true. cbv iota. unfold bind.
  destruct (writeBatch h p (tx :: rest) (lastProcessedBlock r) w) as [[[] | e] w'].
  - rewrite resolve_after_batch. split; [reflexivity | by eexists].
  - split; [reflexivity | by eexists].
Qed.

(** The world after the loop has dealt with a batch. *)
Lemma applyReconciled_outcome h p r w :
  validTransactions r <> [] ->
  (exists unique first last hash,
     snd (applyReconciled h p r w) =
       with_leaderboard
         (upsertLeaderboardStats p (sumValueUsdc (validTransactions r))
            (Z.of_nat (length (validTransactions r)))
            unique first last (lastProcessedBlock r) hash)
         (with_transactions (insertAll p (validTransactions r)) w))
  \/ snd (applyReconciled h p r w) = w
  \/ snd (applyReconciled h p r w)
     = with_transactions (insertAll p (validTransactions r)) w.
Proof.
  intros Hne. rewrite (proj1 (applyReconciled_batch h p r w Hne)).
  destruct (writeBatch_outcome h p (validTransactions r) (lastProcessedBlock r) w)
    as [(u & f & l & hs & ->) | [[e ->] | [e ->]]].
  - left. by exists u, f, l, hs.
  - right. by left.
  - right. by right.
Qed.

(** C3, as the code has it. A batch of new transactions is written by two
    calls, each an atomic unit of its own: the inserts, then the
    statistics together with the watermark. There are three outcomes.
    Both commit: the batch is in the ledger, the counters have grown by
    the batch and the watermark is the new one. The first unit fails: the
    world is untouched. The second unit fails: the batch stays in the
    ledger and the leaderboard, statistics and watermark alike, is
    untouched. In no outcome do the statistics change without the
    watermark, or the watermark without the statistics. The world after
    the loop has dealt with the batch is the world after the two calls. *)
Theorem batch_applies_in_two_atomic_units h p r w :
  validTransactions r <> [] ->
  let out := writeBatch h p (validTransactions r) (lastProcessedBlock r) w in
  let batch := insertAll p (validTransactions r) (hypermap_transactions w) in
  ((fst out = Returned tt
    /\ hypermap_transactions (snd out) = batch
    /\ watermark (snd out) p = lastProcessedBlock r
    /\ transaction_count (currentStatsOf (snd out) p)
         = transaction_count (currentStatsOf w p)
           + Z.of_nat (length (validTransactions r))
    /\ total_usdc_received (currentStatsOf (snd out) p)
         = total_usdc_received (currentStatsOf w p)
           + sumValueUsdc (validTransactions r))
   \/ (exists e, fst out = Thrown e /\ snd out = w)
   \/ (exists e, fst out = Thrown e
                 /\ hypermap_transactions (snd out) = batch
                 /\ provider_leaderboard (snd out) = provider_leaderboard w))
  /\ snd (applyReconciled h p r w) = snd out.
Proof.
  intros Hne out batch. subst out.
  split; [| exact (proj1 (applyReconciled_batch h p r w Hne))].
  destruct (writeBatch_outcome h p (validTransactions r) (lastProcessedBlock r) w)
    as [(u & f & l & hs & ->) | [[e ->] | [e ->]]].
  - left. simpl fst. simpl snd. split; [reflexivity |]. split; [reflexivity |].
    pose proof (currentStatsOf_upsertLeaderboardStats p
                  (sumValueUsdc (validTransactions r))
                  (Z.of_nat (length (validTransactions r))) u f l
                  (lastProcessedBlock r) hs
                  (with_transactions (insertAll p (validTransactions r)) w))
      as (H1 & H2 & H3 & _).
    unfold watermark. split; [exact H1 |]. split; [exact H3 | exact H2].
  - right. left. by exists e.
  - right. right. by exists e.
Qed.

Lemma batch_applies_in_two_atomic_units_witness :
  validTransactions reconciled3 <> []
  /\ fst (writeBatch (nodeHostOver chain3) abc (validTransactions reconciled3)
            (lastProcessedBlock reconciled3) emptyWorld) = Returned tt
  /\ watermark (snd (applyReconciled (nodeHostOver chain3) abc reconciled3 emptyWorld)) abc
       = 90.
Proof.
  assert (H : validTransactions reconciled3 <> []) by (vm_compute; discriminate).
  split; [exact H |].
  destruct (batch_applies_in_two_atomic_units (nodeHostOver chain3) abc reconciled3
              emptyWorld H) as [[(H1 & _ & H3 & _) | [(e & He & _) | (e & He & _)]] Hloop].
  - split; [exact H1 |]. rewrite Hloop. exact H3.
  - vm_compute in He. discriminate He.
  - vm_compute in He. discriminate He.
Defined.

(** C3, as stated, fails: when the statistics upsert is rejected, the run
    ends in an error with both transactions of the batch committed to the
    ledger, while the leaderboard has no row for the provider: no
    statistics and the watermark still at 0. *)
Lemma batch_not_one_atomic_unit_counterexample :
  fst (reconcileAndApply (hostRejectingStats chain3) abc members 100 emptyWorld)
    = Thrown (QueryRejected UpsertLeaderboardStats)
  /\ map tx_hash (hypermap_transactions
        (snd (reconcileAndApply (hostRejectingStats chain3) abc members 100 emptyWorld)))
       = ["0xt1"; "0xt3"]
  /\ provider_leaderboard
        (snd (reconcileAndApply (hostRejectingStats chain3) abc members 100 emptyWorld))
        !! namehash abc = None
  /\ watermark
        (snd (reconcileAndApply (hostRejectingStats chain3) abc members 100 emptyWorld))
        abc = 0.
Proof. repeat split; vm_compute; reflexivity. Qed.

(** ** Where the watermark can go in one run *)

(** The opening of [processProviderTransactions], whatever its outcome:
    the books are as before, or the stored block was beyond the tolerance
    and has been replaced by its repair. *)
Lemma validatedLastProcessedBlock_any h p safe w c w1 :
  validatedLastProcessedBlock h p safe w = (c, w1) ->
  (sameBooks w w1 /\ (forall b, c = Returned b -> b = watermark w p))
  \/ (watermark w p > safe + 1000
      /\ c = Returned (if watermark w p >? 100000000
                       then watermark w p / 10 else safe)
      /\ watermark w1 p = (if watermark w p >? 100000000
                           then watermark w p / 10 else safe)
      /\ hypermap_transactions w1 = hypermap_transactions w).
Proof.
  destruct c as [b | e].
  - intros H. destruct (validatedLastProcessedBlock_returned _ _ _ _ _ _ H)
      as [(_ & -> & ->) | (Hout & -> & _ & Hw & Hl)].
    + left. split; [apply sameBooks_refl | by intros ? [= ->]].
    + right. by repeat split.
  - intros H. left. split; [| discriminate].
    revert H. unfold validatedLastProcessedBlock, bind.
    rewrite getProviderCurrentStats_run.
    destruct (rejects h SelectCurrentStats); [intros [= _ <-]; apply sameBooks_refl |].
    fold (watermark w p).
    destruct (Z.le_gt_cases (watermark w p) (safe + 1000)) as [Hin | Hout].
    + rewrite validateAndFixBlockNumber_within by done.
      rewrite Z.eqb_refl. discriminate.
    + rewrite validateAndFixBlockNumber_beyond by lia.
      destruct (negb _); [| discriminate].
      destruct (updateLastProcessedBlock h p _ _) as [[[] | e'] w2] eqn:Hup.
      * destruct (logBlockChange_run h p (watermark w p)
                    (if watermark w p >? 100000000 then watermark w p / 10 else safe)
                    corruption_fix w2) as (w3 & -> & _). discriminate.
      * apply updateLastProcessedBlock_thrown in Hup as ->.
        intros [= _ <-]. apply sameBooks_warned.
Qed.

(** The rest of [processProviderTransactions] writes to the log and to
    the console only. *)
Lemma reconcileFrom_sameBooks h p lookup safe b w :
  sameBooks w (snd (reconcileFrom h p lookup safe b w)).
Proof.
  destruct (Z.le_gt_cases (b + 1) safe) as [Hle | Hgt].
  - destruct (fetchUsdcTransactions h (wallet_address p) (b + 1) safe w)
      as [[[txs |] | e] v] eqn:Hfetch;
      destruct (fetchUsdcTransactions_pure _ _ _ _ _ _ _ Hfetch) as [-> _].
    + destruct (reconcileFrom_fetched h p lookup safe b w txs Hle Hfetch)
        as (w2 & -> & Hb & _). exact Hb.
    + unfold reconcileFrom. destruct (Z.gtb_spec (b + 1) safe); [lia |].
      unfold bind. rewrite Hfetch. apply sameBooks_refl.
    + unfold reconcileFrom. destruct (Z.gtb_spec (b + 1) safe); [lia |].
      unfold bind. rewrite Hfetch. apply sameBooks_refl.
  - unfold reconcileFrom. destruct (Z.gtb_spec (b + 1) safe); [| lia].
    apply sameBooks_refl.
Qed.

(** What the loop applies leaves the watermark where it was or puts it
    at the returned block; the returned block only with the books
    otherwise changed by the batch alone. *)
Lemma applyReconciled_watermark h p r w :
  watermark (snd (applyReconciled h p r w)) p = watermark w p
  \/ watermark (snd (applyReconciled h p r w)) p = lastProcessedBlock r.
Proof.
  destruct (validTransactions r) as [| tx rest] eqn:Hv.
  - rewrite (applyReconciled_no_batch h p r w Hv).
    destruct (reachedSafeHeight r); [| by left].
    destruct (updateLastProcessedBlock h p (lastProcessedBlock r) w)
      as [[[] | e] w'] eqn:Hup; simpl.
    + right. apply updateLastProcessedBlock_returned in Hup as [_ ->].
      apply watermark_upsertLastProcessedBlock.
    + left. by apply updateLastProcessedBlock_thrown in Hup as ->.
  - destruct (applyReconciled_outcome h p r w) as
      [(u & f & l & hs & ->) | [-> | ->]].
    + by rewrite Hv.
    + right. unfold watermark.
      apply (currentStatsOf_upsertLeaderboardStats p _ _ u f l _ hs
               (with_transactions (insertAll p (validTransactions r)) w)).
    + by left.
    + by left.
Qed.

(** Without a repair, [processProviderTransactions] leaves the books. *)
Lemma processProviderTransactions_sameBooks h p lookup safe w :
  watermark w p <= safe + 1000 ->
  sameBooks w (snd (processProviderTransactions h p lookup safe w)).
Proof.
  intros Hin. unfold processProviderTransactions, bind.
  destruct (validatedLastProcessedBlock h p safe w) as [c w1] eqn:Hval.
  destruct (validatedLastProcessedBlock_any _ _ _ _ _ _ Hval)
    as [[Hbooks _] | (Hout & _)]; [| lia].
  destruct c as [b | e]; [| exact Hbooks].
  eapply sameBooks_trans; [exact Hbooks | apply reconcileFrom_sameBooks].
Qed.

(** Without a repair, the stored watermark after one run lies between
    the one before and the larger of it and the safe height. *)
Lemma watermark_after_run h p lookup safe w :
  0 <= CONSERVATIVE_BLOCK_ADVANCE (config h) ->
  watermark w p <= safe + 1000 ->
  watermark w p <= watermark (snd (reconcileAndApply h p lookup safe w)) p
                <= Z.max (watermark w p) safe.
Proof.
  intros Hstep Hin. unfold reconcileAndApply, processProviderTransactions, bind.
  destruct (validatedLastProcessedBlock h p safe w) as [c w1] eqn:Hval.
  destruct (validatedLastProcessedBlock_any _ _ _ _ _ _ Hval)
    as [[Hbooks Hc] | (Hout & _)]; [| lia].
  destruct c as [b | e];
    [| simpl; rewrite (sameBooks_watermark _ _ _ Hbooks); lia].
  rewrite (Hc b eq_refl) in *.
  pose proof (reconcileFrom_sameBooks h p lookup safe (watermark w p) w1) as Hb2.
  destruct (reconcileFrom h p lookup safe (watermark w p) w1) as [[r | e] w2] eqn:Hrun;
    simpl in Hb2.
  - pose proof (reconcileFrom_bounds _ _ _ _ _ _ _ _ Hstep Hrun) as Hb.
    assert (Hw2 : watermark w2 p = watermark w p).
    { rewrite (sameBooks_watermark _ _ _ Hb2).
      apply (sameBooks_watermark _ _ _ Hbooks). }
    destruct (applyReconciled_watermark h p r w2) as [-> | ->]; lia.
  - simpl. rewrite (sameBooks_watermark _ _ _ Hb2).
    rewrite (sameBooks_watermark _ _ _ Hbooks). lia.
Qed.

(** ** The watermark across one run *)

(** Where [require] is not bound, [updateLastProcessedBlock] throws
    before it writes. *)
Lemma updateLastProcessedBlock_unbound_require h p b w :
  binds_require h = false ->
  updateLastProcessedBlock h p b w
  = (Thrown (if b >? 100000000 then UnreasonableBlock b
             else ReferenceError "require"), w).
Proof.
  intros Hnode. unfold updateLastProcessedBlock.
  destruct (b >? 100000000); [reflexivity |].
  unfold bind. rewrite resolve_require.
  assert (Hscope : inScope h ["paymentsDb"; "provider"; "lastProcessedBlock";
                              "safeBlockNumber"] "require" = false).
  { unfold inScope, hostGlobals. rewrite Hnode. reflexivity. }
  by rewrite Hscope.
Qed.

(** Where [require] is not bound, the opening of
    [processProviderTransactions] leaves the books, and returns only a
    stored block that needs no repair. *)
Lemma validatedLastProcessedBlock_unbound_require h p safe w c w1 :
  binds_require h = false ->
  validatedLastProcessedBlock h p safe w = (c, w1) ->
  sameBooks w w1
  /\ (forall b, c = Returned b -> b = watermark w p /\ watermark w p <= safe + 1000)
  /\ (safe + 1000 < watermark w p -> exists e, c = Thrown e).
Proof.
  intros Hnode. unfold validatedLastProcessedBlock, bind.
  rewrite getProviderCurrentStats_run.
  destruct (rejects h SelectCurrentStats).
  { intros [= <- <-]. split; [apply sameBooks_refl |].
    split; [discriminate | by eexists]. }
  fold (watermark w p).
  destruct (Z.le_gt_cases (watermark w p) (safe + 1000)) as [Hin | Hout].
  - rewrite validateAndFixBlockNumber_within by done.
    rewrite Z.eqb_refl. simpl. intros [= <- <-]. split; [apply sameBooks_refl |].
    split; [by intros b [= <-] | lia].
  - rewrite validateAndFixBlockNumber_beyond by lia.
    pose proof (repaired_differs (watermark w p) safe ltac:(lia)) as Hlt.
    set (b' := if watermark w p >? 100000000 then watermark w p / 10 else safe) in *.
    destruct (Z.eqb_spec b' (watermark w p)); [lia |]. simpl.
    rewrite (updateLastProcessedBlock_unbound_require h p b'
               (warned [CorruptionDetected (full_name p) (watermark w p) safe] w) Hnode).
    intros [= <- <-]. split; [apply sameBooks_warned |].
    split; [discriminate | by eexists].
Qed.

(** Where [require] is not bound, no run lowers the stored watermark. *)
Lemma watermark_after_run_unbound_require h p lookup safe w :
  0 <= CONSERVATIVE_BLOCK_ADVANCE (config h) ->
  binds_require h = false ->
  watermark w p <= watermark (snd (reconcileAndApply h p lookup safe w)) p
                <= Z.max (watermark w p) safe.
Proof.
  intros Hstep Hnode.
  destruct (Z.le_gt_cases (watermark w p) (safe + 1000)) as [Hin | Hout];
    [by apply watermark_after_run |].
  unfold reconcileAndApply, processProviderTransactions, bind.
  destruct (validatedLastProcessedBlock h p safe w) as [c w1] eqn:Hval.
  destruct (validatedLastProcessedBlock_unbound_require _ _ _ _ _ _ Hnode Hval)
    as (Hbooks & _ & Hthrows).
  destruct (Hthrows ltac:(lia)) as [e ->]. simpl.
  rewrite (sameBooks_watermark _ _ _ Hbooks). lia.
Qed.

(** C1, as the code has it, run as the ES module that it is. The block
    returned by reconciliation is at least the stored one; it is at most
    the safe height when the stored one is, and it is the stored one,
    above the safe height, when the stored one is above. A stored block
    more than 1000 above the safe height makes reconciliation throw. The
    stored watermark after a run, whatever failed during it, is not lower
    than before, and not above the safe height when it was not before. *)
Theorem watermark_across_one_run h p lookup safe w :
  0 <= CONSERVATIVE_BLOCK_ADVANCE (config h) ->
  binds_require h = false ->
  (forall r w',
     processProviderTransactions h p lookup safe w = (Returned r, w') ->
     watermark w p <= lastProcessedBlock r
     /\ (watermark w p <= safe -> lastProcessedBlock r <= safe)
     /\ (safe < watermark w p -> lastProcessedBlock r = watermark w p))
  /\ (safe + 1000 < watermark w p ->
      exists e, fst (processProviderTransactions h p lookup safe w) = Thrown e)
  /\ watermark w p <= watermark (snd (reconcileAndApply h p lookup safe w)) p
  /\ (watermark w p <= safe ->
      watermark (snd (reconcileAndApply h p lookup safe w)) p <= safe).
Proof.
  intros Hstep Hnode. split; [| split].
  - intros r w'. unfold processProviderTransactions, bind.
    destruct (validatedLastProcessedBlock h p safe w) as [[b | e] w1] eqn:Hval;
      [| discriminate].
    intros Hrun. pose proof (reconcileFrom_bounds _ _ _ _ _ _ _ _ Hstep Hrun) as Hb.
    destruct (validatedLastProcessedBlock_unbound_require _ _ _ _ _ _ Hnode Hval)
      as (_ & Hret & _).
    destruct (Hret b eq_refl) as [-> _]. repeat split; intros; lia.
  - intros Hout. unfold processProviderTransactions, bind.
    destruct (validatedLastProcessedBlock h p safe w) as [c w1] eqn:Hval.
    destruct (validatedLastProcessedBlock_unbound_require _ _ _ _ _ _ Hnode Hval)
      as (_ & _ & Hthrows).
    destruct (Hthrows Hout) as [e ->]. by exists e.
  - pose proof (watermark_after_run_unbound_require h p lookup safe w Hstep Hnode).
    split; [lia | intros; lia].
Qed.

Lemma watermark_across_one_run_witness :
  0 <= CONSERVATIVE_BLOCK_ADVANCE (config (nodeHostOver chain3))
  /\ binds_require (nodeHostOver chain3) = false
  /\ watermark emptyWorld abc
     <= watermark (snd (reconcileAndApply (nodeHostOver chain3) abc members 100
                          emptyWorld)) abc
     <= 100
  /\ watermark (snd (reconcileAndApply (nodeHostOver chain3) abc members 100
                       emptyWorld)) abc = 90.
Proof.
  assert (H1 : 0 <= CONSERVATIVE_BLOCK_ADVANCE (config (nodeHostOver chain3)))
    by (vm_compute; discriminate).
  assert (H2 : binds_require (nodeHostOver chain3) = false) by reflexivity.
  split; [exact H1 |]. split; [exact H2 |].
  destruct (watermark_across_one_run (nodeHostOver chain3) abc members 100 emptyWorld
              H1 H2) as (_ & _ & Hlow & Hhigh).
  split; [split; [exact Hlow | apply Hhigh; vm_compute; discriminate] |].
  vm_compute; reflexivity.
Defined.

(** C1, as stated, fails. A provider stored at block 1500 under a safe
    height of 1000 gets 1500 back from reconciliation: the block it had,
    above the safe height. *)
Lemma watermark_bounds_counterexample :
  binds_require (nodeHostOver chain3) = false
  /\ watermark (worldAt 1500) abc = 1500
  /\ fst (processProviderTransactions (nodeHostOver chain3) abc members 1000
            (worldAt 1500))
     = Returned {| validTransactions := [];
                   lastProcessedBlock := 1500;
                   reachedSafeHeight := false |}
  /\ watermark (snd (reconcileAndApply (nodeHostOver chain3) abc members 1000
                       (worldAt 1500))) abc = 1500.
Proof. repeat split; vm_compute; reflexivity. Qed.

(** The repair that reconciliation attempts on its own stops at
    [require]: a provider stored at block 315228551 under a safe height
    of 31522845 keeps that block. *)
Example repair_stops_at_unbound_require :
  fst (processProviderTransactions (nodeHostOver chain3) abc members 31522845
         (worldAt 315228551))
  = Thrown (ReferenceError "require")
  /\ watermark (snd (reconcileAndApply (nodeHostOver chain3) abc members 31522845
                       (worldAt 315228551))) abc = 315228551.
Proof. split; vm_compute; reflexivity. Qed.

(** ** Advancing over an empty range *)

(** C2 fails on the code. When nothing is fetched over a range longer
    than [CONSERVATIVE_BLOCK_ADVANCE], the returned block is the old
    watermark plus the step plus one: the step is added to [fromBlock],
    which is already one past the watermark. The advance is one block
    more than the configured maximum. *)
Theorem empty_fetch_advances_by_step_plus_one h p lookup safe b w :
  0 <= CONSERVATIVE_BLOCK_ADVANCE (config h) ->
  safe - b > CONSERVATIVE_BLOCK_ADVANCE (config h) ->
  fetchUsdcTransactions h (wallet_address p) (b + 1) safe w = (Returned (Some []), w) ->
  exists w',
    reconcileFrom h p lookup safe b w =
      (Returned
         {| validTransactions := [];
            lastProcessedBlock := b + CONSERVATIVE_BLOCK_ADVANCE (config h) + 1;
            reachedSafeHeight :=
              (b + CONSERVATIVE_BLOCK_ADVANCE (config h) + 1 >=? safe) |}, w').
Proof.
  intros Hstep Hrange Hfetch.
  destruct (reconcileFrom_fetched h p lookup safe b w [] ltac:(lia) Hfetch)
    as (w' & Heq & _).
  exists w'. rewrite Heq. simpl.
  replace (Z.min (b + 1 + CONSERVATIVE_BLOCK_ADVANCE (config h)) safe)
    with (b + CONSERVATIVE_BLOCK_ADVANCE (config h) + 1) by lia.
  reflexivity.
Qed.

Lemma empty_fetch_advances_by_step_plus_one_witness :
  0 <= CONSERVATIVE_BLOCK_ADVANCE (config (hostOver []))
  /\ 101 - 0 > CONSERVATIVE_BLOCK_ADVANCE (config (hostOver []))
  /\ fetchUsdcTransactions (hostOver []) (wallet_address abc) (0 + 1) 101 emptyWorld
       = (Returned (Some []), emptyWorld)
  /\ exists w',
       reconcileFrom (hostOver []) abc members 101 0 emptyWorld =
         (Returned {| validTransactions := [];
                      lastProcessedBlock := 101;
                      reachedSafeHeight := true |}, w').
Proof.
  assert (H1 : 0 <= CONSERVATIVE_BLOCK_ADVANCE (config (hostOver [])))
    by (vm_compute; discriminate).
  assert (H2 : 101 - 0 > CONSERVATIVE_BLOCK_ADVANCE (config (hostOver [])))
    by (vm_compute; reflexivity).
  assert (H3 : fetchUsdcTransactions (hostOver []) (wallet_address abc) (0 + 1) 101
                 emptyWorld = (Returned (Some []), emptyWorld))
    by (vm_compute; reflexivity).
  split; [exact H1 |]. split; [exact H2 |]. split; [exact H3 |].
  destruct (empty_fetch_advances_by_step_plus_one (hostOver []) abc members 101 0
              emptyWorld H1 H2 H3) as (w' & Heq).
  exists w'. exact Heq.
Defined.

(** With the default step, an empty range of 101 blocks is crossed in one
    run: reconciliation returns the safe height itself, and the loop
    calls [updateLastProcessedBlock] with it, which stops at [require];
    over an empty range of 1000 blocks reconciliation returns block
    101. *)
Example empty_fetch_reaches_safe_height_at_once :
  fst (processProviderTransactions (nodeHostOver []) abc members 101 emptyWorld)
  = Returned {| validTransactions := [];
                lastProcessedBlock := 101;
                reachedSafeHeight := true |}
  /\ fst (reconcileAndApply (nodeHostOver []) abc members 101 emptyWorld)
     = Thrown (ReferenceError "require")
  /\ fst (processProviderTransactions (nodeHostOver []) abc members 1000 emptyWorld)
     = Returned {| validTransactions := [];
                   lastProcessedBlock := 101;
                   reachedSafeHeight := false |}.
Proof. repeat split; vm_compute; reflexivity. Qed.

(** An empty fetch that stops short of the safe height changes neither
    the leaderboard nor the ledger: the loop writes the block only when
    [reachedSafeHeight] holds. *)
Lemma conservative_advance_not_persisted h p lookup safe w :
  0 <= CONSERVATIVE_BLOCK_ADVANCE (config h) ->
  watermark w p + CONSERVATIVE_BLOCK_ADVANCE (config h) + 1 < safe ->
  (forall v, fetchUsdcTransactions h (wallet_address p) (watermark w p + 1) safe v
             = (Returned (Some []), v)) ->
  sameBooks w (snd (reconcileAndApply h p lookup safe w)).
Proof.
  intros Hstep Hfar Hfetch.
  unfold reconcileAndApply, processProviderTransactions, bind.
  destruct (validatedLastProcessedBlock h p safe w) as [c w1] eqn:Hval.
  destruct (validatedLastProcessedBlock_any _ _ _ _ _ _ Hval)
    as [[Hbooks Hc] | (Hout & _)]; [| lia].
  destruct c as [b | e]; [| exact Hbooks].
  rewrite (Hc b eq_refl) in *.
  destruct (reconcileFrom_fetched h p lookup safe (watermark w p) w1 []
              ltac:(lia) (Hfetch w1)) as (w2 & -> & Hb2 & _).
  unfold applyReconciled. simpl.
  destruct (Z.geb_spec (Z.min (watermark w p + 1 + CONSERVATIVE_BLOCK_ADVANCE (config h))
                          safe) safe); [lia |].
  simpl. eapply sameBooks_trans; eassumption.
Qed.

(** C9 fails on the code. A provider at block 0 whose fetches are always
    empty, under the safe height 1000 and the default step of 100, is
    still at block 0 after any number of runs: each run computes block
    101, logs a conservative advance, and writes nothing, because 101 is
    short of the safe height. *)
Theorem empty_provider_stalls_below_safe_height :
  forall n, watermark (runs n (hostOver []) abc members 1000 emptyWorld) abc = 0.
Proof.
  assert (Hinv : forall n w, sameBooks emptyWorld w ->
            sameBooks emptyWorld (runs n (hostOver []) abc members 1000 w)).
  { induction n as [| n IH]; intros w Hw; [exact Hw |].
    simpl. apply IH. eapply sameBooks_trans; [exact Hw |].
    apply conservative_advance_not_persisted.
    - vm_compute; discriminate.
    - rewrite (sameBooks_watermark _ _ _ Hw). vm_compute; reflexivity.
    - intros v. reflexivity. }
  intros n. rewrite (sameBooks_watermark _ _ _ (Hinv n emptyWorld (sameBooks_refl _))).
  reflexivity.
Qed.

(** ** Advancing over fetched transactions *)

(** C4. When the fetch over the range returns at least one transaction,
    the returned block is the smaller of [maxBlockSeen] and the safe
    height, [maxBlockSeen] being the highest block among the fetched
    transactions of the range, members of the allow-list or not, and the
    returned transactions are those of the range whose sender is in the
    allow-list. In the scenario of the specification (watermark 0, safe
    height 100, transfers at blocks 10, 50 and 90, the second from a
    stranger) reconciliation returns the transfers of blocks 10 and 90
    with block 90, and the loop records exactly these two and leaves the
    watermark at 90. *)
Theorem fetched_transactions_advance_to_max_block_seen h p lookup safe w txs :
  validationCompletes h w p safe ->
  validatedBlock (watermark w p) safe + 1 <= safe ->
  fetchUsdcTransactions h (wallet_address p)
    (validatedBlock (watermark w p) safe + 1) safe w = (Returned (Some txs), w) ->
  txs <> [] ->
  (exists w2,
     processProviderTransactions h p lookup safe w =
       (Returned
          {| validTransactions :=
               newTransactionsOf p lookup
                 (validatedBlock (watermark w p) safe + 1) safe txs;
             lastProcessedBlock :=
               Z.min (maxBlockSeenOf (validatedBlock (watermark w p) safe + 1) safe txs)
                     safe;
             reachedSafeHeight :=
               (Z.min (maxBlockSeenOf (validatedBlock (watermark w p) safe + 1) safe txs)
                      safe >=? safe) |}, w2))
  /\ map Valid.blockNumber
       (validTransactions reconciled3) = [10; 90]
  /\ fst (processProviderTransactions (nodeHostOver chain3) abc members 100 emptyWorld)
     = Returned reconciled3
  /\ map block_number
       (hypermap_transactions
          (snd (reconcileAndApply (nodeHostOver chain3) abc members 100 emptyWorld)))
     = [10; 90]
  /\ watermark (snd (reconcileAndApply (nodeHostOver chain3) abc members 100 emptyWorld)) abc
     = 90.
Proof.
  intros Hcompletes Hle Hfetch Hne.
  split; [| repeat split; vm_compute; reflexivity].
  destruct (validatedLastProcessedBlock_returns h p safe w Hcompletes) as [w1 Hval].
  destruct (fetchUsdcTransactions_pure _ _ _ _ _ _ _ Hfetch) as [_ Hany].
  destruct (reconcileFrom_fetched h p lookup safe _ w1 txs Hle (Hany w1))
    as (w2 & Heq & _).
  exists w2. unfold processProviderTransactions, bind. rewrite Hval, Heq.
  destruct txs; [done | reflexivity].
Qed.

Lemma fetched_transactions_advance_to_max_block_seen_witness :
  validationCompletes (nodeHostOver chain3) emptyWorld abc 100
  /\ validatedBlock (watermark emptyWorld abc) 100 + 1 <= 100
  /\ fetchUsdcTransactions (nodeHostOver chain3) (wallet_address abc)
       (validatedBlock (watermark emptyWorld abc) 100 + 1) 100 emptyWorld
     = (Returned (Some chain3), emptyWorld)
  /\ chain3 <> []
  /\ exists w2,
       processProviderTransactions (nodeHostOver chain3) abc members 100 emptyWorld =
         (Returned
            {| validTransactions := newTransactionsOf abc members 1 100 chain3;
               lastProcessedBlock := 90;
               reachedSafeHeight := false |}, w2).
Proof.
  assert (H1 : validationCompletes (nodeHostOver chain3) emptyWorld abc 100).
  { split; [reflexivity |]. left. vm_compute. discriminate. }
  assert (H2 : validatedBlock (watermark emptyWorld abc) 100 + 1 <= 100)
    by (vm_compute; discriminate).
  assert (H3 : fetchUsdcTransactions (nodeHostOver chain3) (wallet_address abc)
                 (validatedBlock (watermark emptyWorld abc) 100 + 1) 100 emptyWorld
               = (Returned (Some chain3), emptyWorld))
    by (vm_compute; reflexivity).
  assert (H4 : chain3 <> []) by discriminate.
  split; [exact H1 |]. split; [exact H2 |]. split; [exact H3 |]. split; [exact H4 |].
  destruct (proj1 (fetched_transactions_advance_to_max_block_seen (nodeHostOver chain3) abc
                     members 100 emptyWorld chain3 H1 H2 H3 H4)) as [w2 Hrun].
  exists w2. exact Hrun.
Defined.

(** ** Transactions outside the range *)

Section Discard.
Variables (P : Raw.t -> bool).

Lemma insertByBlock_head x l :
  Forall (blockLe x) l -> insertByBlock x l = x :: l.
Proof.
  destruct l as [| y l]; [reflexivity |].
  intros H. apply Forall_inv in H. unfold blockLe in H. simpl.
  destruct (Z.leb_spec (Raw.blockNumber x) (Raw.blockNumber y)); [reflexivity | lia].
Qed.

Lemma Forall_insertByBlock (Q : Raw.t -> Prop) x l :
  Q x -> Forall Q l -> Forall Q (insertByBlock x l).
Proof.
  intros Hx. induction 1 as [| y l Hy Hl IH]; simpl.
  - by constructor.
  - destruct (Raw.blockNumber x <=? Raw.blockNumber y); repeat constructor; done.
Qed.

Lemma Forall_filter_keep (Q : Raw.t -> Prop) l :
  Forall Q l -> Forall Q (List.filter P l).
Proof.
  induction 1 as [| y l Hy Hl IH]; simpl; [constructor |].
  destruct (P y); [by constructor | done].
Qed.

Lemma insertByBlock_sorted x l :
  StronglySorted blockLe l -> StronglySorted blockLe (insertByBlock x l).
Proof.
  induction 1 as [| y l Hs IH Hy]; simpl.
  - repeat constructor.
  - destruct (Z.leb_spec (Raw.blockNumber x) (Raw.blockNumber y)) as [Hle | Hgt].
    + constructor; [by constructor |].
      constructor; [exact Hle |].
      eapply Forall_impl; [exact Hy |]. unfold blockLe. intros; lia.
    + constructor; [exact IH |].
      apply Forall_insertByBlock; [unfold blockLe; lia | exact Hy].
Qed.

Lemma sortByBlockNumber_sorted l : StronglySorted blockLe (sortByBlockNumber l).
Proof.
  induction l as [| x l IH]; simpl; [constructor | by apply insertByBlock_sorted].
Qed.

Lemma filter_insertByBlock_drop x l :
  P x = false -> List.filter P (insertByBlock x l) = List.filter P l.
Proof.
  intros Hx. induction l as [| y l IH]; simpl; [by rewrite Hx |].
  destruct (Raw.blockNumber x <=? Raw.blockNumber y); simpl.
  - by rewrite Hx.
  - by rewrite IH.
Qed.

Lemma filter_insertByBlock_keep x l :
  StronglySorted blockLe l -> P x = true ->
  List.filter P (insertByBlock x l) = insertByBlock x (List.filter P l).
Proof.
  intros Hs Hx. induction Hs as [| y l Hs IH Hy]; simpl; [by rewrite Hx |].
  destruct (Z.leb_spec (Raw.blockNumber x) (Raw.blockNumber y)) as [Hle | Hgt].
  - simpl. rewrite Hx. destruct (P y) eqn:Hpy.
    + simpl. destruct (Z.leb_spec (Raw.blockNumber x) (Raw.blockNumber y));
        [reflexivity | lia].
    + rewrite insertByBlock_head; [reflexivity |].
      apply Forall_filter_keep. eapply Forall_impl; [exact Hy |].
      unfold blockLe. intros; lia.
  - simpl. destruct (P y) eqn:Hpy.
    + simpl. destruct (Z.leb_spec (Raw.blockNumber x) (Raw.blockNumber y));
        [lia |]. by rewrite IH.
    + exact IH.
Qed.

(** Restricting to a range commutes with the sort. *)
Lemma filter_sortByBlockNumber l :
  List.filter P (sortByBlockNumber l) = sortByBlockNumber (List.filter P l).
Proof.
  induction l as [| x l IH]; [reflexivity |]. simpl.
  destruct (P x) eqn:Hx.
  - rewrite filter_insertByBlock_keep by (apply sortByBlockNumber_sorted || done).
    simpl. by rewrite IH.
  - by rewrite filter_insertByBlock_drop.
Qed.

Lemma filter_idempotent l : List.filter P (List.filter P l) = List.filter P l.
Proof.
  induction l as [| x l IH]; [reflexivity |]. simpl.
  destruct (P x) eqn:Hx; simpl; by rewrite ?Hx, IH.
Qed.
End Discard.

Lemma newTransactionsOf_inRange_only p lookup fromBlock safe txs :
  newTransactionsOf p lookup fromBlock safe (List.filter (inRange fromBlock safe) txs)
  = newTransactionsOf p lookup fromBlock safe txs.
Proof.
  unfold newTransactionsOf.
  by rewrite <- filter_sortByBlockNumber, filter_idempotent.
Qed.

Lemma maxBlockSeenOf_inRange_only fromBlock safe txs :
  maxBlockSeenOf fromBlock safe (List.filter (inRange fromBlock safe) txs)
  = maxBlockSeenOf fromBlock safe txs.
Proof. unfold maxBlockSeenOf. by rewrite filter_idempotent. Qed.

Lemma newTransactionsOf_blocks p lookup fromBlock safe txs v :
  In v (newTransactionsOf p lookup fromBlock safe txs) ->
  fromBlock <= Valid.blockNumber v <= safe.
Proof.
  unfold newTransactionsOf, matched. rewrite <- list_elem_of_In.
  rewrite list_elem_of_omap. intros (tx & Hin & Hv).
  apply list_elem_of_In, filter_In in Hin as [_ Hrange].
  destruct (lookup !! toLowerCase (Raw.from tx)) as [info |]; [| discriminate].
  injection Hv as <-. simpl. unfold inRange in Hrange.
  apply andb_true_iff in Hrange as [H1 H2]. apply Z.leb_le in H1, H2. lia.
Qed.

Lemma scanWarnings_before fromBlock safe txs :
  fromBlock <= safe + 1 ->
  scanWarnings fromBlock safe txs = beforeFromBlockWarnings fromBlock txs.
Proof.
  intros Hle.
  induction txs as [| tx txs IH]; [reflexivity |].
  unfold scanWarnings, beforeFromBlockWarnings in *. simpl.
  destruct (Z.gtb_spec (Raw.blockNumber tx) safe),
           (Z.ltb_spec (Raw.blockNumber tx) fromBlock); simpl; try lia;
    first [exact IH | f_equal; exact IH].
Qed.

Lemma insertAll_rows p txs table row :
  In row (insertAll p txs table) ->
  In row table \/ exists tx, In tx txs /\ row = transactionRow p tx.
Proof.
  revert table. induction txs as [| tx txs IH]; intros table; simpl; [by left |].
  intros H. apply IH in H as [H | (tx' & Hin & ->)].
  - unfold insertTransactionRow in H.
    destruct (existsb _ table); [by left |].
    apply in_app_or in H as [H | [<- | []]]; [by left |].
    right. exists tx. by split; [left |].
  - right. exists tx'. by split; [right |].
Qed.

(** What the loop applies leaves the ledger as it was or adds the batch. *)
Lemma applyReconciled_ledger h p r w :
  hypermap_transactions (snd (applyReconciled h p r w)) = hypermap_transactions w
  \/ hypermap_transactions (snd (applyReconciled h p r w))
     = insertAll p (validTransactions r) (hypermap_transactions w).
Proof.
  destruct (validTransactions r) as [| tx rest] eqn:Hv.
  - left. rewrite (applyReconciled_no_batch h p r w Hv).
    destruct (reachedSafeHeight r); [| reflexivity].
    destruct (updateLastProcessedBlock h p (lastProcessedBlock r) w)
      as [[[] | e] w'] eqn:Hup; simpl.
    + by apply updateLastProcessedBlock_returned in Hup as [_ ->].
    + by apply updateLastProcessedBlock_thrown in Hup as ->.
  - rewrite <- Hv.
    destruct (applyReconciled_outcome h p r w) as
      [(u & f & l & hs & ->) | [-> | ->]].
    + by rewrite Hv.
    + by right.
    + by left.
    + by right.
Qed.

(** C8, as the code has it. Whatever the fetch returns, reconciliation
    does not fail on it. A fetched transaction below [fromBlock] is
    dropped with a warning; one above the safe height is dropped without
    a warning. Every returned transaction lies in the range, and so does
    every row that the loop then adds to the ledger. The returned
    transactions and [maxBlockSeen] are those of the fetch with the
    out-of-range transactions taken out, and so is the returned block as
    soon as one fetched transaction lies in the range. *)
Theorem out_of_range_transactions_are_discarded h p lookup safe b w txs :
  b + 1 <= safe ->
  fetchUsdcTransactions h (wallet_address p) (b + 1) safe w = (Returned (Some txs), w) ->
  let kept := List.filter (inRange (b + 1) safe) txs in
  exists r w',
    reconcileFrom h p lookup safe b w = (Returned r, w')
    /\ console_warn w'
       = console_warn w ++ beforeFromBlockWarnings (b + 1) (sortByBlockNumber txs)
    /\ (forall v, In v (validTransactions r) -> b + 1 <= Valid.blockNumber v <= safe)
    /\ validTransactions r = newTransactionsOf p lookup (b + 1) safe kept
    /\ maxBlockSeenOf (b + 1) safe txs = maxBlockSeenOf (b + 1) safe kept
    /\ (kept <> [] ->
        lastProcessedBlock r = Z.min (maxBlockSeenOf (b + 1) safe kept) safe)
    /\ (forall row,
          In row (hypermap_transactions (snd (applyReconciled h p r w'))) ->
          In row (hypermap_transactions w) \/ b + 1 <= block_number row <= safe).
Proof.
  intros Hle Hfetch kept.
  destruct (reconcileFrom_fetched h p lookup safe b w txs Hle Hfetch)
    as (w' & Heq & Hbooks & _ & Hwarn).
  eexists. exists w'. split; [exact Heq |]. simpl.
  split; [| split; [| split; [| split; [| split]]]].
  - rewrite Hwarn. by rewrite scanWarnings_before by lia.
  - apply newTransactionsOf_blocks.
  - subst kept. by rewrite newTransactionsOf_inRange_only.
  - subst kept. by rewrite maxBlockSeenOf_inRange_only.
  - intros Hkept. subst kept. rewrite maxBlockSeenOf_inRange_only.
    destruct txs; [done | reflexivity].
  - intros row Hrow.
    match type of Hrow with
    | In _ (hypermap_transactions (snd (applyReconciled _ _ ?r _))) =>
        destruct (applyReconciled_ledger h p r w') as [Hl | Hl]
    end; rewrite Hl in Hrow.
    + left. destruct Hbooks as [_ Hb]. by rewrite <- Hb.
    + apply insertAll_rows in Hrow as [Hrow | (tx & Hin & ->)].
      * left. destruct Hbooks as [_ Hb]. by rewrite <- Hb.
      * right. simpl in Hin. apply newTransactionsOf_blocks in Hin. exact Hin.
Qed.

Lemma out_of_range_transactions_are_discarded_witness :
  10 + 1 <= 100
  /\ fetchUsdcTransactions
       (hostAnswering [lateTransfer; transfer "0xt2" 50 "0xb0b"; staleTransfer])
       (wallet_address abc) (10 + 1) 100 (worldAt 10)
     = (Returned (Some [lateTransfer; transfer "0xt2" 50 "0xb0b"; staleTransfer]),
        worldAt 10)
  /\ exists r w',
       reconcileFrom
         (hostAnswering [lateTransfer; transfer "0xt2" 50 "0xb0b"; staleTransfer])
         abc members 100 10 (worldAt 10) = (Returned r, w')
       /\ console_warn w' = [BeforeFromBlock "0xstale" 5 11]
       /\ lastProcessedBlock r = 50.
Proof.
  assert (H1 : 10 + 1 <= 100) by lia.
  assert (H2 : fetchUsdcTransactions
       (hostAnswering [lateTransfer; transfer "0xt2" 50 "0xb0b"; staleTransfer])
       (wallet_address abc) (10 + 1) 100 (worldAt 10)
     = (Returned (Some [lateTransfer; transfer "0xt2" 50 "0xb0b"; staleTransfer]),
        worldAt 10)) by (vm_compute; reflexivity).
  split; [exact H1 |]. split; [exact H2 |].
  destruct (out_of_range_transactions_are_discarded
              (hostAnswering [lateTransfer; transfer "0xt2" 50 "0xb0b"; staleTransfer])
              abc members 100 10 (worldAt 10)
              [lateTransfer; transfer "0xt2" 50 "0xb0b"; staleTransfer] H1 H2)
    as (r & w' & Hrun & Hwarn & _ & _ & _ & Hblock & _).
  exists r, w'. split; [exact Hrun |]. split.
  - rewrite Hwarn. vm_compute; reflexivity.
  - rewrite Hblock; [vm_compute; reflexivity | vm_compute; discriminate].
Defined.

(** C8, as stated, fails. A transaction at block 200, above the safe
    height 100, is dropped and nothing is written to [console.warn]. And a
    dropped transaction does weigh on how far the watermark moves when it
    is the only one fetched: with the stale transaction of block 5 the
    provider stays at block 10, while with nothing fetched it moves to
    block 100. *)
Lemma discard_counterexample :
  fst (processProviderTransactions (hostAnswering [lateTransfer]) abc members 100
         (worldAt 10))
    = Returned {| validTransactions := [];
                  lastProcessedBlock := 10;
                  reachedSafeHeight := false |}
  /\ console_warn
       (snd (processProviderTransactions (hostAnswering [lateTransfer]) abc members 100
               (worldAt 10))) = []
  /\ fst (processProviderTransactions (hostAnswering [staleTransfer]) abc members 100
            (worldAt 10))
     = Returned {| validTransactions := [];
                   lastProcessedBlock := 10;
                   reachedSafeHeight := false |}
  /\ fst (processProviderTransactions (hostAnswering []) abc members 100 (worldAt 10))
     = Returned {| validTransactions := [];
                   lastProcessedBlock := 100;
                   reachedSafeHeight := true |}.
Proof. repeat split; vm_compute; reflexivity. Qed.

(** ** Running twice over the same chain *)







Lemma aggregates_upsertLastProcessedBlock p b hash w :
  aggregates (with_leaderboard (upsertLastProcessedBlock p b hash) w) p = aggregates w p.
Proof.
  unfold aggregates, currentStatsOf, with_leaderboard, upsertLastProcessedBlock; simpl.
  destruct (provider_leaderboard w !! namehash p); by rewrite lookup_insert_eq.
Qed.












(** The second pair of the scenario computes block 100 over the empty
    blocks 91 to 100 and calls [updateLastProcessedBlock], which stops at
    [require]: the watermark stays at 90. *)
Example second_run_stops_at_unbound_require :
  fst (processProviderTransactions (nodeHostOver chain3) abc members 100
         (runs 1 (nodeHostOver chain3) abc members 100 emptyWorld))
  = Returned {| validTransactions := [];
                lastProcessedBlock := 100;
                reachedSafeHeight := true |}
  /\ fst (reconcileAndApply (nodeHostOver chain3) abc members 100
            (runs 1 (nodeHostOver chain3) abc members 100 emptyWorld))
     = Thrown (ReferenceError "require")
  /\ watermark (runs 2 (nodeHostOver chain3) abc members 100 emptyWorld) abc = 90.
Proof. repeat split; vm_compute; reflexivity. Qed.


(** * Further properties of the tracker *)

(** ** The explorer adapter *)

Lemma fetchAttempt_only_to_wallet reply wallet rows :
  fetchAttempt reply wallet = Returned rows ->
  Forall (fun tx => toLowerCase (Raw.to tx) = toLowerCase wallet) rows.
Proof.
  destruct reply as [status message result | reason]; simpl; [| discriminate].
  destruct (String.eqb status "1").
  - destruct result as [answered | text]; [| discriminate].
    intros [= <-]. apply List.Forall_forall. intros tx Hin.
    apply filter_In in Hin as [_ Hto]. by apply String.eqb_eq in Hto.
  - destruct (_ && _); [| discriminate]. intros [= <-]. constructor.
Qed.

Lemma fetchRetry_returned replies wallet n a r rows :
  fetchRetry replies wallet n a r = Returned (Some rows) ->
  exists k, (a <= k)%nat /\ fetchAttempt (replies k) wallet = Returned rows.
Proof.
  revert a. induction r as [| r IH]; intros a; simpl; [discriminate |].
  destruct (fetchAttempt (replies a) wallet) as [answered | e] eqn:Hattempt.
  - intros [= <-]. exists a. by split.
  - destruct (a =? n)%nat; [discriminate |].
    intros H. apply IH in H as (k & Hk & Hrows). exists k. split; [lia | done].
Qed.

Lemma fetchRetry_first_success replies wallet n a r k rows :
  (a + r = n + 1)%nat ->
  (a <= k <= n)%nat ->
  (forall i, (a <= i < k)%nat ->
             exists err, fetchAttempt (replies i) wallet = Thrown err) ->
  fetchAttempt (replies k) wallet = Returned rows ->
  fetchRetry replies wallet n a r = Returned (Some rows).
Proof.
  revert a. induction r as [| r IH]; intros a Hsum Hk Hfail Hok; [lia |].
  simpl. destruct (Nat.eq_dec a k) as [-> | Hne].
  - by rewrite Hok.
  - destruct (Hfail a ltac:(lia)) as [err ->].
    destruct (Nat.eqb_spec a n); [lia |].
    apply IH; [lia | lia | | done]. intros i Hi. apply Hfail. lia.
Qed.

Lemma fetchRetry_all_fail replies wallet n a r e :
  (a + r = n + 1)%nat ->
  (1 <= r)%nat ->
  (forall i, (a <= i <= n)%nat ->
             exists err, fetchAttempt (replies i) wallet = Thrown err) ->
  fetchAttempt (replies n) wallet = Thrown e ->
  fetchRetry replies wallet n a r = Thrown e.
Proof.
  revert a. induction r as [| r IH]; intros a Hsum Hr Hfail Hlast; [lia |].
  simpl. destruct (Hfail a ltac:(lia)) as [err Herr]. rewrite Herr.
  destruct (Nat.eqb_spec a n) as [-> | Hne].
  - rewrite Hlast in Herr. by injection Herr as ->.
  - apply IH; [lia | lia | | done]. intros i Hi. apply Hfail. lia.
Qed.

(** X1. Whatever the explorer answers, every transfer that
    [fetchUsdcTransactions] returns is addressed to the wallet it was
    asked about, letter case apart. *)
Theorem fetchUsdcTransactions_only_to_wallet h wallet fromBlock endBlock w txs v :
  fetchUsdcTransactions h wallet fromBlock endBlock w = (Returned (Some txs), v) ->
  Forall (fun tx => toLowerCase (Raw.to tx) = toLowerCase wallet) txs.
Proof.
  unfold fetchUsdcTransactions.
  destruct (fetchRetry _ _ _ _ _) as [[rows |] | e] eqn:Hretry; try discriminate.
  intros [= <- _]. apply fetchRetry_returned in Hretry as (k & _ & Hattempt).
  by apply fetchAttempt_only_to_wallet in Hattempt.
Qed.

Lemma fetchUsdcTransactions_only_to_wallet_witness :
  fetchUsdcTransactions (hostOver chain3) "0xABC" 1 100 emptyWorld
    = (Returned (Some chain3), emptyWorld)
  /\ Forall (fun tx => toLowerCase (Raw.to tx) = toLowerCase "0xABC") chain3.
Proof.
  assert (H : fetchUsdcTransactions (hostOver chain3) "0xABC" 1 100 emptyWorld
              = (Returned (Some chain3), emptyWorld)) by (vm_compute; reflexivity).
  split; [exact H |].
  exact (fetchUsdcTransactions_only_to_wallet (hostOver chain3) "0xABC" 1 100
           emptyWorld chain3 emptyWorld H).
Defined.

(** X2. The first attempt that succeeds decides the result: when the
    attempts before the [k]-th fail and the [k]-th, within [MAX_RETRIES],
    answers, [fetchUsdcTransactions] returns the rows of that answer and
    leaves the world alone. *)
Theorem fetchUsdcTransactions_first_success h wallet fromBlock endBlock w k rows :
  (1 <= k <= MAX_RETRIES (config h))%nat ->
  (forall i, (1 <= i < k)%nat ->
     exists err,
       fetchAttempt (etherscan h wallet fromBlock endBlock i) wallet = Thrown err) ->
  fetchAttempt (etherscan h wallet fromBlock endBlock k) wallet = Returned rows ->
  fetchUsdcTransactions h wallet fromBlock endBlock w = (Returned (Some rows), w).
Proof.
  intros Hk Hfail Hok. unfold fetchUsdcTransactions.
  by rewrite (fetchRetry_first_success _ wallet (MAX_RETRIES (config h)) 1
                (MAX_RETRIES (config h)) k rows ltac:(lia) Hk Hfail Hok).
Qed.

(** X3. When every attempt up to [MAX_RETRIES] fails,
    [fetchUsdcTransactions] throws the error of the last attempt; it
    makes no further attempt and leaves the world alone. *)
Theorem fetchUsdcTransactions_gives_up h wallet fromBlock endBlock w e :
  (1 <= MAX_RETRIES (config h))%nat ->
  (forall i, (1 <= i <= MAX_RETRIES (config h))%nat ->
     exists err,
       fetchAttempt (etherscan h wallet fromBlock endBlock i) wallet = Thrown err) ->
  fetchAttempt (etherscan h wallet fromBlock endBlock (MAX_RETRIES (config h))) wallet
    = Thrown e ->
  fetchUsdcTransactions h wallet fromBlock endBlock w = (Thrown e, w).
Proof.
  intros Hn Hfail Hlast. unfold fetchUsdcTransactions.
  by rewrite (fetchRetry_all_fail _ wallet (MAX_RETRIES (config h)) 1
                (MAX_RETRIES (config h)) e ltac:(lia) Hn Hfail Hlast).
Qed.

Lemma fetchUsdcTransactions_first_success_witness :
  (1 <= 2 <= MAX_RETRIES (config (flakyHostOver chain3)))%nat
  /\ fetchUsdcTransactions (flakyHostOver chain3) "0xABC" 1 100 emptyWorld
     = (Returned (Some chain3), emptyWorld).
Proof.
  assert (H1 : (1 <= 2 <= MAX_RETRIES (config (flakyHostOver chain3)))%nat)
    by (vm_compute; split; repeat constructor).
  split; [exact H1 |].
  apply (fetchUsdcTransactions_first_success (flakyHostOver chain3) "0xABC" 1 100
           emptyWorld 2 chain3 H1).
  - intros i Hi. assert (i = 1%nat) as -> by lia. by eexists.
  - vm_compute; reflexivity.
Defined.

Lemma fetchUsdcTransactions_gives_up_witness :
  (1 <= MAX_RETRIES (config busyHost))%nat
  /\ fetchUsdcTransactions busyHost "0xABC" 1 100 emptyWorld
     = (Thrown (ApiRequestFailed "NOTOK"), emptyWorld).
Proof.
  assert (H1 : (1 <= MAX_RETRIES (config busyHost))%nat)
    by (vm_compute; repeat constructor).
  split; [exact H1 |].
  apply (fetchUsdcTransactions_gives_up busyHost "0xABC" 1 100 emptyWorld
           (ApiRequestFailed "NOTOK") H1).
  - intros i Hi. by eexists.
  - reflexivity.
Defined.

(** ** The order of the scan *)

Lemma insertByBlock_Permutation x l : Permutation (insertByBlock x l) (x :: l).
Proof.
  induction l as [| y l IH]; simpl; [reflexivity |].
  destruct (Raw.blockNumber x <=? Raw.blockNumber y); [reflexivity |].
  rewrite IH. apply perm_swap.
Qed.

Lemma sortByBlockNumber_Permutation l : Permutation (sortByBlockNumber l) l.
Proof.
  induction l as [| x l IH]; simpl; [reflexivity |].
  rewrite insertByBlock_Permutation. by constructor.
Qed.

Lemma sortByBlockNumber_same_block b l :
  Forall (fun tx => Raw.blockNumber tx = b) l -> sortByBlockNumber l = l.
Proof.
  induction 1 as [| x l Hx Hl IH]; simpl; [reflexivity |].
  rewrite IH. apply insertByBlock_head.
  eapply Forall_impl; [exact Hl |]. unfold blockLe. intros y Hy. simpl in Hy. lia.
Qed.

(** X4. The transactions are scanned in ascending order of block, none is
    added or lost by the sort, and transfers of one block keep the order
    in which the explorer answered them. *)
Theorem sortByBlockNumber_ascending_stable l :
  Permutation (sortByBlockNumber l) l
  /\ StronglySorted blockLe (sortByBlockNumber l)
  /\ forall b,
       List.filter (fun tx => Raw.blockNumber tx =? b) (sortByBlockNumber l)
       = List.filter (fun tx => Raw.blockNumber tx =? b) l.
Proof.
  split; [apply sortByBlockNumber_Permutation |].
  split; [apply sortByBlockNumber_sorted |].
  intros b. rewrite filter_sortByBlockNumber.
  apply (sortByBlockNumber_same_block b).
  apply List.Forall_forall. intros tx Hin.
  apply filter_In in Hin as [_ Hb]. by apply Z.eqb_eq in Hb.
Qed.

(** ** The transactions a reconciliation returns *)

Lemma matched_In p lookup txs v :
  In v (matched p lookup txs) <->
  exists tx info, In tx txs
    /\ lookup !! toLowerCase (Raw.from tx) = Some info
    /\ v = validTransaction p tx info.
Proof.
  unfold matched. rewrite <- list_elem_of_In, list_elem_of_omap. split.
  - intros (tx & Hin & Hv). apply list_elem_of_In in Hin.
    destruct (lookup !! toLowerCase (Raw.from tx)) as [info |] eqn:Hl; [| discriminate].
    injection Hv as <-. by exists tx, info.
  - intros (tx & info & Hin & Hl & ->). exists tx.
    split; [by apply list_elem_of_In |]. by rewrite Hl.
Qed.

(** X5. A reconciliation that gets its fetch returns exactly the fetched
    transfers of the range whose sender, in lower case, is a key of the
    allow-list, each turned into a record with the provider's id and the
    member's name: none of them is left out and nothing else comes in. *)
Theorem returned_transactions_are_the_member_transfers h p lookup safe b w txs r w' :
  b + 1 <= safe ->
  fetchUsdcTransactions h (wallet_address p) (b + 1) safe w = (Returned (Some txs), w) ->
  reconcileFrom h p lookup safe b w = (Returned r, w') ->
  forall v,
    In v (validTransactions r) <->
    exists tx info,
      In tx txs
      /\ b + 1 <= Raw.blockNumber tx <= safe
      /\ lookup !! toLowerCase (Raw.from tx) = Some info
      /\ v = validTransaction p tx info.
Proof.
  intros Hle Hfetch Hrun v.
  destruct (reconcileFrom_fetched h p lookup safe b w txs Hle Hfetch) as (w2 & Heq & _).
  rewrite Heq in Hrun. injection Hrun as <- _. simpl.
  unfold newTransactionsOf. rewrite matched_In.
  split; intros (tx & info & Hin & H).
  - apply filter_In in Hin as [Hin Hrange].
    apply (Permutation_in _ (sortByBlockNumber_Permutation txs)) in Hin.
    unfold inRange in Hrange. apply andb_true_iff in Hrange as [H1 H2].
    apply Z.leb_le in H1, H2. destruct H as [Hl ->].
    exists tx, info. repeat split; try done; lia.
  - destruct H as (Hrange & Hl & ->). exists tx, info. split; [| done].
    apply filter_In. split.
    + apply (Permutation_in _ (Permutation_sym (sortByBlockNumber_Permutation txs))).
      exact Hin.
    + unfold inRange. apply andb_true_iff. split; apply Z.leb_le; lia.
Qed.

Lemma returned_transactions_are_the_member_transfers_witness :
  0 + 1 <= 100
  /\ fetchUsdcTransactions (hostOver chain3) (wallet_address abc) (0 + 1) 100 emptyWorld
     = (Returned (Some chain3), emptyWorld)
  /\ exists r w',
       reconcileFrom (hostOver chain3) abc members 100 0 emptyWorld = (Returned r, w')
       /\ In (validTransaction abc (transfer "0xt3" 90 "0xb0b")
                {| fullName := "bob.os"; tba_namehash := "0x02" |})
             (validTransactions r).
Proof.
  assert (H1 : 0 + 1 <= 100) by lia.
  assert (H2 : fetchUsdcTransactions (hostOver chain3) (wallet_address abc) (0 + 1) 100
                 emptyWorld = (Returned (Some chain3), emptyWorld))
    by (vm_compute; reflexivity).
  split; [exact H1 |]. split; [exact H2 |].
  destruct (reconcileFrom (hostOver chain3) abc members 100 0 emptyWorld)
    as [[r | e] w'] eqn:Hrun; [| vm_compute in Hrun; discriminate Hrun].
  exists r, w'. split; [reflexivity |].
  apply (returned_transactions_are_the_member_transfers (hostOver chain3) abc members
           100 0 emptyWorld chain3 r w' H1 H2 Hrun).
  exists (transfer "0xt3" 90 "0xb0b"), {| fullName := "bob.os"; tba_namehash := "0x02" |}.
  split; [right; right; by left |].
  split; [vm_compute; split; discriminate |].
  split; [vm_compute; reflexivity | reflexivity].
Defined.

Lemma StronglySorted_filter_keep {A} (R : A -> A -> Prop) (P : A -> bool) l :
  StronglySorted R l -> StronglySorted R (List.filter P l).
Proof.
  induction 1 as [| x l Hs IH Hx]; simpl; [constructor |].
  destruct (P x); [| exact IH]. constructor; [exact IH |].
  apply List.Forall_forall. intros y Hy. apply filter_In in Hy as [Hy _].
  by apply (proj1 (List.Forall_forall _ _) Hx).
Qed.

Lemma matched_sorted p lookup l :
  StronglySorted blockLe l -> StronglySorted validBlockLe (matched p lookup l).
Proof.
  induction 1 as [| x l Hs IH Hx]; [constructor |].
  change (matched p lookup (x :: l))
    with (match validTransaction p x <$> lookup !! toLowerCase (Raw.from x) with
          | Some v => v :: matched p lookup l
          | None => matched p lookup l
          end).
  destruct (lookup !! toLowerCase (Raw.from x)) as [info |]; simpl; [| exact IH].
  constructor; [exact IH |].
  apply List.Forall_forall. intros v Hv.
  apply matched_In in Hv as (tx & info' & Hin & _ & ->).
  unfold validBlockLe. simpl.
  by apply (proj1 (List.Forall_forall _ _) Hx).
Qed.

(** X6. The transactions that [processProviderTransactions] returns are
    in ascending order of block, so the first element of the batch, whose
    block the statistics query takes as the start of the batch, carries
    its lowest block. *)
Theorem returned_transactions_ascending h p lookup safe b w r w' :
  reconcileFrom h p lookup safe b w = (Returned r, w') ->
  StronglySorted validBlockLe (validTransactions r)
  /\ forall first rest,
       validTransactions r = first :: rest ->
       Forall (fun v => Valid.blockNumber first <= Valid.blockNumber v) rest.
Proof.
  intros Hrun.
  assert (Hsorted : StronglySorted validBlockLe (validTransactions r)).
  { destruct (Z.le_gt_cases (b + 1) safe) as [Hle | Hgt].
    - destruct (fetchUsdcTransactions h (wallet_address p) (b + 1) safe w)
        as [[[txs |] | e] v] eqn:Hfetch.
      + destruct (fetchUsdcTransactions_pure _ _ _ _ _ _ _ Hfetch) as [-> _].
        destruct (reconcileFrom_fetched h p lookup safe b w txs Hle Hfetch)
          as (w2 & Heq & _).
        rewrite Heq in Hrun. injection Hrun as <- _. simpl.
        unfold newTransactionsOf. apply matched_sorted, StronglySorted_filter_keep.
        apply sortByBlockNumber_sorted.
      + unfold reconcileFrom in Hrun.
        destruct (Z.gtb_spec (b + 1) safe); [lia |].
        unfold bind in Hrun. rewrite Hfetch in Hrun. discriminate.
      + unfold reconcileFrom in Hrun.
        destruct (Z.gtb_spec (b + 1) safe); [lia |].
        unfold bind in Hrun. rewrite Hfetch in Hrun. discriminate.
    - unfold reconcileFrom in Hrun.
      destruct (Z.gtb_spec (b + 1) safe); [| lia].
      injection Hrun as <- _. simpl. constructor. }
  split; [exact Hsorted |].
  intros first rest Heq. rewrite Heq in Hsorted.
  apply StronglySorted_inv in Hsorted as [_ Hall]. exact Hall.
Qed.

Lemma returned_transactions_ascending_witness :
  reconcileFrom (hostOver chain3) abc members 100 0 emptyWorld
    = (Returned reconciled3,
       snd (reconcileFrom (hostOver chain3) abc members 100 0 emptyWorld))
  /\ StronglySorted validBlockLe (validTransactions reconciled3).
Proof.
  assert (H : reconcileFrom (hostOver chain3) abc members 100 0 emptyWorld
              = (Returned reconciled3,
                 snd (reconcileFrom (hostOver chain3) abc members 100 0 emptyWorld)))
    by (vm_compute; reflexivity).
  split; [exact H |].
  exact (proj1 (returned_transactions_ascending (hostOver chain3) abc members 100 0
                  emptyWorld reconciled3 _ H)).
Defined.

(** ** The transaction ledger *)

Lemma hash_on_record row table :
  existsb (fun r => String.eqb (tx_hash r) (tx_hash row)) table = true
  <-> In (tx_hash row) (map tx_hash table).
Proof.
  rewrite existsb_exists, in_map_iff. split.
  - intros (r & Hin & Heq). apply String.eqb_eq in Heq. by exists r.
  - intros (r & Heq & Hin). exists r. split; [done |]. by apply String.eqb_eq.
Qed.

Lemma insertTransactionRow_cases row table :
  (In (tx_hash row) (map tx_hash table) /\ insertTransactionRow row table = table)
  \/ (~ In (tx_hash row) (map tx_hash table)
      /\ insertTransactionRow row table = table ++ [row]).
Proof.
  unfold insertTransactionRow.
  destruct (existsb _ table) eqn:E.
  - left. split; [by apply hash_on_record | done].
  - right. split; [| done]. intros H. apply hash_on_record in H. congruence.
Qed.

Lemma insertAll_appends p txs table :
  exists added,
    insertAll p txs table = table ++ added
    /\ Forall (fun row => exists tx, In tx txs /\ row = transactionRow p tx) added
    /\ (NoDup (map tx_hash table) -> NoDup (map tx_hash (table ++ added))).
Proof.
  revert table. induction txs as [| tx txs IH]; intros table.
  - exists []. simpl. rewrite app_nil_r. repeat split; [constructor | done].
  - simpl.
    destruct (insertTransactionRow_cases (transactionRow p tx) table)
      as [[Hin ->] | [Hnew ->]].
    + destruct (IH table) as (added & Heq & Hrows & Hnodup).
      exists added. split; [done |]. split; [| done].
      eapply Forall_impl; [exact Hrows |].
      intros row (tx' & Hin' & ->). exists tx'. by split; [right |].
    + destruct (IH (table ++ [transactionRow p tx])) as (added & Heq & Hrows & Hnodup).
      exists (transactionRow p tx :: added).
      rewrite Heq, <- app_assoc. split; [done |]. split.
      * constructor; [exists tx; by split; [left |] |].
        eapply Forall_impl; [exact Hrows |].
        intros row (tx' & Hin' & ->). exists tx'. by split; [right |].
      * intros Hnd. rewrite <- app_assoc in Hnodup. apply Hnodup.
        rewrite map_app. simpl. apply NoDup_app. split; [done |].
        split; [| apply NoDup_singleton].
        intros x Hx Hx'. apply list_elem_of_In in Hx.
        apply list_elem_of_singleton in Hx'. subst x. by apply Hnew.
Qed.

Lemma insertAll_on_record p txs table tx :
  In tx txs -> In (Valid.txHash tx) (map tx_hash (insertAll p txs table)).
Proof.
  revert table. induction txs as [| tx' txs IH]; intros table; [done |].
  intros [-> | Hin]; simpl; [| by apply IH].
  destruct (insertAll_appends p txs (insertTransactionRow (transactionRow p tx) table))
    as (added & -> & _).
  rewrite map_app. apply in_or_app. left.
  destruct (insertTransactionRow_cases (transactionRow p tx) table)
    as [[Hin ->] | [_ ->]]; [exact Hin |].
  rewrite map_app. apply in_or_app. right. by left.
Qed.

Lemma insertAll_absorbed p txs table :
  (forall tx, In tx txs -> In (Valid.txHash tx) (map tx_hash table)) ->
  insertAll p txs table = table.
Proof.
  induction txs as [| tx txs IH]; intros Hall; [done |]. simpl.
  destruct (insertTransactionRow_cases (transactionRow p tx) table)
    as [[_ ->] | [Hnew _]].
  - apply IH. intros tx' Hin. apply Hall. by right.
  - exfalso. apply Hnew. apply (Hall tx). by left.
Qed.

Lemma with_transactions_same f w :
  f (hypermap_transactions w) = hypermap_transactions w -> with_transactions f w = w.
Proof. destruct w; unfold with_transactions; simpl. by intros ->. Qed.

(** X7. Whatever its outcome, [updatePaymentRecords] only appends to the
    ledger: the rows already on record stay as they are and in place,
    every appended row is the row of a transaction of the batch, hashes
    that were unique stay unique, and the leaderboard is not touched. *)
Theorem updatePaymentRecords_appends h p txs w :
  exists added,
    hypermap_transactions (snd (updatePaymentRecords h p txs w))
      = hypermap_transactions w ++ added
    /\ Forall (fun row => exists tx, In tx txs /\ row = transactionRow p tx) added
    /\ (NoDup (map tx_hash (hypermap_transactions w)) ->
        NoDup (map tx_hash
                 (hypermap_transactions (snd (updatePaymentRecords h p txs w)))))
    /\ provider_leaderboard (snd (updatePaymentRecords h p txs w))
       = provider_leaderboard w.
Proof.
  destruct (updatePaymentRecords_outcome h p txs w) as [-> | [e ->]].
  - destruct (insertAll_appends p txs (hypermap_transactions w))
      as (added & Heq & Hrows & Hnodup).
    exists added. simpl. rewrite Heq. by repeat split.
  - exists []. simpl. rewrite app_nil_r. repeat split; [constructor | done].
Qed.

(** X8. Once [updatePaymentRecords] has returned, the hash of every
    transaction of the batch is on record, and running it again on the
    same batch, whether that call returns or throws, leaves the world
    exactly as it is: a duplicate insert is a no-op. *)
Theorem updatePaymentRecords_again_is_noop h p txs w w1 :
  updatePaymentRecords h p txs w = (Returned tt, w1) ->
  (forall tx, In tx txs -> In (Valid.txHash tx) (map tx_hash (hypermap_transactions w1)))
  /\ snd (updatePaymentRecords h p txs w1) = w1.
Proof.
  intros Hrun.
  assert (Hw1 : w1 = with_transactions (insertAll p txs) w).
  { destruct (updatePaymentRecords_outcome h p txs w) as [Heq | [e Heq]];
      rewrite Heq in Hrun; [by injection Hrun as <- | discriminate]. }
  assert (Hrec : forall tx, In tx txs ->
            In (Valid.txHash tx) (map tx_hash (hypermap_transactions w1))).
  { intros tx Hin. subst w1. simpl. by apply insertAll_on_record. }
  split; [exact Hrec |].
  destruct (updatePaymentRecords_outcome h p txs w1) as [-> | [e ->]]; [| done].
  simpl. apply with_transactions_same. by apply insertAll_absorbed.
Qed.

Lemma updatePaymentRecords_again_is_noop_witness :
  updatePaymentRecords (hostOver chain3) abc (validTransactions reconciled3) emptyWorld
    = (Returned tt,
       snd (updatePaymentRecords (hostOver chain3) abc (validTransactions reconciled3)
              emptyWorld))
  /\ snd (updatePaymentRecords (hostOver chain3) abc (validTransactions reconciled3)
            (snd (updatePaymentRecords (hostOver chain3) abc
                    (validTransactions reconciled3) emptyWorld)))
     = snd (updatePaymentRecords (hostOver chain3) abc (validTransactions reconciled3)
              emptyWorld).
Proof.
  assert (H : updatePaymentRecords (hostOver chain3) abc (validTransactions reconciled3)
                emptyWorld
              = (Returned tt,
                 snd (updatePaymentRecords (hostOver chain3) abc
                        (validTransactions reconciled3) emptyWorld)))
    by (vm_compute; reflexivity).
  split; [exact H |].
  exact (proj2 (updatePaymentRecords_again_is_noop (hostOver chain3) abc
                  (validTransactions reconciled3) emptyWorld _ H)).
Defined.

(** ** Writing the watermark alone *)

(** X9. [updateLastProcessedBlock] refuses a block above 100000000 and,
    whenever it throws, leaves the world as it was. When it returns, the
    block is at most 100000000 and is the provider's watermark; the
    provider's aggregate statistics, the ledger and the rows of all other
    providers are as before, and the processing checkpoint of a provider
    that already had a row has not gone down. *)
Theorem updateLastProcessedBlock_effect h p b w :
  (b > 100000000 ->
   updateLastProcessedBlock h p b w = (Thrown (UnreasonableBlock b), w))
  /\ (forall e w', updateLastProcessedBlock h p b w = (Thrown e, w') -> w' = w)
  /\ (forall w',
        updateLastProcessedBlock h p b w = (Returned tt, w') ->
        b <= 100000000
        /\ watermark w' p = b
        /\ aggregates w' p = aggregates w p
        /\ hypermap_transactions w' = hypermap_transactions w
        /\ othersUntouched p w w'
        /\ (is_Some (provider_leaderboard w !! namehash p) ->
            processing_checkpoint (currentStatsOf w p)
            <= processing_checkpoint (currentStatsOf w' p))).
Proof.
  split; [| split].
  - intros Hb. unfold updateLastProcessedBlock.
    destruct (Z.gtb_spec b 100000000); [reflexivity | lia].
  - intros e w'. apply updateLastProcessedBlock_thrown.
  - intros w' Hrun. apply updateLastProcessedBlock_returned in Hrun as [Hle ->].
    split; [exact Hle |].
    split; [apply watermark_upsertLastProcessedBlock |].
    split; [apply aggregates_upsertLastProcessedBlock |].
    split; [reflexivity |]. split.
    + intros key Hkey. unfold with_leaderboard, upsertLastProcessedBlock. simpl.
      destruct (provider_leaderboard w !! namehash p); by rewrite lookup_insert_ne.
    + intros [row Hrow].
      unfold currentStatsOf, with_leaderboard, upsertLastProcessedBlock. simpl.
      rewrite Hrow, lookup_insert_eq. simpl. lia.
Qed.

(** ** The statistics of a provider *)

Lemma uniqueStrings_fold l seen :
  NoDup seen ->
  NoDup (fold_left (fun seen x => if existsb (String.eqb x) seen then seen
                                  else seen ++ [x]) l seen)
  /\ forall x,
       In x (fold_left (fun seen x => if existsb (String.eqb x) seen then seen
                                      else seen ++ [x]) l seen)
       <-> In x seen \/ In x l.
Proof.
  revert seen. induction l as [| y l IH]; intros seen Hnd; simpl.
  - split; [done |]. intros x. tauto.
  - destruct (existsb (String.eqb y) seen) eqn:E.
    + destruct (IH seen Hnd) as [H1 H2]. split; [exact H1 |].
      intros x. rewrite H2. split; [tauto |].
      intros [H | [<- | H]]; [tauto | | tauto].
      left. apply existsb_exists in E as (z & Hz & Heq).
      apply String.eqb_eq in Heq. by subst.
    + assert (Hnew : ~ In y seen).
      { intros Hin. apply Bool.not_true_iff_false in E. apply E.
        apply existsb_exists. exists y. split; [done | apply String.eqb_refl]. }
      assert (Hnd' : NoDup (seen ++ [y])).
      { apply NoDup_app. split; [done |]. split; [| apply NoDup_singleton].
        intros x Hx Hx'. apply list_elem_of_In in Hx.
        apply list_elem_of_singleton in Hx'. by subst. }
      destruct (IH (seen ++ [y]) Hnd') as [H1 H2]. split; [exact H1 |].
      intros x. rewrite H2, in_app_iff. simpl. tauto.
Qed.

Lemma uniqueStrings_NoDup l : NoDup (uniqueStrings l).
Proof. apply uniqueStrings_fold. constructor. Qed.

Lemma uniqueStrings_In l x : In x (uniqueStrings l) <-> In x l.
Proof.
  unfold uniqueStrings. rewrite (proj2 (uniqueStrings_fold l [] (NoDup_nil_2))).
  simpl. tauto.
Qed.

(** The senders found on record are among the senders asked for. *)
Lemma countExistingSenders_bounds w wallet senders before :
  NoDup senders ->
  0 <= countExistingSenders w wallet senders before <= Z.of_nat (length senders).
Proof.
  intros Hnd. unfold countExistingSenders. split; [lia |].
  apply inj_le. apply NoDup_incl_length; [apply NoDup_ListNoDup, uniqueStrings_NoDup |].
  intros x Hx. apply uniqueStrings_In, in_map_iff in Hx as (r & <- & Hr).
  apply filter_In in Hr as [_ Hr].
  apply andb_true_iff in Hr as [Hr _]. apply andb_true_iff in Hr as [_ Hr].
  apply existsb_exists in Hr as (s & Hs & Heq). apply String.eqb_eq in Heq.
  by subst.
Qed.

(** [updateLeaderboardStatsIncremental], when it returns, in closed form. *)
Lemma updateLeaderboardStatsIncremental_returned h p txs block w w' :
  updateLeaderboardStatsIncremental h p txs block w = (Returned tt, w') ->
  exists existing hash,
    0 <= existing <= Z.of_nat (length (batchSenders txs))
    /\ w' = with_leaderboard
              (upsertLeaderboardStats p (sumValueUsdc txs) (Z.of_nat (length txs))
                 (unique_sender_count (currentStatsOf w p)
                  + (Z.of_nat (length (batchSenders txs)) - existing))
                 (coalesce (first_transaction_at (currentStatsOf w p))
                           (Valid.timestamp <$> head txs))
                 (coalesce (Valid.timestamp <$> last txs)
                           (last_transaction_at (currentStatsOf w p)))
                 block hash) w.
Proof.
  unfold updateLeaderboardStatsIncremental, transaction, bind.
  rewrite query_run. destruct (rejects h Begin_updateLeaderboardStats); [discriminate |].
  unfold id at 1. rewrite getProviderCurrentStats_run.
  destruct (rejects h SelectCurrentStats); [discriminate |].
  fold (batchSenders txs).
  pose proof (uniqueStrings_NoDup
                (map (fun tx => toLowerCase (Valid.fromAddress tx)) txs)) as Hnd.
  fold (batchSenders txs) in Hnd.
  destruct (batchSenders txs) as [| sender others] eqn:Hsenders;
    [| destruct txs as [| first rest]].
  - unfold ret. rewrite query_run.
    destruct (rejects h UpsertLeaderboardStats); [discriminate |].
    rewrite query_run. destruct (rejects h Commit_updateLeaderboardStats);
      [discriminate |].
    intros [= <-]. exists 0, (HashOfStats block (sumValueUsdc txs)
      (transaction_count (currentStatsOf w p) + Z.of_nat (length txs))).
    split; [simpl; lia |]. simpl. by rewrite Z.add_0_r.
  - discriminate Hsenders.
  - unfold select, bind, get, ret. rewrite query_run.
    destruct (rejects h SelectExistingSenders); [discriminate |].
    unfold id at 1. rewrite query_run.
    destruct (rejects h UpsertLeaderboardStats); [discriminate |].
    rewrite query_run. destruct (rejects h Commit_updateLeaderboardStats);
      [discriminate |].
    intros [= <-].
    exists (countExistingSenders w (wallet_address p) (sender :: others)
              (Valid.blockNumber first)),
           (HashOfStats block (sumValueUsdc (first :: rest))
              (transaction_count (currentStatsOf w p)
               + Z.of_nat (length (first :: rest)))).
    split; [by apply countExistingSenders_bounds |]. reflexivity.
Qed.

(** When it does not return, it leaves the world as it was. *)
Lemma updateLeaderboardStatsIncremental_thrown h p txs block w e w' :
  updateLeaderboardStatsIncremental h p txs block w = (Thrown e, w') -> w' = w.
Proof.
  destruct (updateLeaderboardStatsIncremental_outcome h p txs block w)
    as [(u & f & l & hs & ->) | [e' ->]]; [discriminate | by intros [= _ <-]].
Qed.

(** X10. Whatever its outcome, [updateLeaderboardStatsIncremental] never
    lowers the count of unique senders of the provider, and raises it by
    at most the number of distinct senders of the batch, letter case
    apart. *)
Theorem unique_sender_count_only_grows h p txs block w :
  unique_sender_count (currentStatsOf w p)
  <= unique_sender_count
       (currentStatsOf (snd (updateLeaderboardStatsIncremental h p txs block w)) p)
  <= unique_sender_count (currentStatsOf w p) + Z.of_nat (length (batchSenders txs)).
Proof.
  destruct (updateLeaderboardStatsIncremental h p txs block w) as [[[] | e] w'] eqn:Hrun.
  - apply updateLeaderboardStatsIncremental_returned in Hrun
      as (existing & hash & Hbounds & ->).
    simpl snd.
    match goal with
    | |- context [upsertLeaderboardStats p ?t ?c ?u ?f ?l ?b ?hs] =>
        destruct (currentStatsOf_upsertLeaderboardStats p t c u f l b hs w)
          as (_ & _ & _ & -> & _)
    end.
    lia.
  - apply updateLeaderboardStatsIncremental_thrown in Hrun as ->. simpl. lia.
Qed.

(** X11. Whatever its outcome, [updateLeaderboardStatsIncremental] keeps a
    first-transaction time that is already set and never moves the
    last-transaction time backwards. When it returns for a provider with
    no first-transaction time yet, that time becomes the time of the
    first transaction of the batch. *)
Theorem transaction_times_only_extend h p txs block w :
  (forall t,
     first_transaction_at (currentStatsOf w p) = Some t ->
     first_transaction_at
       (currentStatsOf (snd (updateLeaderboardStatsIncremental h p txs block w)) p)
     = Some t)
  /\ (forall t,
        last_transaction_at (currentStatsOf w p) = Some t ->
        exists t',
          last_transaction_at
            (currentStatsOf (snd (updateLeaderboardStatsIncremental h p txs block w)) p)
          = Some t' /\ t <= t')
  /\ (fst (updateLeaderboardStatsIncremental h p txs block w) = Returned tt ->
      first_transaction_at (currentStatsOf w p) = None ->
      first_transaction_at
        (currentStatsOf (snd (updateLeaderboardStatsIncremental h p txs block w)) p)
      = Valid.timestamp <$> head txs).
Proof.
  destruct (updateLeaderboardStatsIncremental h p txs block w) as [[[] | e] w'] eqn:Hrun.
  - apply updateLeaderboardStatsIncremental_returned in Hrun
      as (existing & hash & _ & ->).
    simpl fst. simpl snd.
    unfold currentStatsOf, with_leaderboard, upsertLeaderboardStats. simpl.
    destruct (provider_leaderboard w !! namehash p) as [row |];
      rewrite lookup_insert_eq; simpl.
    + split; [| split].
      * intros t Ht. by rewrite Ht.
      * intros t Ht. rewrite Ht.
        destruct (last txs) as [v |]; simpl.
        -- eexists. split; [reflexivity | lia].
        -- eexists. split; [reflexivity | lia].
      * intros _ Hnone. rewrite Hnone. simpl. by destruct (head txs).
    + split; [| split]; [discriminate | discriminate |].
      intros _ _. by destruct (head txs).
  - apply updateLeaderboardStatsIncremental_thrown in Hrun as ->. simpl.
    split; [| split]; [done | | discriminate].
    intros t Ht. exists t. split; [done | lia].
Qed.

Lemma lowerAscii_idempotent c : lowerAscii (lowerAscii c) = lowerAscii c.
Proof. destruct c as [[] [] [] [] [] [] [] []]; reflexivity. Qed.

Lemma toLowerCase_idempotent s : toLowerCase (toLowerCase s) = toLowerCase s.
Proof.
  induction s as [| c s IH]; [reflexivity |]. simpl.
  by rewrite lowerAscii_idempotent, IH.
Qed.

Lemma filter_filter_implied {A} (f g : A -> bool) l :
  (forall x, f x = true -> g x = true) ->
  List.filter f (List.filter g l) = List.filter f l.
Proof.
  intros Himp. induction l as [| x l IH]; [reflexivity |]. simpl.
  destruct (g x) eqn:Hg; simpl.
  - by rewrite IH.
  - destruct (f x) eqn:Hf; [| exact IH]. apply Himp in Hf. congruence.
Qed.

(** X12. The senders of a batch are compared in lower case, while the
    query for senders already on record compares them with
    [from_address] as it was stored: a ledger row whose sender is not
    written entirely in lower case never counts as an existing sender. *)
Theorem existing_senders_query_skips_mixed_case_rows txs w wallet before :
  Forall (fun s => toLowerCase s = s) (batchSenders txs)
  /\ countExistingSenders w wallet (batchSenders txs) before
     = countExistingSenders (with_transactions lowerCaseSenderRows w) wallet
         (batchSenders txs) before.
Proof.
  assert (Hlower : Forall (fun s => toLowerCase s = s) (batchSenders txs)).
  { apply List.Forall_forall. intros s Hs. unfold batchSenders in Hs.
    apply uniqueStrings_In, in_map_iff in Hs as (tx & <- & _).
    apply toLowerCase_idempotent. }
  split; [exact Hlower |].
  unfold countExistingSenders, with_transactions, lowerCaseSenderRows. simpl.
  rewrite filter_filter_implied; [reflexivity |].
  intros r Hr. apply andb_true_iff in Hr as [Hr _].
  apply andb_true_iff in Hr as [_ Hr].
  apply existsb_exists in Hr as (s & Hs & Heq). apply String.eqb_eq in Heq.
  apply String.eqb_eq. rewrite Heq.
  by apply (proj1 (List.Forall_forall _ _) Hlower).
Qed.

(** ** One provider at a time *)

Lemma othersUntouched_refl p w : othersUntouched p w w.
Proof. by intros key _. Qed.

Lemma othersUntouched_trans p w1 w2 w3 :
  othersUntouched p w1 w2 -> othersUntouched p w2 w3 -> othersUntouched p w1 w3.
Proof. intros H1 H2 key Hkey. by rewrite H2, H1. Qed.

Lemma sameBooks_others p w w' : sameBooks w w' -> othersUntouched p w w'.
Proof. intros [H _] key _. by rewrite H. Qed.

Lemma upsertLastProcessedBlock_others p b hash w :
  othersUntouched p w (with_leaderboard (upsertLastProcessedBlock p b hash) w).
Proof.
  intros key Hkey. unfold with_leaderboard, upsertLastProcessedBlock. simpl.
  destruct (provider_leaderboard w !! namehash p); by rewrite lookup_insert_ne.
Qed.

Lemma upsertLeaderboardStats_others p total count unique first last block hash w :
  othersUntouched p w
    (with_leaderboard
       (upsertLeaderboardStats p total count unique first last block hash) w).
Proof.
  intros key Hkey. unfold with_leaderboard, upsertLeaderboardStats. simpl.
  destruct (provider_leaderboard w !! namehash p); by rewrite lookup_insert_ne.
Qed.

Lemma updateLastProcessedBlock_others h p b w :
  othersUntouched p w (snd (updateLastProcessedBlock h p b w)).
Proof.
  destruct (updateLastProcessedBlock h p b w) as [[[] | e] w'] eqn:Hup.
  - apply updateLastProcessedBlock_returned in Hup as [_ ->].
    apply upsertLastProcessedBlock_others.
  - apply updateLastProcessedBlock_thrown in Hup as ->. apply othersUntouched_refl.
Qed.

Lemma validatedLastProcessedBlock_others h p safe w :
  othersUntouched p w (snd (validatedLastProcessedBlock h p safe w)).
Proof.
  unfold validatedLastProcessedBlock, bind. rewrite getProviderCurrentStats_run.
  destruct (rejects h SelectCurrentStats); [apply othersUntouched_refl |].
  fold (watermark w p).
  destruct (Z.le_gt_cases (watermark w p) (safe + 1000)) as [Hin | Hout].
  - rewrite validateAndFixBlockNumber_within by done.
    rewrite Z.eqb_refl. apply othersUntouched_refl.
  - rewrite validateAndFixBlockNumber_beyond by lia.
    destruct (negb _); [| apply sameBooks_others, sameBooks_warned].
    match goal with
    | |- context [updateLastProcessedBlock h p ?b ?v] =>
        pose proof (updateLastProcessedBlock_others h p b v) as Hup;
        destruct (updateLastProcessedBlock h p b v) as [[[] | e] w2]
    end; simpl in Hup.
    + match goal with
      | |- context [logBlockChange h p ?o ?n ?c ?v] =>
          destruct (logBlockChange_run h p o n c v) as (w3 & -> & Hbooks & _)
      end.
      simpl. eapply othersUntouched_trans; [apply sameBooks_others, sameBooks_warned |].
      eapply othersUntouched_trans; [exact Hup | by apply sameBooks_others].
    + simpl. eapply othersUntouched_trans;
        [apply sameBooks_others, sameBooks_warned | exact Hup].
Qed.

Lemma applyReconciled_others h p r w :
  othersUntouched p w (snd (applyReconciled h p r w)).
Proof.
  destruct (validTransactions r) as [| tx rest] eqn:Hv.
  - rewrite (applyReconciled_no_batch h p r w Hv).
    destruct (reachedSafeHeight r); [| apply othersUntouched_refl].
    apply updateLastProcessedBlock_others.
  - destruct (applyReconciled_outcome h p r w) as
      [(u & f & l & hs & ->) | [-> | ->]].
    + by rewrite Hv.
    + simpl.
      apply (upsertLeaderboardStats_others p _ _ u f l _ hs
               (with_transactions (insertAll p (validTransactions r)) w)).
    + apply othersUntouched_refl.
    + by intros key _.
Qed.

(** X13. Reconciling and applying one provider, whatever happens on the
    way, leaves the leaderboard row of every other provider exactly as
    it was. *)
Theorem provider_run_leaves_other_rows h p lookup safe w :
  othersUntouched p w (snd (reconcileAndApply h p lookup safe w))
  /\ forall q, namehash q <> namehash p ->
       currentStatsOf (snd (reconcileAndApply h p lookup safe w)) q
       = currentStatsOf w q.
Proof.
  assert (H : othersUntouched p w (snd (reconcileAndApply h p lookup safe w))).
  { unfold reconcileAndApply, processProviderTransactions, bind.
    pose proof (validatedLastProcessedBlock_others h p safe w) as H1.
    destruct (validatedLastProcessedBlock h p safe w) as [[b | e] w1];
      simpl in H1; [| exact H1].
    pose proof (reconcileFrom_sameBooks h p lookup safe b w1) as H2.
    destruct (reconcileFrom h p lookup safe b w1) as [[r | e] w2]; simpl in H2.
    - eapply othersUntouched_trans; [exact H1 |].
      eapply othersUntouched_trans; [by apply sameBooks_others |].
      apply applyReconciled_others.
    - simpl. eapply othersUntouched_trans; [exact H1 | by apply sameBooks_others]. }
  split; [exact H |].
  intros q Hq. unfold currentStatsOf. by rewrite (H (namehash q) Hq).
Qed.

(** ** The audit trail *)

(** X14. A reconciliation that gets its fetch sends one row to the block
    processing log: from the validated watermark to the block it returns,
    as a conservative advance when nothing was fetched and as a normal
    advance otherwise. When the log refuses the row, the reconciliation
    returns all the same and the log is unchanged. *)
Theorem advance_is_audited h p lookup safe b w txs r w' :
  b + 1 <= safe ->
  fetchUsdcTransactions h (wallet_address p) (b + 1) safe w = (Returned (Some txs), w) ->
  reconcileFrom h p lookup safe b w = (Returned r, w') ->
  block_processing_log w' =
    if rejects h InsertBlockLog then block_processing_log w
    else block_processing_log w ++ [advanceLogRow p b txs (lastProcessedBlock r)].
Proof.
  intros Hle Hfetch. unfold reconcileFrom.
  destruct (Z.gtb_spec (b + 1) safe); [lia |].
  unfold bind at 1. rewrite Hfetch.
  unfold bind at 1. rewrite forOf_scanTransaction. simpl fst. simpl snd.
  unfold bind, logBlockChange, tryCatch, ret.
  destruct txs as [| tx txs]; simpl; rewrite query_run;
    destruct (rejects h InsertBlockLog); simpl; by intros [= <- <-].
Qed.

Lemma advance_is_audited_witness :
  0 + 1 <= 100
  /\ fetchUsdcTransactions (hostOver chain3) (wallet_address abc) (0 + 1) 100 emptyWorld
     = (Returned (Some chain3), emptyWorld)
  /\ reconcileFrom (hostOver chain3) abc members 100 0 emptyWorld
     = (Returned reconciled3,
        snd (reconcileFrom (hostOver chain3) abc members 100 0 emptyWorld))
  /\ block_processing_log
       (snd (reconcileFrom (hostOver chain3) abc members 100 0 emptyWorld))
     = [advanceLogRow abc 0 chain3 90].
Proof.
  assert (H1 : 0 + 1 <= 100) by lia.
  assert (H2 : fetchUsdcTransactions (hostOver chain3) (wallet_address abc) (0 + 1) 100
                 emptyWorld = (Returned (Some chain3), emptyWorld))
    by (vm_compute; reflexivity).
  assert (H3 : reconcileFrom (hostOver chain3) abc members 100 0 emptyWorld
               = (Returned reconciled3,
                  snd (reconcileFrom (hostOver chain3) abc members 100 0 emptyWorld)))
    by (vm_compute; reflexivity).
  split; [exact H1 |]. split; [exact H2 |]. split; [exact H3 |].
  exact (advance_is_audited (hostOver chain3) abc members 100 0 emptyWorld chain3
           reconciled3 _ H1 H2 H3).
Defined.

(** * Further properties: the registry and the run as a whole *)

(** ** The namespace *)

Lemma filter_head {A} (P : A -> bool) l x rest :
  List.filter P l = x :: rest -> In x l /\ P x = true.
Proof. intros H. apply filter_In. rewrite H. by left. Qed.

Lemma filter_nil_iff {A} (P : A -> bool) l :
  List.filter P l = [] <-> forall x, In x l -> P x = false.
Proof.
  induction l as [| y l IH]; simpl; [by split |].
  destruct (P y) eqn:Hy; split.
  - discriminate.
  - intros H. specialize (H y (or_introl eq_refl)). congruence.
  - intros H x [<- | Hin]; [exact Hy | by apply IH].
  - intros H. apply IH. intros x Hin. apply H. by right.
Qed.

Lemma label_and_parent e l p :
  String.eqb (Entry.label e) l && String.eqb (Entry.parent_hash e) p = true
  <-> Entry.label e = l /\ Entry.parent_hash e = p.
Proof. by rewrite andb_true_iff, !String.eqb_eq. Qed.

(** X15. When its two queries are answered, [findGridBetaHyprNamehash]
    returns the hash of an entry labelled [grid-beta] whose parent is an
    entry labelled [hypr] under the zero hash; it throws
    ['hypr namespace not found'] exactly when the registry has no such
    [hypr] entry, and throws nothing but the two not-found errors. *)
Theorem findGridBetaHyprNamehash_outcome s :
  indexer_rejects s SelectHypr = false ->
  indexer_rejects s SelectGridBeta = false ->
  (forall hash, findGridBetaHyprNamehash s = Done hash ->
     exists hypr gridBeta,
       In hypr (entries (indexerDb s))
       /\ Entry.label hypr = "hypr" /\ Entry.parent_hash hypr = zeroHash
       /\ In gridBeta (entries (indexerDb s))
       /\ Entry.label gridBeta = "grid-beta"
       /\ Entry.parent_hash gridBeta = Entry.namehash hypr
       /\ Entry.namehash gridBeta = hash)
  /\ (findGridBetaHyprNamehash s = Failed (PlainError "hypr namespace not found")
      <-> forall e, In e (entries (indexerDb s)) ->
            ~ (Entry.label e = "hypr" /\ Entry.parent_hash e = zeroHash))
  /\ (forall error, findGridBetaHyprNamehash s = Failed error ->
        error = PlainError "hypr namespace not found"
        \/ error = PlainError "grid-beta.hypr namespace not found").
Proof.
  intros H1 H2. unfold findGridBetaHyprNamehash. rewrite H1.
  destruct (List.filter _ (entries (indexerDb s))) as [| hypr rest] eqn:Hhypr.
  - split; [discriminate |]. split; [| intros error [= <-]; by left].
    split; [| done]. intros _ e Hin He.
    apply label_and_parent in He.
    pose proof (proj1 (filter_nil_iff _ _) Hhypr e Hin) as Hno. simpl in Hno. congruence.
  - apply filter_head in Hhypr as [Hin Hp]. apply label_and_parent in Hp as [Hl Hp].
    rewrite H2.
    destruct (List.filter _ (entries (indexerDb s))) as [| gridBeta rest'] eqn:Hgb.
    + split; [discriminate |]. split; [| intros error [= <-]; by right].
      split; [discriminate |]. intros Hno. by destruct (Hno hypr Hin).
    + apply filter_head in Hgb as [Hin' Hp']. apply label_and_parent in Hp' as [Hl' Hp'].
      split; [| split; [| discriminate]].
      * intros hash [= <-]. by exists hypr, gridBeta.
      * split; [discriminate |]. intros Hno. by destruct (Hno hypr Hin).
Qed.

Lemma findGridBetaHyprNamehash_outcome_witness :
  indexer_rejects (surroundingsOf registry 1010) SelectHypr = false
  /\ indexer_rejects (surroundingsOf registry 1010) SelectGridBeta = false
  /\ findGridBetaHyprNamehash (surroundingsOf registry 1010) = Done "0xgb"
  /\ exists hypr gridBeta,
       In hypr (entries registry)
       /\ Entry.label hypr = "hypr" /\ Entry.parent_hash hypr = zeroHash
       /\ In gridBeta (entries registry)
       /\ Entry.label gridBeta = "grid-beta"
       /\ Entry.parent_hash gridBeta = Entry.namehash hypr
       /\ Entry.namehash gridBeta = "0xgb".
Proof.
  assert (H1 : indexer_rejects (surroundingsOf registry 1010) SelectHypr = false)
    by reflexivity.
  assert (H2 : indexer_rejects (surroundingsOf registry 1010) SelectGridBeta = false)
    by reflexivity.
  assert (H3 : findGridBetaHyprNamehash (surroundingsOf registry 1010) = Done "0xgb")
    by (vm_compute; reflexivity).
  split; [exact H1 |]. split; [exact H2 |]. split; [exact H3 |].
  exact (proj1 (findGridBetaHyprNamehash_outcome (surroundingsOf registry 1010) H1 H2)
           "0xgb" H3).
Defined.

(** X16. Only the first [hypr] entry under the zero hash is looked
    under: with that entry in hand, the function throws
    ['grid-beta.hypr namespace not found'] exactly when no entry labelled
    [grid-beta] has it as parent, whatever hangs under a later [hypr]
    entry. *)
Theorem findGridBetaHyprNamehash_first_hypr s before hypr after :
  indexer_rejects s SelectHypr = false ->
  indexer_rejects s SelectGridBeta = false ->
  entries (indexerDb s) = (before ++ hypr :: after)%list ->
  Entry.label hypr = "hypr" ->
  Entry.parent_hash hypr = zeroHash ->
  (forall e, In e before ->
     ~ (Entry.label e = "hypr" /\ Entry.parent_hash e = zeroHash)) ->
  findGridBetaHyprNamehash s = Failed (PlainError "grid-beta.hypr namespace not found")
  <-> forall e, In e (entries (indexerDb s)) ->
        ~ (Entry.label e = "grid-beta" /\ Entry.parent_hash e = Entry.namehash hypr).
Proof.
  intros H1 H2 Hsplit Hl Hp Hbefore. unfold findGridBetaHyprNamehash. rewrite H1.
  rewrite Hsplit at 1. rewrite List.filter_app.
  replace (List.filter _ before) with (@nil Entry.t).
  2: { symmetry. apply filter_nil_iff. intros e Hin.
       destruct (String.eqb (Entry.label e) "hypr"
                 && String.eqb (Entry.parent_hash e) zeroHash) eqn:He; [| done].
       apply label_and_parent in He. by destruct (Hbefore e Hin). }
  simpl. rewrite Hl, Hp. simpl. rewrite H2.
  destruct (List.filter _ (entries (indexerDb s))) as [| gridBeta rest] eqn:Hgb.
  - split; [| done]. intros _ e Hin He. apply label_and_parent in He.
    pose proof (proj1 (filter_nil_iff _ _) Hgb e Hin) as Hno. simpl in Hno. congruence.
  - apply filter_head in Hgb as [Hin Hq]. apply label_and_parent in Hq.
    split; [discriminate |]. intros Hno. by destruct (Hno gridBeta Hin).
Qed.

Lemma findGridBetaHyprNamehash_first_hypr_witness :
  indexer_rejects (surroundingsOf shadowedRegistry 1010) SelectHypr = false
  /\ indexer_rejects (surroundingsOf shadowedRegistry 1010) SelectGridBeta = false
  /\ Entry.label (Entry.mk "0xh1" "hypr" zeroHash "hypr" None) = "hypr"
  /\ Entry.parent_hash (Entry.mk "0xh1" "hypr" zeroHash "hypr" None) = zeroHash
  /\ findGridBetaHyprNamehash (surroundingsOf shadowedRegistry 1010)
     = Failed (PlainError "grid-beta.hypr namespace not found").
Proof.
  assert (H1 : indexer_rejects (surroundingsOf shadowedRegistry 1010) SelectHypr = false)
    by reflexivity.
  assert (H2 : indexer_rejects (surroundingsOf shadowedRegistry 1010) SelectGridBeta = false)
    by reflexivity.
  assert (H3 : entries (indexerDb (surroundingsOf shadowedRegistry 1010))
               = ([] ++ Entry.mk "0xh1" "hypr" zeroHash "hypr" None
                     :: [ Entry.mk "0xh2" "hypr" zeroHash "hypr" None;
                          Entry.mk "0xgb" "grid-beta" "0xh2" "grid-beta.hypr" None ])%list)
    by reflexivity.
  assert (H4 : Entry.label (Entry.mk "0xh1" "hypr" zeroHash "hypr" None) = "hypr")
    by reflexivity.
  assert (H5 : Entry.parent_hash (Entry.mk "0xh1" "hypr" zeroHash "hypr" None) = zeroHash)
    by reflexivity.
  assert (H6 : forall e, In e (@nil Entry.t) ->
                 ~ (Entry.label e = "hypr" /\ Entry.parent_hash e = zeroHash))
    by (intros e []).
  split; [exact H1 |]. split; [exact H2 |]. split; [exact H4 |]. split; [exact H5 |].
  apply (proj2 (findGridBetaHyprNamehash_first_hypr _ _ _ _ H1 H2 H3 H4 H5 H6)).
  intros e [<- | [<- | [<- | []]]] [Hl Hp]; vm_compute in Hl, Hp; discriminate.
Defined.

(** ** The providers *)

Lemma noteData_In db entry_hash label x :
  In x (noteData db entry_hash label) <->
  exists n, In n (notes db)
    /\ Note.entry_hash n = entry_hash /\ Note.label n = label
    /\ Note.interpreted_data n = Some x.
Proof.
  unfold noteData. rewrite <- list_elem_of_In, list_elem_of_omap.
  split; intros (n & Hin & H); exists n.
  - apply list_elem_of_In in Hin.
    destruct (String.eqb (Note.entry_hash n) entry_hash
              && String.eqb (Note.label n) label) eqn:He; [| discriminate].
    apply andb_true_iff in He as [He Hl]. apply String.eqb_eq in He, Hl. done.
  - destruct H as (He & Hl & Hd). split; [by apply list_elem_of_In |].
    apply String.eqb_eq in He, Hl. by rewrite He, Hl.
Qed.

(** X17. The rows of [fetchProviderEntries] are exactly the triples of an
    entry directly under the namespace, a [~wallet] note of that entry
    and a [~provider-id] note of that entry, both with data: an entry
    that lacks one of the two notes, or has it without data, is no
    provider, and a provider's wallet and id are the data of two notes of
    its own entry. *)
Theorem fetchProviderEntries_rows s gridBetaHyprHash rows :
  fetchProviderEntries s gridBetaHyprHash = Done rows ->
  forall provider,
    In provider rows <->
    exists e wallet_note provider_note,
      In e (entries (indexerDb s))
      /\ Entry.parent_hash e = gridBetaHyprHash
      /\ In wallet_note (notes (indexerDb s))
      /\ Note.entry_hash wallet_note = Entry.namehash e
      /\ Note.label wallet_note = "~wallet"
      /\ Note.interpreted_data wallet_note = Some (wallet_address provider)
      /\ In provider_note (notes (indexerDb s))
      /\ Note.entry_hash provider_note = Entry.namehash e
      /\ Note.label provider_note = "~provider-id"
      /\ Note.interpreted_data provider_note = Some (provider_id provider)
      /\ namehash provider = Entry.namehash e
      /\ full_name provider = Entry.full_name e.
Proof.
  unfold fetchProviderEntries.
  destruct (indexer_rejects s SelectProviderEntries); [discriminate |].
  intros [= <-] provider. rewrite in_flat_map. split.
  - intros (e & Hin & Hp).
    destruct (String.eqb (Entry.parent_hash e) gridBetaHyprHash) eqn:Hparent;
      [| destruct Hp].
    apply String.eqb_eq in Hparent.
    apply in_flat_map in Hp as (wallet & Hw & Hp).
    apply in_map_iff in Hp as (pid & <- & Hpid).
    apply noteData_In in Hw as (wn & Hwn & Hw1 & Hw2 & Hw3).
    apply noteData_In in Hpid as (pn & Hpn & Hp1 & Hp2 & Hp3).
    exists e, wn, pn. simpl. done.
  - intros (e & wn & pn & Hin & Hparent & Hwn & Hw1 & Hw2 & Hw3
              & Hpn & Hp1 & Hp2 & Hp3 & Hn & Hf).
    exists e. split; [exact Hin |].
    apply String.eqb_eq in Hparent. rewrite Hparent.
    apply in_flat_map. exists (wallet_address provider).
    split; [apply noteData_In; by exists wn |].
    apply in_map_iff. exists (provider_id provider).
    split; [| apply noteData_In; by exists pn].
    destruct provider; simpl in *. by subst.
Qed.

Lemma fetchProviderEntries_rows_witness :
  fetchProviderEntries (surroundingsOf registry 1010) "0xgb" = Done [abc]
  /\ exists e wallet_note provider_note,
      In e (entries registry)
      /\ Entry.parent_hash e = "0xgb"
      /\ In wallet_note (notes registry)
      /\ Note.entry_hash wallet_note = Entry.namehash e
      /\ Note.label wallet_note = "~wallet"
      /\ Note.interpreted_data wallet_note = Some (wallet_address abc)
      /\ In provider_note (notes registry)
      /\ Note.entry_hash provider_note = Entry.namehash e
      /\ Note.label provider_note = "~provider-id"
      /\ Note.interpreted_data provider_note = Some (provider_id abc)
      /\ namehash abc = Entry.namehash e
      /\ full_name abc = Entry.full_name e.
Proof.
  assert (H : fetchProviderEntries (surroundingsOf registry 1010) "0xgb" = Done [abc])
    by (vm_compute; reflexivity).
  split; [exact H |].
  apply (fetchProviderEntries_rows (surroundingsOf registry 1010) "0xgb" [abc] H abc).
  by left.
Defined.

(** ** The allow-list *)

Lemma tbaMapOf_snoc rows row :
  tbaMapOf (rows ++ [row]) = tbaMapSet (tbaMapOf rows) row.
Proof. unfold tbaMapOf. by rewrite fold_left_app. Qed.

Lemma tbaMapOf_sound rows k info :
  tbaMapOf rows !! k = Some info ->
  exists e a, In e rows /\ Entry.tba e = Some a /\ toLowerCase a = k
    /\ info = {| fullName := Entry.full_name e; tba_namehash := Entry.namehash e |}.
Proof.
  induction rows as [| row rows IH] using rev_ind; [done |].
  rewrite tbaMapOf_snoc. unfold tbaMapSet.
  destruct (Entry.tba row) as [a |] eqn:Ha.
  - destruct (decide (toLowerCase a = k)) as [<- | Hne].
    + rewrite lookup_insert_eq. intros [= <-]. exists row, a.
      split; [apply in_or_app; right; by left | done].
    + rewrite lookup_insert_ne by done. intros H.
      destruct (IH H) as (e & a' & Hin & He). exists e, a'.
      split; [apply in_or_app; by left | exact He].
  - intros H. destruct (IH H) as (e & a' & Hin & He). exists e, a'.
    split; [apply in_or_app; by left | exact He].
Qed.

Lemma tbaMapOf_last before e after a :
  Entry.tba e = Some a ->
  (forall e' a', In e' after -> Entry.tba e' = Some a' ->
     toLowerCase a' <> toLowerCase a) ->
  tbaMapOf (before ++ e :: after) !! toLowerCase a
  = Some {| fullName := Entry.full_name e; tba_namehash := Entry.namehash e |}.
Proof.
  intros Ha. induction after as [| row after IH] using rev_ind; intros Hafter.
  - rewrite tbaMapOf_snoc. unfold tbaMapSet. rewrite Ha. by rewrite lookup_insert_eq.
  - replace (before ++ e :: after ++ [row])%list
      with ((before ++ e :: after) ++ [row])%list
      by (by rewrite <- app_assoc).
    rewrite tbaMapOf_snoc. unfold tbaMapSet.
    assert (IH' : tbaMapOf (before ++ e :: after) !! toLowerCase a
                  = Some {| fullName := Entry.full_name e;
                            tba_namehash := Entry.namehash e |}).
    { apply IH. intros e' a' Hin. apply Hafter. apply in_or_app. by left. }
    destruct (Entry.tba row) as [a' |] eqn:Ha'; [| exact IH'].
    rewrite lookup_insert_ne; [exact IH' |].
    apply (Hafter row a'); [apply in_or_app; right; by left | exact Ha'].
Qed.

Lemma tbaMapOf_complete rows e a :
  In e rows -> Entry.tba e = Some a -> is_Some (tbaMapOf rows !! toLowerCase a).
Proof.
  induction rows as [| row rows IH] using rev_ind; [done |].
  intros Hin Ha. rewrite tbaMapOf_snoc. unfold tbaMapSet.
  destruct (Entry.tba row) as [a' |] eqn:Ha'.
  - destruct (decide (toLowerCase a' = toLowerCase a)) as [-> | Hne].
    + rewrite lookup_insert_eq. by eexists.
    + rewrite lookup_insert_ne by done.
      apply in_app_or in Hin as [Hin | [<- | []]]; [by apply IH | congruence].
  - apply in_app_or in Hin as [Hin | [<- | []]]; [by apply IH | congruence].
Qed.

(** X18. The allow-list that [buildTbaLookup] returns has an entry under
    the lower-cased account of every registry entry with an account and
    under nothing else, so its keys are in lower case; where several
    entries share an account up to case, the last of them in the table
    gives the name and the hash. *)
Theorem buildTbaLookup_allow_list s tbaLookup :
  buildTbaLookup s = Done tbaLookup ->
  (forall k info, tbaLookup !! k = Some info ->
     toLowerCase k = k
     /\ exists e a, In e (entries (indexerDb s))
          /\ Entry.tba e = Some a /\ toLowerCase a = k
          /\ info = {| fullName := Entry.full_name e;
                       tba_namehash := Entry.namehash e |})
  /\ (forall e a, In e (entries (indexerDb s)) -> Entry.tba e = Some a ->
        is_Some (tbaLookup !! toLowerCase a))
  /\ (forall before e after a,
        entries (indexerDb s) = (before ++ e :: after)%list ->
        Entry.tba e = Some a ->
        (forall e' a', In e' after -> Entry.tba e' = Some a' ->
           toLowerCase a' <> toLowerCase a) ->
        tbaLookup !! toLowerCase a
        = Some {| fullName := Entry.full_name e; tba_namehash := Entry.namehash e |}).
Proof.
  unfold buildTbaLookup. destruct (indexer_rejects s SelectTbas); [discriminate |].
  intros [= <-]. split; [| split].
  - intros k info Hk. destruct (tbaMapOf_sound _ _ _ Hk) as (e & a & Hin & Ha & <- & ->).
    split; [apply toLowerCase_idempotent | by exists e, a].
  - intros e a. apply tbaMapOf_complete.
  - intros before e after a ->. apply tbaMapOf_last.
Qed.

Lemma buildTbaLookup_allow_list_witness :
  buildTbaLookup (surroundingsOf registry 1010)
  = Done (tbaMapOf (entries registry))
  /\ tbaMapOf (entries registry) !! "0xa11ce"
     = Some {| fullName := "alice.os"; tba_namehash := "0x01" |}.
Proof.
  assert (H : buildTbaLookup (surroundingsOf registry 1010)
              = Done (tbaMapOf (entries registry))) by reflexivity.
  split; [exact H |].
  apply (proj2 (proj2 (buildTbaLookup_allow_list _ _ H))
           [ Entry.mk "0xhypr" "hypr" zeroHash "hypr" None;
             Entry.mk "0xgb" "grid-beta" "0xhypr" "grid-beta.hypr" None;
             Entry.mk "0xnode" "weather" "0xgb" "weather.grid-beta.hypr" (Some "0x7BA");
             Entry.mk "0xidle" "idle" "0xgb" "idle.grid-beta.hypr" None ]
           (Entry.mk "0x01" "alice" "0xos" "alice.os" (Some "0xa11cE"))
           [ Entry.mk "0x02" "bob" "0xos" "bob.os" (Some "0xb0b") ]
           "0xa11cE"); [reflexivity | reflexivity |].
  intros e' a' [<- | []] [= <-]. vm_compute. discriminate.
Defined.

(** X19. With the allow-list built from the registry, a reconciliation
    that gets its fetch returns exactly the fetched transfers of the
    range whose sender is the account of a registry entry, letter case
    apart, under the name and hash that the allow-list holds for it. *)
Theorem registry_members_match_whatever_the_case s h p tbaLookup safe b w txs r w' :
  buildTbaLookup s = Done tbaLookup ->
  b + 1 <= safe ->
  fetchUsdcTransactions h (wallet_address p) (b + 1) safe w = (Returned (Some txs), w) ->
  reconcileFrom h p tbaLookup safe b w = (Returned r, w') ->
  forall tx,
    In tx txs ->
    b + 1 <= Raw.blockNumber tx <= safe ->
    (exists e a, In e (entries (indexerDb s)) /\ Entry.tba e = Some a
       /\ toLowerCase a = toLowerCase (Raw.from tx))
    <-> exists info, tbaLookup !! toLowerCase (Raw.from tx) = Some info
          /\ In (validTransaction p tx info) (validTransactions r).
Proof.
  intros Hbuild Hle Hfetch Hrun tx Hin Hrange.
  unfold buildTbaLookup in Hbuild.
  destruct (indexer_rejects s SelectTbas); [discriminate |]. injection Hbuild as <-.
  destruct (reconcileFrom_fetched h p (tbaMapOf (entries (indexerDb s))) safe b w txs
              Hle Hfetch) as (w2 & Heq & _).
  rewrite Heq in Hrun. injection Hrun as <- _. simpl. unfold newTransactionsOf.
  split.
  - intros (e & a & He & Ha & Hlow).
    destruct (tbaMapOf_complete _ e a He Ha) as [info Hinfo]. rewrite Hlow in Hinfo.
    exists info. split; [exact Hinfo |].
    apply matched_In. exists tx, info. split; [| done].
    apply filter_In. split.
    + apply (Permutation_in _ (Permutation_sym (sortByBlockNumber_Permutation txs))).
      exact Hin.
    + unfold inRange. apply andb_true_iff. split; apply Z.leb_le; lia.
  - intros (info & Hinfo & _).
    destruct (tbaMapOf_sound _ _ _ Hinfo) as (e & a & He & Ha & Hlow & _).
    by exists e, a.
Qed.

Lemma registry_members_match_whatever_the_case_witness :
  buildTbaLookup (surroundingsOf registry 1010) = Done (tbaMapOf (entries registry))
  /\ 0 + 1 <= 100
  /\ fetchUsdcTransactions (hostOver chain3) (wallet_address abc) (0 + 1) 100 emptyWorld
     = (Returned (Some chain3), emptyWorld)
  /\ exists r w',
       reconcileFrom (hostOver chain3) abc (tbaMapOf (entries registry)) 100 0 emptyWorld
       = (Returned r, w')
       /\ exists info,
            tbaMapOf (entries registry) !! toLowerCase "0xA11CE" = Some info
            /\ In (validTransaction abc (transfer "0xt1" 10 "0xA11CE") info)
                  (validTransactions r).
Proof.
  assert (H0 : buildTbaLookup (surroundingsOf registry 1010)
               = Done (tbaMapOf (entries registry))) by reflexivity.
  assert (H1 : 0 + 1 <= 100) by lia.
  assert (H2 : fetchUsdcTransactions (hostOver chain3) (wallet_address abc) (0 + 1) 100
                 emptyWorld = (Returned (Some chain3), emptyWorld))
    by (vm_compute; reflexivity).
  split; [exact H0 |]. split; [exact H1 |]. split; [exact H2 |].
  destruct (reconcileFrom (hostOver chain3) abc (tbaMapOf (entries registry)) 100 0
              emptyWorld) as [[r | e] w'] eqn:Hrun;
    [| vm_compute in Hrun; discriminate Hrun].
  exists r, w'. split; [reflexivity |].
  apply (registry_members_match_whatever_the_case (surroundingsOf registry 1010)
           (hostOver chain3) abc (tbaMapOf (entries registry)) 100 0 emptyWorld chain3
           r w' H0 H1 H2 Hrun (transfer "0xt1" 10 "0xA11CE")).
  - by left.
  - vm_compute. split; discriminate.
  - exists (Entry.mk "0x01" "alice" "0xos" "alice.os" (Some "0xa11cE")), "0xa11cE".
    split; [right; right; right; right; by left |]. split; reflexivity.
Defined.

(** ** The height of the chain *)

Lemma heightRetry_done replies n a r height :
  (a + r = n + 1)%nat ->
  (1 <= r)%nat ->
  heightRetry replies n a r = Done height ->
  exists k, (a <= k <= n)%nat
    /\ heightAttempt (replies k) = Done height
    /\ forall i, (a <= i < k)%nat -> exists e, heightAttempt (replies i) = Failed e.
Proof.
  revert a. induction r as [| r IH]; intros a Hsum Hr; [lia |]. simpl.
  destruct (heightAttempt (replies a)) as [answered | e] eqn:Hattempt.
  - intros [= <-]. exists a. split; [lia |]. split; [done |]. intros i Hi. lia.
  - destruct (Nat.eqb_spec a n) as [-> | Hne]; [discriminate |].
    intros H. apply IH in H as (k & Hk & Hok & Hfail); [| lia | lia].
    exists k. split; [lia |]. split; [done |].
    intros i Hi. destruct (Nat.eq_dec i a) as [-> | Hia]; [by exists e |].
    apply Hfail. lia.
Qed.

Lemma heightRetry_failed replies n a r e :
  (a + r = n + 1)%nat ->
  heightRetry replies n a r = Failed e ->
  heightAttempt (replies n) = Failed e
  /\ forall i, (a <= i <= n)%nat -> exists e', heightAttempt (replies i) = Failed e'.
Proof.
  revert a. induction r as [| r IH]; intros a Hsum; simpl; [discriminate |].
  destruct (heightAttempt (replies a)) as [answered | e0] eqn:Hattempt; [discriminate |].
  destruct (Nat.eqb_spec a n) as [-> | Hne].
  - intros [= <-]. split; [done |]. intros i Hi. assert (i = n) as -> by lia. by exists e0.
  - intros H. apply IH in H as [Hlast Hfail]; [| lia]. split; [done |].
    intros i Hi. destruct (Nat.eq_dec i a) as [-> | Hia]; [by exists e0 |].
    apply Hfail. lia.
Qed.

Lemma heightRetry_first_result replies n a r k height :
  (a + r = n + 1)%nat ->
  (a <= k <= n)%nat ->
  (forall i, (a <= i < k)%nat -> exists e, heightAttempt (replies i) = Failed e) ->
  heightAttempt (replies k) = Done height ->
  heightRetry replies n a r = Done height.
Proof.
  revert a. induction r as [| r IH]; intros a Hsum Hk Hfail Hok; [lia |].
  simpl. destruct (Nat.eq_dec a k) as [-> | Hne].
  - by rewrite Hok.
  - destruct (Hfail a ltac:(lia)) as [err ->].
    destruct (Nat.eqb_spec a n); [lia |].
    apply IH; [lia | lia | | done]. intros i Hi. apply Hfail. lia.
Qed.

Lemma heightRetry_all_fail replies n a r e :
  (a + r = n + 1)%nat ->
  (1 <= r)%nat ->
  (forall i, (a <= i <= n)%nat -> exists e', heightAttempt (replies i) = Failed e') ->
  heightAttempt (replies n) = Failed e ->
  heightRetry replies n a r = Failed e.
Proof.
  revert a. induction r as [| r IH]; intros a Hsum Hr Hfail Hlast; [lia |].
  simpl. destruct (Hfail a ltac:(lia)) as [err Herr]. rewrite Herr.
  destruct (Nat.eqb_spec a n) as [-> | Hne].
  - rewrite Hlast in Herr. by injection Herr as ->.
  - apply IH; [lia | lia | | done]. intros i Hi. apply Hfail. lia.
Qed.

(** X20. With at least one attempt allowed, [getCurrentBlockHeight]
    returns what the first attempt that carries a result gives, the
    attempts before it having failed: the number that a hexadecimal
    result denotes, or [NaN] for any other text, without another
    attempt. It throws only when all [MAX_RETRIES] attempts failed, and
    then the error of the last one. *)
Theorem getCurrentBlockHeight_outcome h s :
  (1 <= MAX_RETRIES (config h))%nat ->
  (forall height,
     getCurrentBlockHeight h s = Done height <->
     exists k, (1 <= k <= MAX_RETRIES (config h))%nat
       /\ heightAttempt (blockNumberReplies s k) = Done height
       /\ forall i, (1 <= i < k)%nat ->
            exists e, heightAttempt (blockNumberReplies s i) = Failed e)
  /\ (forall error,
        getCurrentBlockHeight h s = Failed error <->
        heightAttempt (blockNumberReplies s (MAX_RETRIES (config h))) = Failed error
        /\ forall i, (1 <= i <= MAX_RETRIES (config h))%nat ->
             exists e, heightAttempt (blockNumberReplies s i) = Failed e).
Proof.
  intros Hn. unfold getCurrentBlockHeight. split.
  - intros height. split.
    + apply heightRetry_done; lia.
    + intros (k & Hk & Hok & Hfail).
      by apply (heightRetry_first_result _ _ _ _ k); [lia | | |].
  - intros error. split.
    + apply heightRetry_failed. lia.
    + intros [Hlast Hfail]. apply heightRetry_all_fail; [lia | lia | done | done].
Qed.

Lemma getCurrentBlockHeight_outcome_witness :
  (1 <= MAX_RETRIES (config (hostOver chain3)))%nat
  /\ getCurrentBlockHeight (hostOver chain3) rateLimitedSurroundings = Done None.
Proof.
  assert (H1 : (1 <= MAX_RETRIES (config (hostOver chain3)))%nat)
    by (vm_compute; repeat constructor).
  split; [exact H1 |].
  apply (proj1 (getCurrentBlockHeight_outcome (hostOver chain3) rateLimitedSurroundings H1)).
  exists 2%nat. split; [vm_compute; split; repeat constructor |].
  split; [reflexivity |].
  intros i Hi. assert (i = 1%nat) as -> by lia. by eexists.
Defined.

(** ** The run as a whole *)

Lemma providerTurn_tracker withoutHeight h p lookup safe d o d' :
  providerTurn withoutHeight h p lookup safe d = (o, d') ->
  total_runs (tracker_state d') = total_runs (tracker_state d)
  /\ successful_runs (tracker_state d') = successful_runs (tracker_state d)
  /\ failed_runs (tracker_state d') = failed_runs (tracker_state d).
Proof.
  unfold providerTurn.
  destruct ((resolveAll h runPaymentTracker_locals loopPreamble ;; _) (paymentsDb d))
    as [[a | error] w'].
  - by intros [= <- <-].
  - destruct (rejects h UpdateLastError); by intros [= <- <-].
Qed.

Lemma providerTurn_payments withoutHeight h p lookup safe d :
  paymentsDb (snd (providerTurn withoutHeight h p lookup safe d)) = paymentsDb d
  /\ (rejects h UpdateLastError = false ->
      fst (providerTurn withoutHeight h p lookup safe d) = Done tt).
Proof.
  unfold providerTurn, bind. rewrite loopPreamble_throws.
  destruct (rejects h UpdateLastError); by split.
Qed.

Lemma providerTurns_tracker withoutHeight h providers lookup safe d o d' :
  providerTurns withoutHeight h providers lookup safe d = (o, d') ->
  total_runs (tracker_state d') = total_runs (tracker_state d)
  /\ successful_runs (tracker_state d') = successful_runs (tracker_state d)
  /\ failed_runs (tracker_state d') = failed_runs (tracker_state d).
Proof.
  revert d. induction providers as [| p providers IH]; intros d; simpl.
  - by intros [= <- <-].
  - unfold andThen.
    destruct (providerTurn withoutHeight h p lookup safe d) as [[[] | e] d1] eqn:Hturn.
    + intros H. apply IH in H as (H1 & H2 & H3).
      apply providerTurn_tracker in Hturn as (G1 & G2 & G3).
      split; [congruence |]. split; congruence.
    + intros [= <- <-]. by apply providerTurn_tracker in Hturn.
Qed.

Lemma providerTurns_payments withoutHeight h providers lookup safe d :
  paymentsDb (snd (providerTurns withoutHeight h providers lookup safe d)) = paymentsDb d
  /\ (rejects h UpdateLastError = false ->
      fst (providerTurns withoutHeight h providers lookup safe d) = Done tt).
Proof.
  revert d. induction providers as [| p providers IH]; intros d; simpl; [by split |].
  unfold andThen.
  pose proof (providerTurn_payments withoutHeight h p lookup safe d) as [Hp Hd].
  destruct (providerTurn withoutHeight h p lookup safe d) as [[[] | e] d1]; simpl in *.
  - destruct (IH d1) as [IH1 IH2]. split; [congruence | exact IH2].
  - split; [exact Hp |]. intros Hr. by specialize (Hd Hr).
Qed.

Lemma runAttempt_tracker withoutHeight h s d o d' :
  tracker_rejects s UpdateRunStarted = false ->
  tracker_rejects s UpdateRunSucceeded = false ->
  runAttempt withoutHeight h s d = (o, d') ->
  total_runs (tracker_state d') = total_runs (tracker_state d) + 1
  /\ failed_runs (tracker_state d') = failed_runs (tracker_state d)
  /\ match o with
     | Done _ =>
         successful_runs (tracker_state d') = successful_runs (tracker_state d) + 1
         /\ last_error (tracker_state d') = None
     | Failed _ =>
         successful_runs (tracker_state d') = successful_runs (tracker_state d)
     end.
Proof.
  intros Hs Hok. unfold runAttempt, andThen, trackerQuery, await. rewrite Hs, Hok.
  destruct (findGridBetaHyprNamehash s) as [hash | e]; [| by intros [= <- <-]].
  destruct (fetchProviderEntries s hash) as [providers | e]; [| by intros [= <- <-]].
  destruct (buildTbaLookup s) as [lookup | e]; [| by intros [= <- <-]].
  destruct (getCurrentBlockHeight h s) as [height | e]; [| by intros [= <- <-]].
  destruct (providerTurns _ _ _ _ _ _) as [[[] | e] d1] eqn:Hturns;
    apply providerTurns_tracker in Hturns as (H1 & H2 & H3); simpl in *;
    intros [= <- <-]; simpl; repeat split; congruence.
Qed.

(** X21. When the statements on [tracker_state] are accepted, every run
    counts itself once in [total_runs] and once in exactly one of
    [successful_runs] and [failed_runs]: a run that returns leaves
    [last_error] empty, and a run that throws leaves in it the error it
    throws. *)
Theorem run_counts_itself_once withoutHeight h s d o d' :
  (forall t, tracker_rejects s t = false) ->
  runPaymentTracker withoutHeight h s d = (o, d') ->
  total_runs (tracker_state d') = total_runs (tracker_state d) + 1
  /\ match o with
     | Done _ =>
         successful_runs (tracker_state d') = successful_runs (tracker_state d) + 1
         /\ failed_runs (tracker_state d') = failed_runs (tracker_state d)
         /\ last_error (tracker_state d') = None
     | Failed error =>
         successful_runs (tracker_state d') = successful_runs (tracker_state d)
         /\ failed_runs (tracker_state d') = failed_runs (tracker_state d) + 1
         /\ last_error (tracker_state d') = Some (RunFailed error)
     end.
Proof.
  intros Hacc. unfold runPaymentTracker.
  destruct (runAttempt withoutHeight h s d) as [[[] | error] d1] eqn:Hattempt;
    apply runAttempt_tracker in Hattempt as (H1 & H2 & H3); try apply Hacc.
  - intros [= <- <-]. destruct H3. done.
  - unfold trackerQuery. rewrite Hacc. intros [= <- <-]. simpl.
    repeat split; congruence.
Qed.

Lemma run_counts_itself_once_witness :
  (forall t, tracker_rejects (surroundingsOf shadowedRegistry 1010) t = false)
  /\ exists d',
       runPaymentTracker (fun _ _ => ret tt) (hostOver chain3)
         (surroundingsOf shadowedRegistry 1010) (deploymentOf emptyWorld)
       = (Failed (PlainError "grid-beta.hypr namespace not found"), d')
       /\ total_runs (tracker_state d') = 0 + 1
       /\ successful_runs (tracker_state d') = 0
       /\ failed_runs (tracker_state d') = 0 + 1
       /\ last_error (tracker_state d')
          = Some (RunFailed (PlainError "grid-beta.hypr namespace not found")).
Proof.
  assert (H1 : forall t, tracker_rejects (surroundingsOf shadowedRegistry 1010) t = false)
    by (intros t; reflexivity).
  split; [exact H1 |].
  destruct (runPaymentTracker (fun _ _ => ret tt) (hostOver chain3)
              (surroundingsOf shadowedRegistry 1010) (deploymentOf emptyWorld))
    as [o d'] eqn:Hrun.
  assert (Ho : o = Failed (PlainError "grid-beta.hypr namespace not found")).
  { apply (f_equal fst) in Hrun. vm_compute in Hrun. by symmetry. }
  subst o. exists d'. split; [reflexivity |].
  exact (run_counts_itself_once (fun _ _ => ret tt) (hostOver chain3)
           (surroundingsOf shadowedRegistry 1010) (deploymentOf emptyWorld) _ d' H1 Hrun).
Defined.

(** X22. A run whose namespace is found, whose remaining queries are
    answered and whose height is read returns, counts as successful and
    leaves [last_error] empty, although every turn of its loop stopped at
    the unbound name: the errors of the providers are wiped and the
    payments tables are as they were. *)
Theorem run_succeeds_while_applying_nothing withoutHeight h s d hash height :
  findGridBetaHyprNamehash s = Done hash ->
  indexer_rejects s SelectProviderEntries = false ->
  indexer_rejects s SelectTbas = false ->
  getCurrentBlockHeight h s = Done height ->
  rejects h UpdateLastError = false ->
  tracker_rejects s UpdateRunStarted = false ->
  tracker_rejects s UpdateRunSucceeded = false ->
  exists d',
    runPaymentTracker withoutHeight h s d = (Done tt, d')
    /\ paymentsDb d' = paymentsDb d
    /\ tracker_state d' = runSucceeded (runStarted (tracker_state d)).
Proof.
  intros Hhash Hp Ht Hheight Herr Hs Hok.
  unfold runPaymentTracker, runAttempt, andThen, trackerQuery, await.
  rewrite Hs, Hhash. unfold fetchProviderEntries, buildTbaLookup. rewrite Hp, Ht, Hheight.
  match goal with
  | |- context [providerTurns ?wo ?h ?ps ?l ?sf ?d0] =>
      pose proof (providerTurns_payments wo h ps l sf d0) as [Hpay Hdone];
      pose proof (providerTurns_tracker wo h ps l sf d0) as Htr;
      destruct (providerTurns wo h ps l sf d0) as [o d1]
  end.
  simpl in Hpay, Hdone. rewrite (Hdone Herr). rewrite Hok.
  eexists. split; [reflexivity |]. split; [exact Hpay |].
  destruct (Htr _ _ eq_refl) as (H1 & H2 & H3).
  unfold with_tracker_state, runSucceeded. simpl.
  destruct d as [w t]. simpl in *. f_equal; congruence.
Qed.

Lemma run_succeeds_while_applying_nothing_witness :
  findGridBetaHyprNamehash (surroundingsOf registry 1010) = Done "0xgb"
  /\ getCurrentBlockHeight (hostOver chain3) (surroundingsOf registry 1010)
     = Done (Some 1010)
  /\ exists d',
       runPaymentTracker (fun _ _ => ret tt) (hostOver chain3)
         (surroundingsOf registry 1010) (deploymentOf (worldAt 50)) = (Done tt, d')
       /\ paymentsDb d' = worldAt 50
       /\ tracker_state d' = runSucceeded (runStarted freshTrackerState).
Proof.
  assert (H1 : findGridBetaHyprNamehash (surroundingsOf registry 1010) = Done "0xgb")
    by (vm_compute; reflexivity).
  assert (H2 : getCurrentBlockHeight (hostOver chain3) (surroundingsOf registry 1010)
               = Done (Some 1010)) by (vm_compute; reflexivity).
  split; [exact H1 |]. split; [exact H2 |].
  exact (run_succeeds_while_applying_nothing (fun _ _ => ret tt) (hostOver chain3)
           (surroundingsOf registry 1010) (deploymentOf (worldAt 50)) "0xgb" (Some 1010)
           H1 eq_refl eq_refl H2 eq_refl eq_refl eq_refl).
Defined.

Lemma runAttempt_payments withoutHeight h s d :
  paymentsDb (snd (runAttempt withoutHeight h s d)) = paymentsDb d.
Proof.
  unfold runAttempt, andThen, trackerQuery, await.
  destruct (tracker_rejects s UpdateRunStarted); [done |].
  destruct (findGridBetaHyprNamehash s) as [hash | e]; [| done].
  destruct (fetchProviderEntries s hash) as [providers | e]; [| done].
  destruct (buildTbaLookup s) as [lookup | e]; [| done].
  destruct (getCurrentBlockHeight h s) as [height | e]; [| done].
  match goal with
  | |- context [providerTurns ?wo ?h ?ps ?l ?sf ?d0] =>
      pose proof (providerTurns_payments wo h ps l sf d0) as [Hpay _];
      destruct (providerTurns wo h ps l sf d0) as [[[] | e] d1]
  end; simpl in *; [| exact Hpay].
  destruct (tracker_rejects s UpdateRunSucceeded); exact Hpay.
Qed.

(** X23. In this iteration no run changes the payments database,
    whatever the registry, the explorer and the databases answer: the
    ledger, the leaderboard and the processing log after
    [runPaymentTracker] are those before it. *)
Theorem run_never_changes_the_payments_tables withoutHeight h s d :
  paymentsDb (snd (runPaymentTracker withoutHeight h s d)) = paymentsDb d.
Proof.
  unfold runPaymentTracker.
  pose proof (runAttempt_payments withoutHeight h s d) as Hpay.
  destruct (runAttempt withoutHeight h s d) as [[[] | error] d1]; simpl in *;
    [exact Hpay |].
  unfold trackerQuery. destruct (tracker_rejects s UpdateRunFailed); exact Hpay.
Qed.
